(** * The nuclide command-line debugger engine

    A shallow embedding of [modules/nuclide-debugger-cli/lib/Debugger.js]:
    the session state machine, the breakpoint reconciliation protocol and
    the event handlers, as state-passing functions over an explicit
    [Debugger] record.  Requests to the debug adapter and calls on the
    console are recorded, in order, in a log; the adapter's answers are
    supplied by the session object, which may answer according to
    everything that was logged before the request. *)

From Stdlib Require Import ZArith Sorted.
From stdpp Require Import base option list strings gmap pretty.

Local Open Scope Z_scope.
Local Open Scope string_scope.
Local Open Scope list_scope.

(** ** Breakpoint.js *)

Module Breakpoint.

(** [BreakpointState], imported by the engine from [./Breakpoint]. *)
Inductive BreakpointState := ENABLED | ONCE | DISABLED.

#[global] Instance BreakpointState_eq_dec : EqDecision BreakpointState.
Proof. solve_decision. Defined.

(** Modelled from the spec: [Breakpoint.js] is not among the sources.  A
    breakpoint is either a source breakpoint (path and 1-based line) or a
    function breakpoint (function name, and the source location the
    adapter resolved it to, if any). *)
Inductive Kind :=
| Source (path : string) (line : Z)
| Function (func : string) (resolved : option (string * Z)).

(** Modelled from the spec: the attributes of [Breakpoint] (section 3):
    the user-facing [index], the adapter-assigned [id], the [verified]
    flag, the [state], and the adapter-supplied [message]. *)
Record t := mk {
  index : nat;
  id : option Z;
  verified : bool;
  state : BreakpointState;
  message : option string;
  kind : Kind
}.

Definition path (b : t) : option string :=
  match kind b with
  | Source p _ => Some p
  | Function _ (Some (p, _)) => Some p
  | Function _ None => None
  end.

Definition line (b : t) : option Z :=
  match kind b with
  | Source _ l => Some l
  | Function _ (Some (_, l)) => Some l
  | Function _ None => None
  end.

Definition func (b : t) : option string :=
  match kind b with
  | Source _ _ => None
  | Function f _ => Some f
  end.

(** Modelled from the spec: [setState] of the absent [Breakpoint.js]; a
    plain assignment.  That the once state is only entered when the
    adapter supports it is checked by the engine before a breakpoint is
    created ([setSourceBreakpoint], [setFunctionBreakpoint]). *)
Definition setState (s : BreakpointState) (b : t) : t :=
  mk (index b) (id b) (verified b) s (message b) (kind b).

(** Modelled from the spec: [toggleState] of the absent [Breakpoint.js]:
    "flips enabled <-> disabled (once collapses to disabled on toggle)". *)
Definition toggleState (b : t) : t :=
  setState match state b with
           | ENABLED => DISABLED
           | DISABLED => ENABLED
           | ONCE => DISABLED
           end b.

(** Modelled from the spec: the setters behind [setBreakpointId],
    [setBreakpointVerified] and [setPathAndFile]. *)
Definition setId (n : Z) (b : t) : t :=
  mk (index b) (Some n) (verified b) (state b) (message b) (kind b).

Definition setVerified (v : bool) (b : t) : t :=
  mk (index b) (id b) v (state b) (message b) (kind b).

Definition setPathAndFile (p : string) (l : Z) (b : t) : t :=
  mk (index b) (id b) (verified b) (state b) (message b)
     match kind b with
     | Source _ _ => Source p l
     | Function f _ => Function f (Some (p, l))
     end.

(** The filter of the "enabled" getters of the collection: enabled or
    once. *)
Definition isEnabled (b : t) : bool :=
  match state b with
  | ENABLED | ONCE => true
  | DISABLED => false
  end.

End Breakpoint.

Abbreviation BreakpointState := Breakpoint.BreakpointState.

(** ** BreakpointCollection.js *)

Module BreakpointCollection.

(** The views [SourceBreakpoint] and [FunctionBreakpoint] that the engine
    imports as types from [./BreakpointCollection]; the engine reads
    [index] and [line] of the first, [index] and [func] of the second. *)
Record SourceBreakpoint := mkSource {
  s_index : nat;
  s_path : string;
  s_line : Z
}.

Record FunctionBreakpoint := mkFunction {
  f_index : nat;
  f_func : string
}.

(** Modelled from the spec: [BreakpointCollection.js] is not among the
    sources.  The registry keeps its breakpoints in creation order, the
    next index to hand out (indices are never reused), and whether the
    once state is allowed. *)
Record t := mk {
  breakpoints : list Breakpoint.t;
  nextIndex : nat;
  allowOnceState : bool
}.

Definition empty : t := mk [] 0%nat false.

Definition supportsOnceState (c : t) : bool := allowOnceState c.

Definition enableOnceState (c : t) : t :=
  mk (breakpoints c) (nextIndex c) true.

Definition getAllBreakpoints (c : t) : list Breakpoint.t := breakpoints c.

Definition initialState (once : bool) (c : t) : BreakpointState :=
  if once && supportsOnceState c then Breakpoint.ONCE else Breakpoint.ENABLED.

(** Modelled from the spec: "assigns a fresh index, initial state enabled
    (or once if requested and supported), verified false". *)
Definition addSourceBreakpoint (path : string) (line : Z) (once : bool)
    (c : t) : nat * t :=
  let b := Breakpoint.mk (nextIndex c) None false (initialState once c) None
             (Breakpoint.Source path line) in
  (nextIndex c, mk (breakpoints c ++ [b]) (S (nextIndex c)) (allowOnceState c)).

Definition addFunctionBreakpoint (func : string) (once : bool)
    (c : t) : nat * t :=
  let b := Breakpoint.mk (nextIndex c) None false (initialState once c) None
             (Breakpoint.Function func None) in
  (nextIndex c, mk (breakpoints c ++ [b]) (S (nextIndex c)) (allowOnceState c)).

Definition hasIndex (i : nat) (b : Breakpoint.t) : bool :=
  bool_decide (Breakpoint.index b = i).

Definition hasId (n : Z) (b : Breakpoint.t) : bool :=
  bool_decide (Breakpoint.id b = Some n).

Definition deleteBreakpoint (i : nat) (c : t) : t :=
  mk (List.filter (fun b => negb (hasIndex i b)) (breakpoints c))
     (nextIndex c) (allowOnceState c).

Definition deleteAllBreakpoints (c : t) : t :=
  mk [] (nextIndex c) (allowOnceState c).

(** Modelled from the spec: [None] stands for the NotFound failure. *)
Definition getBreakpointByIndex (i : nat) (c : t) : option Breakpoint.t :=
  List.find (hasIndex i) (breakpoints c).

Definition getBreakpointById (n : Z) (c : t) : option Breakpoint.t :=
  List.find (hasId n) (breakpoints c).

(** A [Breakpoint] object handed out by the collection is shared with it:
    a method called on the object is seen by every later lookup.  The
    reference is the index; [update] is the write through it. *)
Definition update (i : nat) (f : Breakpoint.t -> Breakpoint.t) (c : t) : t :=
  mk (List.map (fun b => if hasIndex i b then f b else b) (breakpoints c))
     (nextIndex c) (allowOnceState c).

Definition updateAll (f : Breakpoint.t -> Breakpoint.t) (c : t) : t :=
  mk (List.map f (breakpoints c)) (nextIndex c) (allowOnceState c).

Definition setBreakpointId (i : nat) (n : Z) : t -> t :=
  update i (Breakpoint.setId n).

Definition setBreakpointVerified (i : nat) (v : bool) : t -> t :=
  update i (Breakpoint.setVerified v).

Definition setPathAndFile (i : nat) (p : string) (l : Z) : t -> t :=
  update i (Breakpoint.setPathAndFile p l).

Definition asSource (b : Breakpoint.t) : option SourceBreakpoint :=
  match Breakpoint.kind b with
  | Breakpoint.Source p l =>
      if Breakpoint.isEnabled b then Some (mkSource (Breakpoint.index b) p l)
      else None
  | Breakpoint.Function _ _ => None
  end.

Definition asFunction (b : Breakpoint.t) : option FunctionBreakpoint :=
  match Breakpoint.kind b with
  | Breakpoint.Source _ _ => None
  | Breakpoint.Function f _ =>
      if Breakpoint.isEnabled b then Some (mkFunction (Breakpoint.index b) f)
      else None
  end.

Definition enabledSources (c : t) : list SourceBreakpoint :=
  omap asSource (breakpoints c).

(** Modelled from the spec: "the list of enabled-or-once source
    breakpoints at [path], ordered by their index". *)
Definition getAllEnabledBreakpointsForSource (path : string) (c : t)
    : list SourceBreakpoint :=
  List.filter (fun s => bool_decide (s_path s = path)) (enabledSources c).

(** The elements of a list, each at its first occurrence: the order in
    which a JavaScript [Set] or [Map] keeps what is added to it. *)
Definition firstOccurrences (l : list string) : list string :=
  reverse (remove_dups (reverse l)).

(** The paths of the source breakpoints, enabled or not. *)
Definition sourcePaths (c : t) : list string :=
  omap (fun b => match Breakpoint.kind b with
                 | Breakpoint.Source p _ => Some p
                 | Breakpoint.Function _ _ => None
                 end)
       (breakpoints c).

(** Modelled from the spec: "grouped map over all source paths that carry
    at least one enabled breakpoint", each path with its enabled
    breakpoints.  In scenario 2 of the spec the only breakpoint of "/a.c"
    has just been disabled and the engine "re-sends [setBreakpoints]" for
    that path with "breakpoints:[]": a path whose breakpoints are all
    disabled is a key of the map too, with the empty list.  So the keys
    are the paths of all source breakpoints, enabled or not.  The engine
    iterates over the map; the paths come in the order of their first
    breakpoint. *)
Definition getAllEnabledBreakpointsByPath (c : t)
    : list (string * list SourceBreakpoint) :=
  List.map (fun p => (p, getAllEnabledBreakpointsForSource p c))
           (firstOccurrences (sourcePaths c)).

Definition getAllEnabledFunctionBreakpoints (c : t)
    : list FunctionBreakpoint :=
  omap asFunction (breakpoints c).

(** Modelled from the spec: "all paths with any breakpoint", in the
    order of their first breakpoint. *)
Definition getAllBreakpointPaths (c : t) : list string :=
  firstOccurrences (omap Breakpoint.path (breakpoints c)).

End BreakpointCollection.

Abbreviation SourceBreakpoint := BreakpointCollection.SourceBreakpoint.
Abbreviation FunctionBreakpoint := BreakpointCollection.FunctionBreakpoint.

(** ** The debug adapter protocol *)

Module DebugProtocol.

(** [DebugProtocol.Source]: every field is optional. *)
Record Source := mkSource {
  name : option string;
  path : option string;
  sourceReference : option Z
}.

(** [DebugProtocol.Breakpoint], an element of the adapter's answer to
    [setBreakpoints] and [setFunctionBreakpoints].  The engine tests [id],
    [verified], [message], [source] and [line] against null, so all are
    optional here. *)
Record Breakpoint := mkBreakpoint {
  id : option Z;
  verified : option bool;
  message : option string;
  source : option Source;
  line : option Z
}.

Definition setMessage (m : string) (r : Breakpoint) : Breakpoint :=
  mkBreakpoint (id r) (verified r) (Some m) (source r) (line r).

(** The body of an output event. *)
Record OutputEvent := mkOutputEvent {
  category : option string;
  output : option string
}.

(** The body of a stopped event; [breakpointId] is the extension announced
    by the capability [supportsBreakpointIdOnStop]. *)
Record StoppedEvent := mkStoppedEvent {
  description : option string;
  threadId : option Z;
  allThreadsStopped : option bool;
  breakpointId : option Z
}.

Record ExitedEvent := mkExitedEvent { exitCode : Z }.

(** The capabilities the engine reads; an absent capability reads as
    [undefined]. *)
Record Capabilities := mkCapabilities {
  supportsConfigurationDoneRequest : option bool;
  supportsFunctionBreakpoints : option bool;
  supportsBreakpointIdOnStop : option bool
}.

End DebugProtocol.

(** JavaScript's [Boolean(x)] on an optional boolean. *)
Definition Boolean (x : option bool) : bool := default false x.

(** ** Thread.js and ThreadCollection.js *)

Module Thread.

(** Modelled from the spec: [Thread.js] is not among the sources. *)
Record t := mk {
  id : Z;
  name : string;
  isStopped : bool;
  selectedStackFrame : nat
}.

Definition clearSelectedStackFrame (th : t) : t :=
  mk (id th) (name th) (isStopped th) 0%nat.

Definition setStopped (th : t) : t :=
  mk (id th) (name th) true (selectedStackFrame th).

End Thread.

Module ThreadCollection.

(** Modelled from the spec: [ThreadCollection.js] is not among the
    sources: "a mapping id -> Thread plus a nullable focusThreadId". *)
Record t := mk {
  threads : list Thread.t;
  focusThreadId : option Z
}.

Definition empty : t := mk [] None.

Definition allThreads (c : t) : list Thread.t := threads c.

Definition hasId (n : Z) (th : Thread.t) : bool :=
  bool_decide (Thread.id th = n).

Definition getThreadById (n : Z) (c : t) : option Thread.t :=
  List.find (hasId n) (threads c).

Definition update (n : Z) (f : Thread.t -> Thread.t) (c : t) : t :=
  mk (List.map (fun th => if hasId n th then f th else th) (threads c))
     (focusThreadId c).

Definition updateAll (f : Thread.t -> Thread.t) (c : t) : t :=
  mk (List.map f (threads c)) (focusThreadId c).

Definition allThreadsRunning (c : t) : bool :=
  forallb (fun th => negb (Thread.isStopped th)) (threads c).

Definition markThreadStopped (n : Z) : t -> t := update n Thread.setStopped.

Definition markAllThreadsStopped : t -> t := updateAll Thread.setStopped.

(** Modelled from the spec: "returns any stopped thread, stable tie-break
    by ascending id".  The engine passes the result to [setFocusThread],
    which takes an id. *)
Definition firstStoppedThread (c : t) : option Z :=
  match List.map Thread.id (List.filter Thread.isStopped (threads c)) with
  | [] => None
  | n :: ns => Some (foldr Z.min n ns)
  end.

(** Modelled from the spec: the focus, if set, refers to an existing
    thread. *)
Definition setFocusThread (n : Z) (c : t) : t :=
  match getThreadById n c with
  | Some _ => mk (threads c) (Some n)
  | None => c
  end.

End ThreadCollection.

(** ** The engine's state *)

Inductive SessionState :=
| INITIALIZING (* waiting for initialized event from adapter *)
| CONFIGURING  (* waiting for user to issue 'run' command *)
| RUNNING      (* program is running *)
| STOPPED      (* program has hit a breakpoint *)
| TERMINATED.  (* program is gone and not coming back *)

#[global] Instance SessionState_eq_dec : EqDecision SessionState.
Proof. solve_decision. Defined.

(** What the engine does to its collaborators: the calls on [ConsoleIO],
    the requests sent through [VsDebugSession]. *)
Inductive Effect :=
| console_output (text : string)
| console_outputLine (text : string)
| console_startInput
| console_stopInput
| session_setBreakpoints (path : string) (lines : list Z)
| session_setFunctionBreakpoints (names : list string)
| session_pause (threadId : Z).

(** An [Error] carries its message; [TypeError] is what reading a property
    of [undefined] raises; [AssertionError] is a failed [invariant];
    [NotFound] is the collection's failed lookup; [Rejected] is a request
    the adapter failed. *)
Inductive Exn :=
| Error (message : string)
| TypeError (message : string)
| AssertionError
| NotFound
| Rejected (message : string).

(** The answer to a request: a rejection, or the response body. *)
Definition Response (A : Type) : Type := Exn + A.

(** [VsDebugSession], as far as the engine uses it here.  The session
    answers a request knowing everything logged before it. *)
Record VsDebugSession := mkSession {
  capabilities : DebugProtocol.Capabilities;
  setBreakpoints :
    list Effect -> string -> list Z -> Response (list DebugProtocol.Breakpoint);
  setFunctionBreakpoints :
    list Effect -> list string -> Response (list DebugProtocol.Breakpoint);
  pause : list Effect -> Z -> Response unit
}.

(** [ParsedVSAdapter] and its [adapter] descriptor, as far as read here. *)
Record Adapter := mkAdapter { asyncStopThread : option Z }.

Record ParsedVSAdapter := mkParsedVSAdapter {
  type : string;
  adapter : Adapter
}.

(** The fields of [class Debugger] that the modelled methods read or
    write, under their names, and the [log].  A reference to a [Breakpoint]
    ([_stoppedAtBreakpoint]) is its index. *)
Record Debugger := mkDebugger {
  _state : SessionState;
  _debugSession : option VsDebugSession;
  _threads : ThreadCollection.t;
  _breakpoints : BreakpointCollection.t;
  _adapter : option ParsedVSAdapter;
  _attachMode : bool;
  _readyForEvaluations : bool;
  _muteOutputCategories : gset string;
  _attached : bool;
  _configured : bool;
  _stoppedAtBreakpoint : option nat;
  _disconnecting : bool;
  log : list Effect
}.

Definition with_state (s : SessionState) (d : Debugger) : Debugger :=
  mkDebugger s (_debugSession d) (_threads d) (_breakpoints d) (_adapter d)
    (_attachMode d) (_readyForEvaluations d) (_muteOutputCategories d)
    (_attached d) (_configured d) (_stoppedAtBreakpoint d) (_disconnecting d)
    (log d).

Definition with_threads (t : ThreadCollection.t) (d : Debugger) : Debugger :=
  mkDebugger (_state d) (_debugSession d) t (_breakpoints d) (_adapter d)
    (_attachMode d) (_readyForEvaluations d) (_muteOutputCategories d)
    (_attached d) (_configured d) (_stoppedAtBreakpoint d) (_disconnecting d)
    (log d).

Definition with_breakpoints (c : BreakpointCollection.t) (d : Debugger)
    : Debugger :=
  mkDebugger (_state d) (_debugSession d) (_threads d) c (_adapter d)
    (_attachMode d) (_readyForEvaluations d) (_muteOutputCategories d)
    (_attached d) (_configured d) (_stoppedAtBreakpoint d) (_disconnecting d)
    (log d).

Definition with_stoppedAtBreakpoint (b : option nat) (d : Debugger)
    : Debugger :=
  mkDebugger (_state d) (_debugSession d) (_threads d) (_breakpoints d)
    (_adapter d) (_attachMode d) (_readyForEvaluations d)
    (_muteOutputCategories d) (_attached d) (_configured d) b
    (_disconnecting d) (log d).

Definition with_log (l : list Effect) (d : Debugger) : Debugger :=
  mkDebugger (_state d) (_debugSession d) (_threads d) (_breakpoints d)
    (_adapter d) (_attachMode d) (_readyForEvaluations d)
    (_muteOutputCategories d) (_attached d) (_configured d)
    (_stoppedAtBreakpoint d) (_disconnecting d) l.

(** ** Control flow *)

(** A method returns, throws, or ends the process ([process.exit]). *)
Inductive Outcome (A : Type) :=
| Return (a : A)
| Throw (e : Exn)
| Exit (code : Z).

Arguments Return {A} a.
Arguments Throw {A} e.
Arguments Exit {A} code.

Definition M (A : Type) : Type := Debugger -> Outcome A * Debugger.

#[global] Instance M_ret : MRet M := fun A a d => (Return a, d).

#[global] Instance M_bind : MBind M := fun A B f m d =>
  match m d with
  | (Return a, d') => f a d'
  | (Throw e, d') => (Throw e, d')
  | (Exit c, d') => (Exit c, d')
  end.

Definition throw {A} (e : Exn) : M A := fun d => (Throw e, d).

Definition process_exit {A} (code : Z) : M A := fun d => (Exit code, d).

(** [try { m } catch (e) { h e }]. *)
Definition try_catch {A} (m : M A) (h : Exn -> M A) : M A := fun d =>
  match m d with
  | (Throw e, d') => h e d'
  | r => r
  end.

Definition gets {A} (f : Debugger -> A) : M A := fun d => (Return (f d), d).

Definition modify (f : Debugger -> Debugger) : M unit :=
  fun d => (Return tt, f d).

Definition emit (e : Effect) : M unit :=
  modify (fun d => with_log (log d ++ [e]) d).

(** A write through a reference to a [Breakpoint] of the collection. *)
Definition onBreakpoint (i : nat) (f : Breakpoint.t -> Breakpoint.t) : M unit :=
  modify (fun d =>
    with_breakpoints (BreakpointCollection.update i f (_breakpoints d)) d).

Definition onBreakpoints (f : BreakpointCollection.t -> BreakpointCollection.t)
    : M unit :=
  modify (fun d => with_breakpoints (f (_breakpoints d)) d).

(** [await] of a request: the request is logged, and the session's answer
    to it is the value of the [await] or is thrown. *)
Definition request {A} (e : Effect)
    (answer : list Effect -> Response A) : M A := fun d =>
  match answer (log d) with
  | inl err => (Throw err, with_log (log d ++ [e]) d)
  | inr a => (Return a, with_log (log d ++ [e]) d)
  end.

Definition message (e : Exn) : string :=
  match e with
  | Error m | TypeError m | Rejected m => m
  | AssertionError => "assertion failed"
  | NotFound => "not found"
  end.

(** Sending a request, and settling on the answer.  An [async] function
    that has been called but not awaited has sent its request; [settle] is
    where it resumes. *)
Definition send {A} (e : Effect) (answer : list Effect -> Response A)
    : M (Response A) := fun d =>
  (Return (answer (log d)), with_log (log d ++ [e]) d).

Definition settle {A} (r : Response A) : M A :=
  match r with
  | inl err => throw err
  | inr a => mret a
  end.

(** An [async] function called without [await]: it runs up to its first
    [await] and hands back the rest; an exception before that point shows
    only when the promise is awaited. *)
Definition Async (A : Type) : Type := M (M A).

Definition async {A} (m : M (M A)) : Async A :=
  try_catch m (fun e => mret (throw e)).

Definition await {A} (a : Async A) : M A := k ← a; k.

(** [Promise.all] over promises whose requests have been sent.  The
    continuations run in the order in which the requests were sent (the
    source leaves the order to the adapter); all of them run, and the
    rejection reported is that of the first to fail. *)
Fixpoint Promise_all (ps : list (M unit)) : M unit :=
  match ps with
  | [] => mret tt
  | p :: ps' => fun d =>
      match p d with
      | (Return _, d') => Promise_all ps' d'
      | (Throw e, d') =>
          match Promise_all ps' d' with
          | (Exit c, d'') => (Exit c, d'')
          | (_, d'') => (Throw e, d'')
          end
      | (Exit c, d') => (Exit c, d')
      end
  end.

(** ** Debugger.js: breakpoints *)

(** [_ensureDebugSession] (lines 1318-1334). *)
Definition _ensureDebugSession (allowBeforeLaunch : bool) : M VsDebugSession :=
  debugSession ← gets _debugSession;
  match debugSession with
  | None => throw (Error "There is no active debugging session.")
  | Some session =>
      state ← gets _state;
      if (bool_decide (state = INITIALIZING) || bool_decide (state = CONFIGURING))
         && negb allowBeforeLaunch
      then throw (Error "The program is not yet running (use 'run' to start it).")
      else mret session
  end.

(** The first argument of [_updateBreakpoint] has the type
    [SourceBreakpoint | FunctionBreakpoint]. *)
Definition LocalBreakpoint : Type := SourceBreakpoint + FunctionBreakpoint.

Definition local_index (local : LocalBreakpoint) : nat :=
  match local with
  | inl s => BreakpointCollection.s_index s
  | inr f => BreakpointCollection.f_index f
  end.

Definition local_func (local : LocalBreakpoint) : option string :=
  match local with
  | inl _ => None
  | inr f => Some (BreakpointCollection.f_func f)
  end.

Definition isNullOrEmpty (s : option string) : bool :=
  match s with
  | None => true
  | Some m => bool_decide (m = EmptyString)
  end.

Definition couldNotSet : string :=
  "Could not set this breakpoint. The module may not have been loaded yet.".

(** [_updateBreakpoint] (lines 903-941).  [remote] is [undefined] when the
    adapter's list is shorter than the request's; reading [remote.id] then
    raises.  The method assigns to [remote.message]; the updated [remote]
    is returned to the caller, which holds the same object. *)
Definition _updateBreakpoint (local : LocalBreakpoint)
    (remote : option DebugProtocol.Breakpoint) : M DebugProtocol.Breakpoint :=
  let index := local_index local in
  match remote with
  | None => throw (TypeError "Cannot read property 'id' of undefined")
  | Some remote =>
      match DebugProtocol.id remote with
      | Some id =>
          onBreakpoints (BreakpointCollection.setBreakpointId index id);;
          match DebugProtocol.verified remote with
          | Some verified =>
              onBreakpoints
                (BreakpointCollection.setBreakpointVerified index verified)
          | None => mret tt
          end
      | None =>
          (* if we didn't get an id back from the adapter, we can't match
             breakpoint events, so we'll never get to mark anything
             verified. just assume it's verified. *)
          onBreakpoints (BreakpointCollection.setBreakpointVerified index true)
      end;;
      match local_func local, DebugProtocol.source remote with
      | Some _, Some source =>
          match DebugProtocol.path source, DebugProtocol.line remote with
          | Some path, Some line =>
              onBreakpoints (BreakpointCollection.setPathAndFile index path line)
          | _, _ => mret tt
          end
      | _, _ => mret tt
      end;;
      if negb (Boolean (DebugProtocol.verified remote))
         && isNullOrEmpty (DebugProtocol.message remote)
      then mret (DebugProtocol.setMessage couldNotSet remote)
      else mret remote
  end.

(** [locals.map((_, i) => [_, remotes[i]])]. *)
Definition paired {A} (locals : list A)
    (remotes : list DebugProtocol.Breakpoint)
    : list (A * option DebugProtocol.Breakpoint) :=
  imap (fun i local => (local, remotes !! i)) locals.

(** The loop over the pairs; the pairs come back with the [remote] objects
    as [_updateBreakpoint] left them. *)
Definition updatePaired {A} (inj : A -> LocalBreakpoint)
    (ps : list (A * option DebugProtocol.Breakpoint))
    : M (list (A * DebugProtocol.Breakpoint)) :=
  mapM (fun p => remote ← _updateBreakpoint (inj p.1) p.2; mret (p.1, remote)) ps.

(** [_setSourceBreakpointsForPath] (lines 519-545). *)
Definition _setSourceBreakpointsForPath (session : VsDebugSession)
    (path : string) (indexOfInterest : option nat)
    : M (option DebugProtocol.Breakpoint) :=
  localBreakpoints ←
    gets (fun d => BreakpointCollection.getAllEnabledBreakpointsForSource path
                     (_breakpoints d));
  let lines := BreakpointCollection.s_line <$> localBreakpoints in
  adapterBreakpoints ←
    request (session_setBreakpoints path lines)
            (fun l => setBreakpoints session l path lines);
  paired ← updatePaired inl (paired localBreakpoints adapterBreakpoints);
  let breakpoint :=
    List.find (fun p => bool_decide
                 (Some (BreakpointCollection.s_index p.1) = indexOfInterest))
              paired in
  mret (snd <$> breakpoint).

(** [_setFunctionBreakpoints] (lines 581-607). *)
Definition _setFunctionBreakpoints (session : VsDebugSession)
    (indexOfInterest : nat) : M (option DebugProtocol.Breakpoint) :=
  funcBreakpoints ←
    gets (fun d => BreakpointCollection.getAllEnabledFunctionBreakpoints
                     (_breakpoints d));
  let names := BreakpointCollection.f_func <$> funcBreakpoints in
  adapterBreakpoints ←
    request (session_setFunctionBreakpoints names)
            (fun l => setFunctionBreakpoints session l names);
  paired ← updatePaired inr (paired funcBreakpoints adapterBreakpoints);
  let breakpoint :=
    List.find (fun p => bool_decide
                 (BreakpointCollection.f_index p.1 = indexOfInterest))
              paired in
  mret (snd <$> breakpoint).

(** Where the two [async] functions below resume once the adapter has
    answered: [locals.forEach((local, i) => this._updateBreakpoint(local,
    out[i]))] on the breakpoints of the response (lines 868-870 and
    898-900). *)
Definition resume {A} (inj : A -> LocalBreakpoint) (locals : list A)
    (response : Response (list DebugProtocol.Breakpoint)) : M unit :=
  breakpointsOut ← settle response;
  updatePaired inj (paired locals breakpointsOut);;
  mret tt.

(** [_resetAllFunctionBreakpoints] (lines 879-901). *)
Definition _resetAllFunctionBreakpoints : Async unit :=
  async (
    session ← _ensureDebugSession false;
    funcBreakpoints ←
      gets (fun d => BreakpointCollection.getAllEnabledFunctionBreakpoints
                       (_breakpoints d));
    if negb (Boolean (DebugProtocol.supportsFunctionBreakpoints
                        (capabilities session)))
       || bool_decide (length funcBreakpoints = 0%nat)
    then mret (mret tt)
    else
      let names := BreakpointCollection.f_func <$> funcBreakpoints in
      response ← send (session_setFunctionBreakpoints names)
                      (fun l => setFunctionBreakpoints session l names);
      mret (resume inr funcBreakpoints response)).

(** The [async] arrow function that [_resetAllBreakpoints] maps over the
    breakpoints grouped by path (lines 852-871). *)
Definition resetSourceBreakpoints (session : VsDebugSession)
    (entry : string * list SourceBreakpoint) : Async unit :=
  let '(path, breakpointLines) := entry in
  async (
    let lines := BreakpointCollection.s_line <$> breakpointLines in
    response ← send (session_setBreakpoints path lines)
                    (fun l => setBreakpoints session l path lines);
    mret (resume inl breakpointLines response)).

(** [_resetAllBreakpoints] (lines 846-877). *)
Definition _resetAllBreakpoints : M unit :=
  session ← _ensureDebugSession false;
  sourceBreakpoints ←
    gets (fun d => BreakpointCollection.getAllEnabledBreakpointsByPath
                     (_breakpoints d));
  sourceBreakpointSets ←
    mapM (M:=M) (resetSourceBreakpoints session) sourceBreakpoints;
  functionBreakpointSet ← _resetAllFunctionBreakpoints;
  Promise_all (sourceBreakpointSets ++ [functionBreakpointSet]).

(** [BreakpointSetResult], from [./DebuggerInterface]. *)
Record BreakpointSetResult := mkBreakpointSetResult {
  r_index : nat;
  r_message : option string
}.

Definition adapterType (d : Debugger) : string :=
  match _adapter d with
  | None => "current"
  | Some a => type a
  end.

Definition pending : string := "Breakpoint pending until program starts.".

(** [setSourceBreakpoint] (lines 488-517). *)
Definition setSourceBreakpoint (path : string) (line : Z) (once : bool)
    : M BreakpointSetResult :=
  supportsOnceState ←
    gets (fun d => BreakpointCollection.supportsOnceState (_breakpoints d));
  (if once && negb supportsOnceState
   then
     type ← gets adapterType;
     throw (Error ("The " +:+ type +:+
                   " debugger does not support one-shot breakpoints."))
   else mret tt);;
  (* NB this call is allowed before the program is launched *)
  session ← _ensureDebugSession true;
  index ← (fun d =>
    let '(index, c) :=
      BreakpointCollection.addSourceBreakpoint path line once (_breakpoints d) in
    (Return index, with_breakpoints c d));
  state ← gets _state;
  if bool_decide (state ≠ CONFIGURING)
  then
    breakpoint ← _setSourceBreakpointsForPath session path (Some index);
    mret (mkBreakpointSetResult index
            (breakpoint ≫= DebugProtocol.message))
  else mret (mkBreakpointSetResult index (Some pending)).

(** [setFunctionBreakpoint] (lines 547-579). *)
Definition setFunctionBreakpoint (func : string) (once : bool)
    : M BreakpointSetResult :=
  (* NB this call is allowed before the program is launched *)
  session ← _ensureDebugSession true;
  (if negb (Boolean (DebugProtocol.supportsFunctionBreakpoints
                       (capabilities session)))
   then
     type ← gets adapterType;
     throw (Error ("The " +:+ type +:+
                   " debugger does not support function breakpoints."))
   else mret tt);;
  supportsOnceState ←
    gets (fun d => BreakpointCollection.supportsOnceState (_breakpoints d));
  (if once && negb supportsOnceState
   then
     type ← gets adapterType;
     throw (Error ("The " +:+ type +:+
                   " debugger does not support one-shot breakpoints."))
   else mret tt);;
  index ← (fun d =>
    let '(index, c) :=
      BreakpointCollection.addFunctionBreakpoint func once (_breakpoints d) in
    (Return index, with_breakpoints c d));
  state ← gets _state;
  if bool_decide (state ≠ CONFIGURING)
  then
    breakpoint ← _setFunctionBreakpoints session index;
    mret (mkBreakpointSetResult index
            (breakpoint ≫= DebugProtocol.message))
  else mret (mkBreakpointSetResult index (Some pending)).

(** A [Breakpoint] argument of the engine's methods is a reference to an
    object of the collection, as [getBreakpointByIndex] hands it out.  The
    reference is the index; reading through it fails once the collection
    has dropped the breakpoint. *)
Definition getBreakpointByIndex (index : nat) : M Breakpoint.t :=
  found ← gets (fun d =>
    BreakpointCollection.getBreakpointByIndex index (_breakpoints d));
  match found with
  | None => throw NotFound
  | Some breakpoint => mret breakpoint
  end.

Definition getBreakpointById (id : Z) : M Breakpoint.t :=
  found ← gets (fun d =>
    BreakpointCollection.getBreakpointById id (_breakpoints d));
  match found with
  | None => throw NotFound
  | Some breakpoint => mret breakpoint
  end.

(** [setAllBreakpointsEnabled] (lines 649-654). *)
Definition setAllBreakpointsEnabled (enabled : bool) : M unit :=
  onBreakpoints
    (BreakpointCollection.updateAll (Breakpoint.setState Breakpoint.ENABLED));;
  _resetAllBreakpoints.

(** [setBreakpointEnabled] (lines 656-687). *)
Definition setBreakpointEnabled (breakpoint : nat) (enabled : bool) : M unit :=
  session ← _ensureDebugSession false;
  bp ← getBreakpointByIndex breakpoint;
  let path := Breakpoint.path bp in
  if bool_decide (Breakpoint.state bp ≠ Breakpoint.ENABLED)
  then mret tt
  else
    let oldState := Breakpoint.state bp in
    onBreakpoint breakpoint
      (Breakpoint.setState
         (if enabled then Breakpoint.ENABLED else Breakpoint.DISABLED));;
    match path with
    | Some path =>
        try_catch
          (_setSourceBreakpointsForPath session path
             (Some (Breakpoint.index bp));;
           mret tt)
          (fun error =>
             onBreakpoint breakpoint (Breakpoint.setState oldState);;
             throw error)
    | None => await _resetAllFunctionBreakpoints
    end.

(** [toggleAllBreakpoints] (lines 689-692). *)
Definition toggleAllBreakpoints : M unit :=
  onBreakpoints (BreakpointCollection.updateAll Breakpoint.toggleState);;
  _resetAllBreakpoints.

(** [toggleBreakpoint] (lines 694-716). *)
Definition toggleBreakpoint (breakpoint : nat) : M unit :=
  session ← _ensureDebugSession false;
  bp ← getBreakpointByIndex breakpoint;
  let path := Breakpoint.path bp in
  let oldState := Breakpoint.state bp in
  onBreakpoint breakpoint Breakpoint.toggleState;;
  match path with
  | Some path =>
      try_catch
        (_setSourceBreakpointsForPath session path
           (Some (Breakpoint.index bp));;
         mret tt)
        (fun error =>
           onBreakpoint breakpoint (Breakpoint.setState oldState);;
           throw error)
  | None => await _resetAllFunctionBreakpoints
  end.

(** ** Debugger.js: attach *)

(** [_pauseAfterAttach] (lines 217-239). *)
Definition _pauseAfterAttach : M unit :=
  configured ← gets _configured;
  attached ← gets _attached;
  if configured && attached
  then
    session ← _ensureDebugSession true;
    parsedAdapter ← gets _adapter;
    match parsedAdapter with
    | None => throw (Error "Adapter not set up in _pauseAfterAttach")
    | Some parsed =>
        threadId ←
          match asyncStopThread (adapter parsed) with
          | Some threadId => mret (Some threadId)
          | None =>
              threads ← gets (fun d => ThreadCollection.allThreads (_threads d));
              match threads with
              | [] => mret None
              | thread :: _ => mret (Some (Thread.id thread))
              end
          end;
        match threadId with
        | None =>
            (* nowhere to stop right now. *)
            emit console_stopInput
        | Some threadId =>
            request (session_pause threadId)
                    (fun l => pause session l threadId)
        end
    end
  else mret tt.

(** ** Debugger.js: events *)

(** The filter on the output events in [_initializeObservers]
    (lines 957-964). *)
Definition outputFilter (d : Debugger) (x : DebugProtocol.OutputEvent) : bool :=
  match DebugProtocol.category x with
  | None => false
  | Some category => negb (bool_decide (category ∈ _muteOutputCategories d))
  end.

(** [_onOutput] (lines 1020-1023). *)
Definition _onOutput (event : DebugProtocol.OutputEvent) : M unit :=
  let text := default EmptyString (DebugProtocol.output event) in
  emit (console_output text).

(** An output event of the session, through the filter to its
    subscriber. *)
Definition observeOutputEvents (x : DebugProtocol.OutputEvent) : M unit :=
  d ← gets (fun d => d);
  if outputFilter d x then _onOutput x else mret tt.

(** [_disableBreakpointIfOneShot] (lines 1126-1137). *)
Definition _disableBreakpointIfOneShot (breakpointId : option Z) : M unit :=
  match breakpointId with
  | None => mret tt
  | Some breakpointId =>
      bpt ← getBreakpointById breakpointId;
      if bool_decide (Breakpoint.state bpt = Breakpoint.ONCE)
      then
        onBreakpoint (Breakpoint.index bpt)
          (Breakpoint.setState Breakpoint.DISABLED);;
        _resetAllBreakpoints
      else mret tt
  end.

Definition onThreads (f : ThreadCollection.t -> ThreadCollection.t) : M unit :=
  modify (fun d => with_threads (f (_threads d)) d).

(** What [_getTopOfStackSourceInfo] returns. *)
Record TopOfStack := mkTopOfStack {
  top_line : string;
  top_name : string;
  top_frame_line : Z
}.

Section Stopped.

(** [_getTopOfStackSourceInfo] (lines 1262-1297) reads the stack through
    the session and the text through [SourceFileCache] and [nuclideUri],
    which are not among the sources; the [onStopped] hooks belong to the
    commands registered with the dispatcher.  Both are parameters. *)
Variable _getTopOfStackSourceInfo : Z -> M (option TopOfStack).
Variable onStoppedHooks : M unit.

(** [_onStopped] from line 1062 on: what runs once
    [await this._disableBreakpointIfOneShot(breakpointId)] has returned. *)
Definition _onStopped_resumed (event : DebugProtocol.StoppedEvent) : M unit :=
  let threadId := DebugProtocol.threadId event in
  firstStop ← gets (fun d => ThreadCollection.allThreadsRunning (_threads d));
  match DebugProtocol.description event with
  | Some description =>
      if firstStop
      then emit (console_outputLine ("Stopped: " +:+ description))
      else mret tt
  | None => mret tt
  end;;
  (if bool_decide (DebugProtocol.allThreadsStopped event = Some true)
   then
     onThreads ThreadCollection.markAllThreadsStopped;;
     onThreads (ThreadCollection.updateAll Thread.clearSelectedStackFrame)
   else
     match threadId with
     | Some threadId =>
         onThreads (ThreadCollection.markThreadStopped threadId);;
         thread ← gets (fun d =>
           ThreadCollection.getThreadById threadId (_threads d));
         match thread with
         | None => throw (Error "Couldn't get data for stopped thread.")
         | Some _ =>
             onThreads (ThreadCollection.update threadId
                          Thread.clearSelectedStackFrame)
         end
     | None =>
         (* the call didn't actually contain information about anything
            stopping. *)
         emit (console_outputLine "stop event with no thread information.")
     end);;
  (* for now, set the focus thread to the first thread that stopped *)
  if firstStop : bool
  then
    match threadId with
    | Some threadId => onThreads (ThreadCollection.setFocusThread threadId)
    | None =>
        firstStopped ← gets (fun d =>
          ThreadCollection.firstStoppedThread (_threads d));
        match firstStopped with
        | None => throw AssertionError
        | Some firstStopped =>
            onThreads (ThreadCollection.setFocusThread firstStopped)
        end
    end;;
    try_catch
      (focusThread ← gets (fun d => ThreadCollection.focusThreadId (_threads d));
       match focusThread with
       | None =>
           throw (Error "No focused thread trying to get stack at stop time.")
       | Some focusThread =>
           topOfStack ← _getTopOfStackSourceInfo focusThread;
           match topOfStack with
           | Some top =>
               emit (console_outputLine
                       (top_name top +:+ ":" +:+ pretty (top_frame_line top)
                        +:+ " " +:+ top_line top))
           | None => mret tt
           end;;
           onStoppedHooks
       end)
      (fun err =>
         emit (console_outputLine
                 ("failed to get source at stop point: " +:+ message err)));;
    modify (with_state STOPPED);;
    emit console_startInput
  else mret tt.

(** [_onStopped] (lines 1042-1124). *)
Definition _onStopped (event : DebugProtocol.StoppedEvent) : M unit :=
  let breakpointId := DebugProtocol.breakpointId event in
  modify (with_stoppedAtBreakpoint None);;
  match breakpointId with
  | Some breakpointId =>
      try_catch
        (bpt ← getBreakpointById breakpointId;
         modify (with_stoppedAtBreakpoint (Some (Breakpoint.index bpt))))
        (fun err =>
           emit (console_outputLine
                   ("Debugger stopped at unrecognized breakpoint -- " +:+
                    "current breakpoint will not be valid.")))
  | None => mret tt
  end;;
  _disableBreakpointIfOneShot breakpointId;;
  _onStopped_resumed event.

End Stopped.

Section Terminated.

(** [relaunch] (lines 131-172) is [async], and the handlers below call it
    without [await]: it runs up to its first [await], and the promise is
    dropped.  The handlers are stated for any such [relaunch]. *)
Variable relaunch : Async unit.

Definition detached (a : Async unit) : M unit :=
  try_catch (mbind (M:=M) (fun _ => mret tt) a) (fun _ => mret tt).

(** [_onExitedDebugee] (lines 1168-1185). *)
Definition _onExitedDebugee (event : DebugProtocol.ExitedEvent) : M unit :=
  modify (with_state TERMINATED);;
  emit (console_outputLine
          ("Target exited with status " +:+ pretty (DebugProtocol.exitCode event)));;
  adapter ← gets _adapter;
  match adapter with
  | None => throw AssertionError
  | Some _ =>
      attachMode ← gets _attachMode;
      if negb attachMode
      then emit console_startInput;; detached relaunch
      else process_exit 0
  end.

(** [_onTerminatedDebugee] (lines 1187-1207). *)
Definition _onTerminatedDebugee : M unit :=
  state ← gets _state;
  (* Some adapters will send multiple terminated events. *)
  if bool_decide (state ≠ RUNNING)
  then mret tt
  else
    modify (with_state TERMINATED);;
    emit (console_outputLine "The target has exited.");;
    adapter ← gets _adapter;
    match adapter with
    | None => throw AssertionError
    | Some _ =>
        attachMode ← gets _attachMode;
        if negb attachMode
        then emit console_startInput;; detached relaunch
        else process_exit 0
    end.

(** [_onAdapterExited] (lines 1209-1228). *)
Definition _onAdapterExited : M unit :=
  state ← gets _state;
  disconnecting ← gets _disconnecting;
  (* If we're initializing, this is expected - relaunch() is tearing down
     the adapter to build a new one. *)
  if bool_decide (state = INITIALIZING) && disconnecting
  then mret tt
  else
    modify (with_state TERMINATED);;
    adapter ← gets _adapter;
    match adapter with
    | None => throw AssertionError
    | Some _ =>
        attachMode ← gets _attachMode;
        if negb attachMode
        then emit console_startInput;; detached relaunch
        else process_exit 0
    end.

End Terminated.

(** ** The console *)

(** Modelled from the spec: [ConsoleIO] is an external collaborator whose
    [startInput] and [stopInput] gate the REPL; input is active after a
    [startInput] until the next [stopInput]. *)
Definition inputActive (l : list Effect) : bool :=
  foldl (fun active e =>
           match e with
           | console_startInput => true
           | console_stopInput => false
           | _ => active
           end) false l.

(** ** Stating the reconciliation *)

(** Invariant (i) of the data model: no two breakpoints of the collection
    have the same index. *)
Definition uniqueIndices (c : BreakpointCollection.t) : Prop :=
  NoDup (Breakpoint.index <$> BreakpointCollection.breakpoints c).

(** The collection as the operations of the registry keep it: the
    breakpoints are in the order of their indices, and every index is below
    the next one to be handed out. *)
Definition wellFormed (c : BreakpointCollection.t) : Prop :=
  StronglySorted lt (Breakpoint.index <$> BreakpointCollection.breakpoints c)
  /\ Forall (fun i => (i < BreakpointCollection.nextIndex c)%nat)
       (Breakpoint.index <$> BreakpointCollection.breakpoints c).

(** What one call of [_updateBreakpoint] does to the breakpoint it
    addresses. *)
Definition reconcile (local : LocalBreakpoint)
    (remote : DebugProtocol.Breakpoint) (b : Breakpoint.t) : Breakpoint.t :=
  let b1 :=
    match DebugProtocol.id remote with
    | Some id =>
        match DebugProtocol.verified remote with
        | Some verified => Breakpoint.setVerified verified (Breakpoint.setId id b)
        | None => Breakpoint.setId id b
        end
    | None => Breakpoint.setVerified true b
    end in
  match local_func local, DebugProtocol.source remote with
  | Some _, Some source =>
      match DebugProtocol.path source, DebugProtocol.line remote with
      | Some path, Some line => Breakpoint.setPathAndFile path line b1
      | _, _ => b1
      end
  | _, _ => b1
  end.

(** What the loop over the pairs does to the collection: it stops at the
    first pair whose [remote] is [undefined]. *)
Fixpoint reconcileAll {A} (inj : A -> LocalBreakpoint)
    (ps : list (A * option DebugProtocol.Breakpoint))
    (c : BreakpointCollection.t) : BreakpointCollection.t :=
  match ps with
  | [] => c
  | (_, None) :: _ => c
  | (local, Some remote) :: ps' =>
      reconcileAll inj ps'
        (BreakpointCollection.update (local_index (inj local))
           (reconcile (inj local) remote) c)
  end.

(** What [resume] does to the collection. *)
Definition resumed {A} (inj : A -> LocalBreakpoint) (locals : list A)
    (response : Response (list DebugProtocol.Breakpoint))
    (c : BreakpointCollection.t) : BreakpointCollection.t :=
  match response with
  | inl _ => c
  | inr breakpointsOut => reconcileAll inj (paired locals breakpointsOut) c
  end.

(** C1 as the spec states it: the local breakpoint carries the adapter's
    [id], [verified] and [message], and is verified when the adapter
    omitted the [id]. *)
Definition carriesAll (remote : DebugProtocol.Breakpoint)
    (after : Breakpoint.t) : Prop :=
  Breakpoint.id after = DebugProtocol.id remote
  /\ Some (Breakpoint.verified after) = DebugProtocol.verified remote
  /\ Breakpoint.message after = DebugProtocol.message remote
  /\ (DebugProtocol.id remote = None -> Breakpoint.verified after = true).

(** C1 as the engine has it: with an [id] in the response, the local
    breakpoint takes that [id], and the response's [verified] if there is
    one; without an [id], the local breakpoint keeps the [id] it had and is
    verified.  Its [message] and its [state] stay as they were. *)
Definition carries (remote : DebugProtocol.Breakpoint)
    (before after : Breakpoint.t) : Prop :=
  Breakpoint.id after
  = match DebugProtocol.id remote with
    | Some id => Some id
    | None => Breakpoint.id before
    end
  /\ Breakpoint.verified after
     = match DebugProtocol.id remote, DebugProtocol.verified remote with
       | Some _, Some verified => verified
       | Some _, None => Breakpoint.verified before
       | None, _ => true
       end
  /\ Breakpoint.message after = Breakpoint.message before
  /\ Breakpoint.state after = Breakpoint.state before
  /\ Breakpoint.index after = Breakpoint.index before.

(** The breakpoint with index [i] was [before] and is [after], and
    [after] is [before] brought up to date with [remote]. *)
Definition reconciledAt (i : nat) (remote : DebugProtocol.Breakpoint)
    (c c' : BreakpointCollection.t) : Prop :=
  exists before after,
    BreakpointCollection.getBreakpointByIndex i c = Some before
    /\ BreakpointCollection.getBreakpointByIndex i c' = Some after
    /\ carries remote before after.

(** The requests that [_resetAllBreakpoints] sends for the source
    breakpoints, in order. *)
Definition sourceRequests (c : BreakpointCollection.t) : list Effect :=
  (fun entry : string * list SourceBreakpoint =>
     session_setBreakpoints entry.1 (BreakpointCollection.s_line <$> entry.2))
  <$> BreakpointCollection.getAllEnabledBreakpointsByPath c.

Definition keepsIndex (g : Breakpoint.t -> Breakpoint.t) : Prop :=
  forall b, Breakpoint.index (g b) = Breakpoint.index b.

Definition keepsState (g : Breakpoint.t -> Breakpoint.t) : Prop :=
  forall b, Breakpoint.state (g b) = Breakpoint.state b.

(** The answers to the requests that [_resetAllBreakpoints] sends for the
    source breakpoints, each with the breakpoints it was sent for; [l] is
    the log when the first request is sent. *)
Fixpoint sourceAnswers (session : VsDebugSession) (l : list Effect)
    (groups : list (string * list SourceBreakpoint))
    : list (list SourceBreakpoint * Response (list DebugProtocol.Breakpoint)) :=
  match groups with
  | [] => []
  | (path, bs) :: groups' =>
      let lines := BreakpointCollection.s_line <$> bs in
      (bs, setBreakpoints session l path lines)
      :: sourceAnswers session (l ++ [session_setBreakpoints path lines]) groups'
  end.

(** The function breakpoints for which [_resetAllFunctionBreakpoints]
    sends a request, if it sends one. *)
Definition functionRequest (session : VsDebugSession)
    (c : BreakpointCollection.t) : option (list FunctionBreakpoint) :=
  let funcBreakpoints := BreakpointCollection.getAllEnabledFunctionBreakpoints c in
  if negb (Boolean (DebugProtocol.supportsFunctionBreakpoints
                      (capabilities session)))
     || bool_decide (length funcBreakpoints = 0%nat)
  then None
  else Some funcBreakpoints.

Definition functionRequests (session : VsDebugSession)
    (c : BreakpointCollection.t) : list Effect :=
  match functionRequest session c with
  | Some funcBreakpoints =>
      [session_setFunctionBreakpoints
         (BreakpointCollection.f_func <$> funcBreakpoints)]
  | None => []
  end.

(** Everything that [_resetAllBreakpoints] sends, in order. *)
Definition resetRequests (session : VsDebugSession)
    (c : BreakpointCollection.t) : list Effect :=
  sourceRequests c ++ functionRequests session c.

Definition sourcesResumed
    (answers : list (list SourceBreakpoint
                     * Response (list DebugProtocol.Breakpoint)))
    (c : BreakpointCollection.t) : BreakpointCollection.t :=
  foldl (fun c a => resumed inl a.1 a.2 c) c answers.

(** The collection that [_resetAllBreakpoints] leaves, from the collection
    [c] and the log [l] it started with. *)
Definition resetCollection (session : VsDebugSession) (l : list Effect)
    (c : BreakpointCollection.t) : BreakpointCollection.t :=
  let c1 :=
    sourcesResumed
      (sourceAnswers session l
         (BreakpointCollection.getAllEnabledBreakpointsByPath c)) c in
  match functionRequest session c with
  | Some funcBreakpoints =>
      resumed inr funcBreakpoints
        (setFunctionBreakpoints session (l ++ sourceRequests c)
           (BreakpointCollection.f_func <$> funcBreakpoints)) c1
  | None => c1
  end.

(** A promise that, whenever it is resumed, does [f] to the collection and
    nothing else. *)
Definition transforms (p : M unit)
    (f : BreakpointCollection.t -> BreakpointCollection.t) : Prop :=
  forall d, (p d).2 = with_breakpoints (f (_breakpoints d)) d
            /\ forall code, (p d).1 <> Exit code.

(** What the three handlers do once they have decided to act, from the
    state [d] in which [_state] has been set and the exit line printed. *)
Definition terminated_then (relaunch : Async unit) (d : Debugger)
    : Outcome unit * Debugger :=
  if _attachMode d then (Exit 0, d)
  else detached relaunch (with_log (log d ++ [console_startInput]) d).

(** ** Sample collaborators *)

(** A [relaunch] whose promise has nothing left to do. *)
Definition idle : Async unit := mret (M:=M) (mret (M:=M) tt).

(** A session without capabilities that accepts every request and answers
    the breakpoint requests with an empty list. *)
Definition quietSession : VsDebugSession :=
  mkSession (DebugProtocol.mkCapabilities None None None)
    (fun _ _ _ => inr []) (fun _ _ => inr []) (fun _ _ => inr tt).

Definition gdb (asyncStopThread : option Z) : ParsedVSAdapter :=
  mkParsedVSAdapter "gdb" (mkAdapter asyncStopThread).

(** A session with the capabilities [caps] that gives the same two
    answers whatever it is asked. *)
Definition stubSession (caps : DebugProtocol.Capabilities)
    (sourceAnswer functionAnswer : Response (list DebugProtocol.Breakpoint))
    : VsDebugSession :=
  mkSession caps (fun _ _ _ => sourceAnswer) (fun _ _ => functionAnswer)
    (fun _ _ => inr tt).

Definition allCapabilities : DebugProtocol.Capabilities :=
  DebugProtocol.mkCapabilities (Some true) (Some true) (Some true).

(** An engine in launch mode with the given state, session and
    breakpoints, and nothing logged. *)
Definition engine (state : SessionState) (session : VsDebugSession)
    (c : BreakpointCollection.t) : Debugger :=
  mkDebugger state (Some session) ThreadCollection.empty c (Some (gdb None))
    false true ∅ false false None false [].

(** The collection after [addSourceBreakpoint("/a.c", 7, false)]. *)
Definition oneBreakpoint : BreakpointCollection.t :=
  (BreakpointCollection.addSourceBreakpoint "/a.c" 7 false
     BreakpointCollection.empty).2.

(** An answer without [id] that reports the breakpoint as not verified. *)
Definition unverified : DebugProtocol.Breakpoint :=
  DebugProtocol.mkBreakpoint None (Some false) (Some "pending") None (Some 7).

(** An answer with [id] 42 that reports the breakpoint as verified. *)
Definition verified42 : DebugProtocol.Breakpoint :=
  DebugProtocol.mkBreakpoint (Some 42) (Some true) None None (Some 7).

(** A collection of two source breakpoints and a function breakpoint. *)
Definition threeBreakpoints : BreakpointCollection.t :=
  (BreakpointCollection.addFunctionBreakpoint "foo" false
     (BreakpointCollection.addSourceBreakpoint "/b.c" 8 false oneBreakpoint).2).2.

(** A collection whose only breakpoint is in the once state and is known
    to the adapter as breakpoint 5. *)
Definition onceBreakpoint : BreakpointCollection.t :=
  BreakpointCollection.mk
    [Breakpoint.mk 0 (Some 5) true Breakpoint.ONCE None
       (Breakpoint.Source "/a.c" 7)]
    1 true.

(** A stop at breakpoint 5 on thread 1. *)
Definition stoppedAt5 : DebugProtocol.StoppedEvent :=
  DebugProtocol.mkStoppedEvent (Some "breakpoint") (Some 1) None (Some 5).

(** ** Debugger.js: deleting breakpoints, breakpoint events *)

(** [deleteBreakpoint] (lines 732-750).  The answer of the adapter is
    awaited and dropped. *)
Definition deleteBreakpoint (breakpoint : nat) : M unit :=
  session ← _ensureDebugSession false;
  bp ← getBreakpointByIndex breakpoint;
  let path := Breakpoint.path bp in
  onBreakpoints (BreakpointCollection.deleteBreakpoint (Breakpoint.index bp));;
  match path with
  | Some path =>
      pathBreakpoints ←
        gets (fun d =>
                BreakpointCollection.getAllEnabledBreakpointsForSource path
                  (_breakpoints d));
      let lines := BreakpointCollection.s_line <$> pathBreakpoints in
      request (session_setBreakpoints path lines)
              (fun l => setBreakpoints session l path lines);;
      mret tt
  | None => mret tt
  end.

(** [deleteAllBreakpoints] (lines 718-730).  The requests for the paths
    are all sent before the first answer is awaited. *)
Definition deleteAllBreakpoints : M unit :=
  session ← _ensureDebugSession false;
  paths ← gets (fun d =>
    BreakpointCollection.getAllBreakpointPaths (_breakpoints d));
  promises ←
    mapM (M:=M)
      (fun path => send (session_setBreakpoints path [])
                        (fun l => setBreakpoints session l path []))
      paths;
  Promise_all ((fun response => settle response;; mret tt) <$> promises);;
  request (session_setFunctionBreakpoints [])
          (fun l => setFunctionBreakpoints session l []);;
  onBreakpoints BreakpointCollection.deleteAllBreakpoints.

(** The body of a breakpoint event: the [reason], and the [id] and
    [verified] of its [breakpoint]. *)
Record BreakpointEvent := mkBreakpointEvent {
  be_reason : string;
  be_id : option Z;
  be_verified : bool
}.

(** [_onBreakpointEvent] (lines 1244-1260). *)
Definition _onBreakpointEvent (event : BreakpointEvent) : M unit :=
  match be_id event with
  | Some id =>
      if bool_decide (be_reason event = "new")
         || bool_decide (be_reason event = "changed")
      then
        try_catch
          (breakpoint ← getBreakpointById id;
           onBreakpoint (Breakpoint.index breakpoint)
             (Breakpoint.setVerified (be_verified event)))
          (fun error => emit (console_outputLine "Failed to verify breakpoint."))
      else mret tt
  | None => mret tt
  end.

(** ** Debugger.js: source lines *)

(** [Array.prototype.slice] with both arguments: a negative argument
    counts from the end of the array. *)
Definition slice {A} (l : list A) (start finish : Z) : list A :=
  let len := Z.of_nat (length l) in
  let k := if (start <? 0)%Z then Z.max (len + start) 0 else Z.min start len in
  let final :=
    if (finish <? 0)%Z then Z.max (len + finish) 0 else Z.min finish len in
  take (Z.to_nat (final - k)) (drop (Z.to_nat k) l).

Section SourceLines.

(** [SourceFileCache] is not among the sources; its two readers are
    parameters. *)
Variable getFileDataBySourceReference : Z -> M (list string).
Variable getFileDataByPath : string -> M (list string).

(** Where [getSourceLines] takes the text from (lines 623-632): if
    [source] has a non-zero [sourceReference] the adapter supplies the
    text; otherwise the path, if there is one, is read as a local file. *)
Definition readSource (source : DebugProtocol.Source) : M (list string) :=
  match DebugProtocol.sourceReference source, DebugProtocol.path source with
  | Some sourceReference, path =>
      if bool_decide (sourceReference ≠ 0)
      then getFileDataBySourceReference sourceReference
      else
        match path with
        | Some path => getFileDataByPath path
        | None => mret []
        end
  | None, Some path => getFileDataByPath path
  | None, None => mret []
  end.

(** [getSourceLines] (lines 613-639). *)
Definition getSourceLines (source : DebugProtocol.Source) (start length : Z)
    : M (list string) :=
  lines ← readSource source;
  if (Z.of_nat (List.length lines) <? start)%Z
  then mret []
  else
    let finish := Z.min (start + length - 1) (Z.of_nat (List.length lines)) in
    mret (slice lines (start - 1) finish).

End SourceLines.

(** ** Debugger.js: configuring, running, continuing and stepping *)

Definition with_readyForEvaluations (b : bool) (d : Debugger) : Debugger :=
  mkDebugger (_state d) (_debugSession d) (_threads d) (_breakpoints d)
    (_adapter d) (_attachMode d) b (_muteOutputCategories d) (_attached d)
    (_configured d) (_stoppedAtBreakpoint d) (_disconnecting d) (log d).

Definition with_configured (b : bool) (d : Debugger) : Debugger :=
  mkDebugger (_state d) (_debugSession d) (_threads d) (_breakpoints d)
    (_adapter d) (_attachMode d) (_readyForEvaluations d)
    (_muteOutputCategories d) (_attached d) b (_stoppedAtBreakpoint d)
    (_disconnecting d) (log d).

Definition with_disconnecting (b : bool) (d : Debugger) : Debugger :=
  mkDebugger (_state d) (_debugSession d) (_threads d) (_breakpoints d)
    (_adapter d) (_attachMode d) (_readyForEvaluations d)
    (_muteOutputCategories d) (_attached d) (_configured d)
    (_stoppedAtBreakpoint d) b (log d).

Definition with_debugSession (s : option VsDebugSession) (d : Debugger)
    : Debugger :=
  mkDebugger (_state d) s (_threads d) (_breakpoints d) (_adapter d)
    (_attachMode d) (_readyForEvaluations d) (_muteOutputCategories d)
    (_attached d) (_configured d) (_stoppedAtBreakpoint d) (_disconnecting d)
    (log d).

(** A state as a template string prints it. *)
Definition stateName (s : SessionState) : string :=
  match s with
  | INITIALIZING => "INITIALIZING"
  | CONFIGURING => "CONFIGURING"
  | RUNNING => "RUNNING"
  | STOPPED => "STOPPED"
  | TERMINATED => "TERMINATED"
  end.

(** [_startConfigurationInput] (lines 1162-1166). *)
Definition _startConfigurationInput : M unit :=
  readyForEvaluations ← gets _readyForEvaluations;
  state ← gets _state;
  if readyForEvaluations && bool_decide (state = CONFIGURING)
  then emit console_startInput
  else mret tt.

(** [_onReadyForEvaluations] (lines 1157-1160). *)
Definition _onReadyForEvaluations : M unit :=
  modify (with_readyForEvaluations true);;
  _startConfigurationInput.

(** Modelled from the spec: [ThreadCollection.js] is not among the
    sources; the getter [focusThread] gives the thread that
    [focusThreadId] refers to. *)
Definition focusThread (c : ThreadCollection.t) : option Thread.t :=
  ThreadCollection.focusThreadId c
  ≫= fun n => ThreadCollection.getThreadById n c.

(** Modelled from the spec: [new Thread(id, name)] is a running thread
    with the selected frame 0. *)
Definition newThread (id : Z) (name : string) : Thread.t :=
  Thread.mk id name false 0.

(** [getActiveThread] (lines 288-294). *)
Definition getActiveThread : M Thread.t :=
  _ensureDebugSession false;;
  thread ← gets (fun d => focusThread (_threads d));
  match thread with
  | None => throw (Error "There is no active thread.")
  | Some thread => mret thread
  end.

(** [breakInto] (lines 260-281).  The promise of the pause request is
    dropped: the request is sent and its answer is not awaited. *)
Definition breakInto : M unit :=
  parsedAdapter ← gets _adapter;
  match parsedAdapter with
  | None => throw (Error "No adapter set up in breakInto()")
  | Some parsed =>
      (* if there is a focus thread from before, stop that one, else pick
         a thread or use the adapter-specified default *)
      threads ← gets _threads;
      let threadId :=
        match focusThread threads with
        | Some thread => Some (Thread.id thread)
        | None =>
            match asyncStopThread (adapter parsed) with
            | Some threadId => Some threadId
            | None =>
                match ThreadCollection.allThreads threads with
                | [] => None
                | thread :: _ => Some (Thread.id thread)
                end
            end
        end in
      match threadId with
      | None => mret tt
      | Some threadId =>
          session ← _ensureDebugSession false;
          send (session_pause threadId) (fun l => pause session l threadId);;
          mret tt
      end
  end.

(** The requests of the session for which [Effect] has no name are not
    logged.  [ask] sends one, [answered] awaits its answer. *)
Definition ask {A} (answer : list Effect -> Response A) : M (Response A) :=
  gets (fun d => answer (log d)).

Definition answered {A} (answer : list Effect -> Response A) : M A :=
  response ← ask answer;
  settle response.

(** The two characters that a template string writes as [\r\n]. *)
Definition CRLF : string :=
  String (Ascii.ascii_of_nat 13) (String (Ascii.ascii_of_nat 10) EmptyString).

Section Execution.

(** What this part of the engine calls and is not modelled here:
    [relaunch] (lines 131-172), which builds a new [VsDebugSession];
    [updateThreads] of [ThreadCollection] and [flush] of
    [SourceFileCache], which are not among the sources;
    [process.stderr.write]; and the answers of the session to the
    requests that [VsDebugSession] above does not list. *)
Variable relaunch : Async unit.
Variable updateThreads : list Thread.t -> ThreadCollection.t -> ThreadCollection.t.
Variable flush : M unit.
Variable stderr_write : string -> M unit.
Variable answer_setExceptionBreakpoints : VsDebugSession -> list Effect -> Response unit.
Variable answer_configurationDone : VsDebugSession -> list Effect -> Response unit.
Variable answer_threads :
  VsDebugSession -> list Effect -> Response (option (list (Z * string))).
Variable answer_disconnect : VsDebugSession -> list Effect -> Response unit.
Variable answer_continue : VsDebugSession -> Z -> list Effect -> Response unit.
Variable answer_stepIn : VsDebugSession -> Z -> list Effect -> Response unit.
Variable answer_next : VsDebugSession -> Z -> list Effect -> Response unit.
Variable answer_stepOut : VsDebugSession -> Z -> list Effect -> Response unit.

(** [_cacheThreads] (lines 1230-1242). *)
Definition _cacheThreads : M unit :=
  debugSession ← gets _debugSession;
  match debugSession with
  | None => throw AssertionError
  | Some session =>
      body ← answered (answer_threads session);
      let threads :=
        (fun t : Z * string => newThread t.1 t.2) <$> default [] body in
      onThreads (updateThreads threads)
  end.

(** [_configurationDone] (lines 190-215). *)
Definition _configurationDone : M unit :=
  session ← _ensureDebugSession true;
  modify (with_state RUNNING);;
  _resetAllBreakpoints;;
  (* this needs to be sent last for adapters that don't support
     configurationDone *)
  answered (answer_setExceptionBreakpoints session);;
  (if Boolean (DebugProtocol.supportsConfigurationDoneRequest
                 (capabilities session))
   then
     try_catch (answered (answer_configurationDone session))
       (fun err =>
          stderr_write ("Failed to debug target: " +:+ message err +:+ CRLF);;
          process_exit 0)
   else mret tt);;
  _cacheThreads;;
  attachMode ← gets _attachMode;
  if attachMode : bool
  then modify (with_configured true);; _pauseAfterAttach
  else emit console_stopInput.

(** [_onInitialized] (lines 174-188). *)
Definition _onInitialized : M unit :=
  adapter ← gets _adapter;
  match adapter with
  | None => throw AssertionError
  | Some _ =>
      (* In attach mode, we don't have a separate configuation mode -- we
         just let the attach finish and then force a stop *)
      attachMode ← gets _attachMode;
      if attachMode : bool
      then _configurationDone
      else modify (with_state CONFIGURING);; _startConfigurationInput
  end.

(** [run] (lines 241-258); [relaunch] is called without [await]. *)
Definition run : M unit :=
  attachMode ← gets _attachMode;
  if attachMode : bool
  then throw (Error "Cannot run an attached process; already attached.")
  else
    modify (with_stoppedAtBreakpoint None);;
    state ← gets _state;
    if bool_decide (state = STOPPED)
    then detached relaunch
    else if bool_decide (state ≠ CONFIGURING)
    then throw (Error "There is nothing to run.")
    else _configurationDone.

(** [continue] (lines 373-411).  The promise of [_configurationDone] is
    returned from inside the [try] without [await]: it is settled once the
    [try] statement has been left, and its rejection does not reach the
    [catch]. *)
Definition continue : M unit :=
  returned ←
    try_catch
      (emit console_stopInput;;
       session ← _ensureDebugSession true;
       modify (with_stoppedAtBreakpoint None);;
       state ← gets _state;
       (* if we are attaching and still in configuration, this is where
          we'll send configuration done. *)
       if bool_decide (state = CONFIGURING)
       then
         attachMode ← gets _attachMode;
         if attachMode : bool
         then mret _configurationDone
         else throw (Error "There is not yet a running process to continue.")
       else if bool_decide (state = STOPPED)
       then
         thread ← getActiveThread;
         answered (answer_continue session (Thread.id thread));;
         mret (mret tt)
       else if bool_decide (state = TERMINATED)
       then throw (Error "Cannot continue; process is terminated.")
       else throw (Error ("Continue called from unexpected state "
                          +:+ stateName state)))
      (fun error => emit console_startInput;; throw error);
  returned.

(** [stepIn], [stepOver] and [stepOut] (lines 340-371). *)
Definition stepIn : M unit :=
  try_catch
    (session ← _ensureDebugSession false;
     thread ← getActiveThread;
     answered (answer_stepIn session (Thread.id thread)))
    (fun error => emit console_startInput;; throw error).

Definition stepOver : M unit :=
  try_catch
    (session ← _ensureDebugSession false;
     thread ← getActiveThread;
     answered (answer_next session (Thread.id thread)))
    (fun error => emit console_startInput;; throw error).

Definition stepOut : M unit :=
  try_catch
    (session ← _ensureDebugSession false;
     thread ← getActiveThread;
     answered (answer_stepOut session (Thread.id thread)))
    (fun error => emit console_startInput;; throw error).

(** [closeSession] (lines 998-1018): up to the [await] of the disconnect
    request, and from there on.  [_activeThread], which is set to null
    here, is read by no method and is not among the fields above. *)
Definition closeSession : Async unit :=
  async (
    debugSession ← gets _debugSession;
    match debugSession with
    | None => mret (mret tt)
    | Some session =>
        (* Note that we will always get the adapter exited event while in
           the disconnect call *)
        modify (with_disconnecting true);;
        response ← ask (answer_disconnect session);
        mret (settle response;;
              modify (with_disconnecting false);;
              onThreads (fun _ => ThreadCollection.empty);;
              modify (with_debugSession None);;
              flush)
    end).

End Execution.

(** ** Debugger.js: attaching *)

Definition with_attached (b : bool) (d : Debugger) : Debugger :=
  mkDebugger (_state d) (_debugSession d) (_threads d) (_breakpoints d)
    (_adapter d) (_attachMode d) (_readyForEvaluations d)
    (_muteOutputCategories d) b (_configured d) (_stoppedAtBreakpoint d)
    (_disconnecting d) (log d).

(** [relaunch] in attach mode from line 161 on: what runs once
    [await session.attach(attachArgs)] has returned.  The promise of
    [_pauseAfterAttach] is returned without [await], so that the [catch]
    of [relaunch] does not see its rejection. *)
Definition relaunch_attached : M unit :=
  modify (with_attached true);;
  _pauseAfterAttach.

(** An adapter that answers every request for breakpoints, with one
    breakpoint for each one of the request. *)
Definition answersAll (session : VsDebugSession) : Prop :=
  (forall l path lines,
     exists out, setBreakpoints session l path lines = inr out
                 /\ length out = length lines)
  /\ (forall l names,
        exists out, setFunctionBreakpoints session l names = inr out
                    /\ length out = length names).

(** The engine as [_configurationDone] leaves it before it looks at
    [_attachMode], when the adapter has accepted its requests and has
    answered the request for the threads with [body]. *)
Definition configurationSent
    (updateThreads : list Thread.t -> ThreadCollection.t -> ThreadCollection.t)
    (session : VsDebugSession) (body : option (list (Z * string)))
    (d : Debugger) : Debugger :=
  with_threads
    (updateThreads ((fun t : Z * string => newThread t.1 t.2) <$> default [] body)
       (_threads d))
    (with_breakpoints (resetCollection session (log d) (_breakpoints d))
       (with_log (log d ++ resetRequests session (_breakpoints d))
          (with_state RUNNING d))).

(** A session that accepts every request and answers a request for
    breakpoints with one verified breakpoint for each one asked for. *)
Definition obligingSession : VsDebugSession :=
  mkSession allCapabilities
    (fun _ _ lines =>
       inr ((fun line =>
               DebugProtocol.mkBreakpoint None (Some true) None None (Some line))
            <$> lines))
    (fun _ names =>
       inr ((fun _ : string =>
               DebugProtocol.mkBreakpoint None (Some true) None None None)
            <$> names))
    (fun _ _ => inr tt).

(** ** Debugger.js: continued events *)

(** The body of a continued event. *)
Record ContinuedEvent := mkContinuedEvent {
  ce_threadId : option Z;
  ce_allThreadsContinued : option bool
}.

Section Continued.

(** [markAllThreadsRunning] and [markThreadRunning] of
    [ThreadCollection], which is not among the sources. *)
Variable markAllThreadsRunning : ThreadCollection.t -> ThreadCollection.t.
Variable markThreadRunning : Z -> ThreadCollection.t -> ThreadCollection.t.

(** [_onContinued] (lines 1025-1040). *)
Definition _onContinued (event : ContinuedEvent) : M unit :=
  (if bool_decide (ce_allThreadsContinued event = Some true)
   then onThreads markAllThreadsRunning
   else
     match ce_threadId event with
     | Some threadId => onThreads (markThreadRunning threadId)
     | None => mret tt
     end);;
  (* only turn the console off if all threads have started up again *)
  allThreadsRunning ← gets (fun d =>
    ThreadCollection.allThreadsRunning (_threads d));
  if allThreadsRunning : bool
  then emit console_stopInput
  else mret tt.

End Continued.

(** ** Debugger.js: the stack and the variables *)

(** [DebugProtocol.StackFrame] and [DebugProtocol.Scope], as far as they
    are read here, and [VariablesInScope] from [./DebuggerInterface];
    [variables] is [undefined] for a scope that was not asked for. *)
Record StackFrame := mkStackFrame { frame_id : Z }.

Record Scope := mkScope {
  scope_name : string;
  scope_expensive : bool;
  scope_variablesReference : Z
}.

Record VariablesInScope (V : Type) := mkVariablesInScope {
  expensive : bool;
  scopeName : string;
  variables : option (list V)
}.

Arguments mkVariablesInScope {V} _ _ _.
Arguments expensive {V} _.
Arguments scopeName {V} _.
Arguments variables {V} _.

(** [Promise.all] over promises with values, all of whose requests have
    been sent: as [Promise_all], with the list of the values. *)
Fixpoint Promise_all_values {A} (ps : list (M A)) : M (list A) :=
  match ps with
  | [] => mret []
  | p :: ps' => fun d =>
      match p d with
      | (Return a, d') =>
          match Promise_all_values ps' d' with
          | (Return l, d'') => (Return (a :: l), d'')
          | (Throw e, d'') => (Throw e, d'')
          | (Exit c, d'') => (Exit c, d'')
          end
      | (Throw e, d') =>
          match Promise_all_values ps' d' with
          | (Exit c, d'') => (Exit c, d'')
          | (_, d'') => (Throw e, d'')
          end
      | (Exit c, d') => (Exit c, d')
      end
  end.

(** Modelled from the spec: [setSelectedStackFrame] of the absent
    [Thread.js] sets the "currently selected stack-frame index". *)
Definition selectStackFrame (n : nat) (th : Thread.t) : Thread.t :=
  Thread.mk (Thread.id th) (Thread.name th) (Thread.isStopped th) n.

(** [_stackFrameId] (lines 609-611). *)
Definition _stackFrameId (stack : list StackFrame) (depth : nat) : option Z :=
  frame_id <$> stack !! depth.

Section Inspection.

(** [DebugProtocol.Variable], and the answers of the session to the
    requests [stackTrace], [scopes] and [variables]. *)
Context {V : Type}.
Variable answer_stackTrace :
  VsDebugSession -> Z -> Z -> list Effect -> Response (list StackFrame).
Variable answer_scopes :
  VsDebugSession -> Z -> list Effect -> Response (list Scope).
Variable answer_variables :
  VsDebugSession -> Z -> list Effect -> Response (list V).

(** [getStackTrace] (lines 296-316). *)
Definition getStackTrace (tid : Z) (levels : Z) : M (list StackFrame) :=
  thread ← gets (fun d => ThreadCollection.getThreadById tid (_threads d));
  match thread with
  | None => throw (Error ("There is no thread #" +:+ pretty tid +:+ "."))
  | Some thread =>
      if negb (Thread.isStopped thread)
      then throw (Error ("Thread #" +:+ pretty tid +:+ " is not stopped."))
      else
        session ← _ensureDebugSession false;
        answered (answer_stackTrace session tid levels)
  end.

(** [setSelectedStackFrame] (lines 318-329).  The [Thread] argument is a
    reference to an object of the collection: its id. *)
Definition setSelectedStackFrame (thread : Z) (frameIndex : nat) : M unit :=
  frames ← getStackTrace thread (Z.of_nat frameIndex + 1);
  match frames !! frameIndex with
  | None =>
      throw (Error ("There are only " +:+ pretty (length frames) +:+
                    " frames in the thread's stack trace."))
  | Some _ =>
      onThreads (ThreadCollection.update thread
                   (selectStackFrame frameIndex))
  end.

(** [getCurrentStackFrame] (lines 331-338). *)
Definition getCurrentStackFrame : M (option StackFrame) :=
  _ensureDebugSession false;;
  thread ← getActiveThread;
  let selectedFrame := Thread.selectedStackFrame thread in
  frames ← getStackTrace (Thread.id thread) (Z.of_nat selectedFrame + 1);
  mret (frames !! selectedFrame).

(** [getVariablesByScope] (lines 413-467).  The requests for the
    variables are all sent before the first answer is awaited;
    [new Map(results)] keeps, for a reference that occurs twice, the
    later entry. *)
Definition getVariablesByScope (selectedScope : option string)
    : M (list (VariablesInScope V)) :=
  session ← _ensureDebugSession false;
  activeThread ← getActiveThread;
  stack ← getStackTrace (Thread.id activeThread)
             (Z.of_nat (Thread.selectedStackFrame activeThread) + 1);
  let frameId := _stackFrameId stack (Thread.selectedStackFrame activeThread) in
  match frameId with
  | None => mret []
  | Some frameId =>
      scopes ← answered (answer_scopes session frameId);
      queries ←
        match selectedScope with
        | Some selectedScope =>
            let queries :=
              List.filter (fun scope =>
                             bool_decide (scope_name scope = selectedScope))
                scopes in
            if bool_decide (length queries = 0%nat)
            then throw (Error ("There is no scope named '" +:+ selectedScope
                               +:+ "' in the current context."))
            else mret queries
        | None =>
            mret (List.filter (fun scope => negb (scope_expensive scope)) scopes)
        end;
      executers ←
        mapM (M:=M)
          (fun scope =>
             response ←
               ask (answer_variables session (scope_variablesReference scope));
             mret (variables ← settle response;
                   mret (scope_variablesReference scope, variables)))
          queries;
      results ← Promise_all_values executers;
      let resultsByVarRef : gmap Z (list V) := list_to_map (reverse results) in
      mret ((fun scope =>
               mkVariablesInScope (scope_expensive scope) (scope_name scope)
                 (resultsByVarRef !! scope_variablesReference scope))
            <$> scopes)
  end.

End Inspection.

(** ** Stating what a method leaves alone *)

(** [m] takes every state to one that is [R]-related to it, does not end
    the process, and returns only values that satisfy [P]. *)
Definition ensures {A} (R : relation Debugger) (P : A -> Prop) (m : M A)
    : Prop :=
  forall d,
    R d (m d).2
    /\ (forall code, (m d).1 <> Exit code)
    /\ forall a, (m d).1 = Return a -> P a.

Definition keeps {A} (R : relation Debugger) (m : M A) : Prop :=
  ensures R (fun _ => True) m.

(** A relation between the state before and the state after that holds
    across every step by which the engine works on its breakpoints: a
    request for breakpoints sent, a breakpoint changed without a change of
    its index, a breakpoint added or deleted. *)
Record Frame (R : relation Debugger) : Prop := mkFrame {
  frame_refl : forall d, R d d;
  frame_trans : forall d1 d2 d3, R d1 d2 -> R d2 d3 -> R d1 d3;
  frame_setBreakpoints : forall d path lines,
    R d (with_log (log d ++ [session_setBreakpoints path lines]) d);
  frame_setFunctionBreakpoints : forall d names,
    R d (with_log (log d ++ [session_setFunctionBreakpoints names]) d);
  frame_update : forall d i g,
    keepsIndex g ->
    R d (with_breakpoints (BreakpointCollection.update i g (_breakpoints d)) d);
  frame_updateAll : forall d g,
    keepsIndex g ->
    R d (with_breakpoints (BreakpointCollection.updateAll g (_breakpoints d)) d);
  frame_addSourceBreakpoint : forall d path line once,
    R d (with_breakpoints
           (BreakpointCollection.addSourceBreakpoint path line once
              (_breakpoints d)).2 d);
  frame_addFunctionBreakpoint : forall d func once,
    R d (with_breakpoints
           (BreakpointCollection.addFunctionBreakpoint func once
              (_breakpoints d)).2 d);
  frame_deleteBreakpoint : forall d i,
    R d (with_breakpoints
           (BreakpointCollection.deleteBreakpoint i (_breakpoints d)) d);
  frame_deleteAllBreakpoints : forall d,
    R d (with_breakpoints
           (BreakpointCollection.deleteAllBreakpoints (_breakpoints d)) d)
}.

Definition isBreakpointRequest (e : Effect) : bool :=
  match e with
  | session_setBreakpoints _ _ | session_setFunctionBreakpoints _ => true
  | _ => false
  end.

(** From [d] to [d'] nothing has changed but the collection of
    breakpoints and the log, and the log has grown by requests for
    breakpoints only. *)
Definition onlyBreakpoints : relation Debugger := fun d d' =>
  exists c l,
    d' = with_breakpoints c (with_log (log d ++ l) d)
    /\ forallb isBreakpointRequest l = true.

(** The registry is well formed after if it was before. *)
Definition staysWellFormed : relation Debugger := fun d d' =>
  wellFormed (_breakpoints d) -> wellFormed (_breakpoints d').

(** [m] changes nothing but the breakpoints and the log, logs nothing but
    requests for breakpoints, and does not end the process. *)
Definition changesOnlyBreakpoints {A} (m : M A) : Prop :=
  forall d, onlyBreakpoints d (m d).2 /\ forall code, (m d).1 <> Exit code.

(** From [d] to [d'] the state of the session and the threads are the
    same, and the input of the REPL has not been started. *)
Definition noPrompt : relation Debugger := fun d d' =>
  _state d' = _state d
  /\ _threads d' = _threads d
  /\ exists l, log d' = log d ++ l /\ console_startInput ∉ l.

(** * Properties *)

(** Unfolding the control flow of a method applied to a state. *)
Ltac run :=
  repeat (unfold mbind, M_bind, mret, M_ret, gets, modify, emit, throw,
            process_exit, try_catch, onBreakpoint, onBreakpoints, onThreads,
            request, send, settle, await, async; simpl).

(** Stepping through a method one statement at a time. *)
Lemma bind_gets {A B} (f : Debugger -> A) (k : A -> M B) (d : Debugger) :
  (gets f ≫= k) d = k (f d) d.
Proof. reflexivity. Qed.

Lemma bind_modify {B} (f : Debugger -> Debugger) (k : unit -> M B)
    (d : Debugger) :
  (modify f ≫= k) d = k tt (f d).
Proof. reflexivity. Qed.

Lemma bind_emit {B} (e : Effect) (k : unit -> M B) (d : Debugger) :
  (emit e ≫= k) d = k tt (with_log (log d ++ [e]) d).
Proof. reflexivity. Qed.

Lemma bind_mret {A B} (a : A) (k : A -> M B) (d : Debugger) :
  (mret a ≫= k) d = k a d.
Proof. reflexivity. Qed.

Lemma bind_throw {A B} (e : Exn) (k : A -> M B) (d : Debugger) :
  (throw e ≫= k) d = (Throw e, d).
Proof. reflexivity. Qed.

Lemma bind_Return {A B} (m : M A) (k : A -> M B) (d d' : Debugger) (a : A) :
  m d = (Return a, d') -> (m ≫= k) d = k a d'.
Proof. intros H. unfold mbind, M_bind. by rewrite H. Qed.

Lemma bind_Throw {A B} (m : M A) (k : A -> M B) (d d' : Debugger) (e : Exn) :
  m d = (Throw e, d') -> (m ≫= k) d = (Throw e, d').
Proof. intros H. unfold mbind, M_bind. by rewrite H. Qed.

Lemma bind_assoc {A B C} (m : M A) (k : A -> M B) (h : B -> M C)
    (d : Debugger) :
  ((m ≫= k) ≫= h) d = (m ≫= (fun a => k a ≫= h)) d.
Proof.
  unfold mbind, M_bind. by destruct (m d) as [[a|e|c] d'].
Qed.

Lemma bind_onBreakpoints {B}
    (f : BreakpointCollection.t -> BreakpointCollection.t)
    (k : unit -> M B) (d : Debugger) :
  (onBreakpoints f ≫= k) d = k tt (with_breakpoints (f (_breakpoints d)) d).
Proof. reflexivity. Qed.

Lemma bind_onBreakpoint {B} (i : nat) (f : Breakpoint.t -> Breakpoint.t)
    (k : unit -> M B) (d : Debugger) :
  (onBreakpoint i f ≫= k) d
  = k tt (with_breakpoints (BreakpointCollection.update i f (_breakpoints d)) d).
Proof. reflexivity. Qed.

Ltac step :=
  first [ rewrite bind_gets | rewrite bind_modify | rewrite bind_emit
        | rewrite bind_mret | rewrite bind_throw | rewrite bind_onBreakpoints
        | rewrite bind_onBreakpoint ];
  cbv beta.

(** ** Breakpoint states *)

Lemma setState_index s b : Breakpoint.index (Breakpoint.setState s b) = Breakpoint.index b.
Proof. reflexivity. Qed.

Lemma toggleState_index b :
  Breakpoint.index (Breakpoint.toggleState b) = Breakpoint.index b.
Proof. reflexivity. Qed.

Lemma setState_state b : Breakpoint.setState (Breakpoint.state b) b = b.
Proof. by destruct b. Qed.

Lemma setState_setState s s' b :
  Breakpoint.setState s (Breakpoint.setState s' b) = Breakpoint.setState s b.
Proof. reflexivity. Qed.

Lemma setState_toggleState s b :
  Breakpoint.setState s (Breakpoint.toggleState b) = Breakpoint.setState s b.
Proof. reflexivity. Qed.

(** ** Output events *)

(** C6, as the spec states it, fails: an output event that carries no
    category is not in any mute set, and is dropped by the filter. *)
Lemma output_without_category_counterexample :
  let d := mkDebugger RUNNING None ThreadCollection.empty
             BreakpointCollection.empty None false true ∅ false false None
             false [] in
  let x := DebugProtocol.mkOutputEvent None (Some "hello") in
  (forall c, DebugProtocol.category x = Some c -> c ∉ _muteOutputCategories d)
  /\ console_output "hello" ∉ log (observeOutputEvents x d).2.
Proof.
  simpl. split; [discriminate|]. vm_compute. by intros ?%elem_of_nil.
Qed.

(** C6, amended: an output event is forwarded to the console exactly when
    it carries a category and that category is not muted; an event without
    a category, or with a muted one, leaves everything as it was. *)
Theorem observeOutputEvents_forwards (x : DebugProtocol.OutputEvent)
    (d : Debugger) :
  observeOutputEvents x d =
  (Return tt,
   match DebugProtocol.category x with
   | Some category =>
       if decide (category ∈ _muteOutputCategories d) then d
       else with_log
              (log d ++ [console_output (default EmptyString (DebugProtocol.output x))]) d
   | None => d
   end).
Proof.
  unfold observeOutputEvents, outputFilter, _onOutput. run.
  destruct (DebugProtocol.category x) as [c|]; [|done].
  rewrite bool_decide_decide.
  by destruct (decide (c ∈ _muteOutputCategories d)).
Qed.

(** ** Attach mode: the thread to pause *)

Lemma _ensureDebugSession_allowed (d : Debugger) (session : VsDebugSession) :
  _debugSession d = Some session ->
  _ensureDebugSession true d = (Return session, d).
Proof.
  intros H. unfold _ensureDebugSession. run. rewrite H. simpl.
  by rewrite andb_false_r.
Qed.

(** C7, as the spec states it, fails: with no thread to pause, the engine
    sends no pause request, but it stops the input that was active. *)
Lemma _pauseAfterAttach_no_thread_counterexample :
  let d := mkDebugger RUNNING (Some quietSession) ThreadCollection.empty
             BreakpointCollection.empty
             (Some (gdb None))
             true true ∅ true true None false [console_startInput] in
  inputActive (log d) = true
  /\ log (_pauseAfterAttach d).2 = [console_startInput; console_stopInput]
  /\ inputActive (log (_pauseAfterAttach d).2) <> true.
Proof. vm_compute. by repeat split. Qed.

(** C7, amended: once attached and configured, the engine pauses the
    adapter-declared [asyncStopThread] if present, else the first thread of
    the thread list; if there is neither, it sends no pause request and
    stops the input of the REPL. *)
Theorem _pauseAfterAttach_thread (d : Debugger) (session : VsDebugSession)
    (parsed : ParsedVSAdapter) :
  _configured d = true ->
  _attached d = true ->
  _debugSession d = Some session ->
  _adapter d = Some parsed ->
  match asyncStopThread (adapter parsed),
        ThreadCollection.allThreads (_threads d) with
  | Some threadId, _ =>
      log (_pauseAfterAttach d).2 = log d ++ [session_pause threadId]
  | None, thread :: _ =>
      log (_pauseAfterAttach d).2 = log d ++ [session_pause (Thread.id thread)]
  | None, [] =>
      _pauseAfterAttach d = (Return tt, with_log (log d ++ [console_stopInput]) d)
      /\ inputActive (log (_pauseAfterAttach d).2) = false
  end.
Proof.
  intros Hc Ha Hs Had.
  assert (_pauseAfterAttach d =
          match asyncStopThread (adapter parsed),
                ThreadCollection.allThreads (_threads d) with
          | Some threadId, _ =>
              request (session_pause threadId)
                (fun l => pause session l threadId) d
          | None, thread :: _ =>
              request (session_pause (Thread.id thread))
                (fun l => pause session l (Thread.id thread)) d
          | None, [] => (Return tt, with_log (log d ++ [console_stopInput]) d)
          end) as ->.
  { unfold _pauseAfterAttach. do 2 step. rewrite Hc, Ha. simpl.
    rewrite (bind_Return _ _ _ _ _ (_ensureDebugSession_allowed d session Hs)).
    step. rewrite Had.
    destruct (asyncStopThread (adapter parsed)); [by step|].
    rewrite bind_assoc. step.
    by destruct (ThreadCollection.allThreads (_threads d)). }
  destruct (asyncStopThread (adapter parsed)) as [threadId|].
  - unfold request. by destruct (pause session (log d) threadId).
  - destruct (ThreadCollection.allThreads (_threads d)) as [|thread threads].
    + split; [done|]. simpl. unfold inputActive. by rewrite foldl_app.
    + unfold request. by destruct (pause session (log d) (Thread.id thread)).
Qed.

Lemma _pauseAfterAttach_thread_witness :
  let d := mkDebugger RUNNING (Some quietSession)
             (ThreadCollection.mk [Thread.mk 5 "main" false 0] None)
             BreakpointCollection.empty
             (Some (gdb None))
             true true ∅ true true None false [] in
  log (_pauseAfterAttach d).2 = [session_pause 5].
Proof.
  intros d.
  exact (_pauseAfterAttach_thread d quietSession (gdb None)
           eq_refl eq_refl eq_refl eq_refl).
Defined.

(** ** Exit, termination, and the exit of the adapter *)

(** C2, as the spec states it, fails: a terminated event received while
    the session is stopped is ignored. *)
Lemma _onTerminatedDebugee_stopped_counterexample :
  let d := mkDebugger STOPPED None ThreadCollection.empty
             BreakpointCollection.empty
             (Some (gdb None))
             false true ∅ false false None false [] in
  _state (_onTerminatedDebugee idle d).2 <> TERMINATED
  /\ _onTerminatedDebugee idle d = (Return tt, d).
Proof. vm_compute. by split. Qed.

(** C2, amended: an exited event and an adapter-exited event received
    while the session is running or stopped, and a terminated event
    received while it is running, set the state to terminated; then, when
    not in attach mode, the engine starts the input of the REPL and calls
    [relaunch], and in attach mode it ends the process.  A terminated
    event received while the session is stopped changes nothing. *)
Theorem terminating_events (relaunch : Async unit) (d : Debugger)
    (event : DebugProtocol.ExitedEvent) :
  _adapter d <> None ->
  _state d = RUNNING \/ _state d = STOPPED ->
  _onExitedDebugee relaunch event d
  = terminated_then relaunch
      (with_log (log d ++ [console_outputLine
                             ("Target exited with status " +:+
                              pretty (DebugProtocol.exitCode event))])
         (with_state TERMINATED d))
  /\ _onAdapterExited relaunch d
     = terminated_then relaunch (with_state TERMINATED d)
  /\ _onTerminatedDebugee relaunch d
     = if decide (_state d = RUNNING)
       then terminated_then relaunch
              (with_log (log d ++ [console_outputLine "The target has exited."])
                 (with_state TERMINATED d))
       else (Return tt, d).
Proof.
  intros Had Hst.
  destruct (_adapter d) as [parsed|] eqn:Hp; [clear Had|done].
  repeat split.
  - unfold _onExitedDebugee, terminated_then. run. rewrite Hp. simpl.
    by destruct (_attachMode d).
  - unfold _onAdapterExited, terminated_then. run.
    replace (bool_decide (_state d = INITIALIZING)) with false
      by (symmetry; apply bool_decide_eq_false; destruct Hst as [-> | ->]; done).
    simpl. rewrite Hp. simpl. by destruct (_attachMode d).
  - unfold _onTerminatedDebugee, terminated_then. run.
    destruct (decide (_state d = RUNNING)) as [Hr|Hr].
    + rewrite bool_decide_eq_false_2 by (by intros ?). simpl.
      rewrite Hp. simpl. by destruct (_attachMode d).
    + by rewrite bool_decide_eq_true_2.
Qed.

Lemma terminating_events_witness :
  let d := mkDebugger RUNNING None ThreadCollection.empty
             BreakpointCollection.empty
             (Some (gdb None))
             false true ∅ false false None false [] in
  _state (_onExitedDebugee idle (DebugProtocol.mkExitedEvent 0) d).2
  = TERMINATED
  /\ log (_onExitedDebugee idle (DebugProtocol.mkExitedEvent 0) d).2
     = [console_outputLine "Target exited with status 0"; console_startInput].
Proof.
  intros d.
  destruct (terminating_events idle d (DebugProtocol.mkExitedEvent 0))
    as [-> _]; [done | by left |].
  by vm_compute.
Defined.

(** ** The collection under updates *)

Lemma reconcile_index local remote : keepsIndex (reconcile local remote).
Proof.
  intros b. unfold reconcile.
  destruct (DebugProtocol.id remote), (DebugProtocol.verified remote),
    (local_func local), (DebugProtocol.source remote) as [[? [?|] ?]|],
    (DebugProtocol.line remote); reflexivity.
Qed.

Lemma reconcile_state local remote : keepsState (reconcile local remote).
Proof.
  intros b. unfold reconcile.
  destruct (DebugProtocol.id remote), (DebugProtocol.verified remote),
    (local_func local), (DebugProtocol.source remote) as [[? [?|] ?]|],
    (DebugProtocol.line remote); reflexivity.
Qed.

Lemma reconcile_carries local remote b : carries remote b (reconcile local remote b).
Proof.
  unfold carries, reconcile.
  destruct (DebugProtocol.id remote), (DebugProtocol.verified remote),
    (local_func local), (DebugProtocol.source remote) as [[? [?|] ?]|],
    (DebugProtocol.line remote); done.
Qed.

Lemma find_hasIndex_update (i j : nat) g (l : list Breakpoint.t) :
  keepsIndex g ->
  List.find (BreakpointCollection.hasIndex j)
    (List.map (fun b => if BreakpointCollection.hasIndex i b then g b else b) l)
  = (fun b => if bool_decide (i = j) then g b else b)
    <$> List.find (BreakpointCollection.hasIndex j) l.
Proof.
  intros Hg. induction l as [|b l IH]; [done|]. simpl.
  assert (BreakpointCollection.hasIndex j
            (if BreakpointCollection.hasIndex i b then g b else b)
          = BreakpointCollection.hasIndex j b) as ->.
  { unfold BreakpointCollection.hasIndex.
    destruct (bool_decide (Breakpoint.index b = i)); [by rewrite Hg|done]. }
  destruct (BreakpointCollection.hasIndex j b) eqn:Hj; [|done].
  simpl. f_equal. unfold BreakpointCollection.hasIndex in *.
  apply bool_decide_eq_true in Hj. subst j.
  destruct (decide (Breakpoint.index b = i)) as [<-|Hne].
  - by rewrite !bool_decide_eq_true_2.
  - rewrite !bool_decide_eq_false_2; [done| |done]. by intros ->.
Qed.

Lemma getBreakpointByIndex_update (i j : nat) g (c : BreakpointCollection.t) :
  keepsIndex g ->
  BreakpointCollection.getBreakpointByIndex j (BreakpointCollection.update i g c)
  = (fun b => if bool_decide (i = j) then g b else b)
    <$> BreakpointCollection.getBreakpointByIndex j c.
Proof. apply find_hasIndex_update. Qed.

Lemma getBreakpointByIndex_index (i : nat) (c : BreakpointCollection.t) b :
  BreakpointCollection.getBreakpointByIndex i c = Some b ->
  Breakpoint.index b = i /\ b ∈ BreakpointCollection.breakpoints c.
Proof.
  intros [Hin Hi]%find_some. split; [by apply bool_decide_eq_true in Hi|].
  by apply list_elem_of_In.
Qed.

Lemma update_update (i : nat) f g (c : BreakpointCollection.t) :
  keepsIndex g ->
  BreakpointCollection.update i f (BreakpointCollection.update i g c)
  = BreakpointCollection.update i (f ∘ g) c.
Proof.
  intros Hg. unfold BreakpointCollection.update. simpl. f_equal.
  rewrite List.map_map. apply List.map_ext. intros b.
  unfold BreakpointCollection.hasIndex.
  destruct (bool_decide (Breakpoint.index b = i)) eqn:Hb; [|by rewrite Hb].
  by rewrite Hg, Hb.
Qed.

Lemma update_id (i : nat) (c : BreakpointCollection.t) :
  BreakpointCollection.update i (fun b => b) c = c.
Proof.
  unfold BreakpointCollection.update. destruct c as [l n o]. simpl. f_equal.
  rewrite <- (List.map_id l) at 2. apply List.map_ext. intros b.
  by destruct (BreakpointCollection.hasIndex i b).
Qed.

Lemma update_states (i : nat) g (c : BreakpointCollection.t) :
  keepsState g ->
  Breakpoint.state <$> BreakpointCollection.breakpoints
                         (BreakpointCollection.update i g c)
  = Breakpoint.state <$> BreakpointCollection.breakpoints c.
Proof.
  intros Hg. simpl. rewrite <- list_fmap_compose. apply list_fmap_ext.
  intros k b _. simpl. by destruct (BreakpointCollection.hasIndex i b).
Qed.

Lemma with_breakpoints_same (d : Debugger) :
  with_breakpoints (_breakpoints d) d = d.
Proof. by destruct d. Qed.

Lemma with_breakpoints_twice c c' (d : Debugger) :
  with_breakpoints c (with_breakpoints c' d) = with_breakpoints c d.
Proof. reflexivity. Qed.

(** One call of [_updateBreakpoint]. *)
Lemma _updateBreakpoint_run local remote (d : Debugger) :
  exists remote',
    _updateBreakpoint local (Some remote) d
    = (Return remote',
       with_breakpoints
         (BreakpointCollection.update (local_index local)
            (reconcile local remote) (_breakpoints d)) d)
    /\ DebugProtocol.id remote' = DebugProtocol.id remote
    /\ DebugProtocol.verified remote' = DebugProtocol.verified remote.
Proof.
  unfold _updateBreakpoint, reconcile.
  unfold BreakpointCollection.setBreakpointId,
    BreakpointCollection.setBreakpointVerified,
    BreakpointCollection.setPathAndFile.
  destruct remote as [[id|] [verified|] message [[name [path|] ref]|] [line|]],
    (local_func local) as [func|];
    run;
    rewrite ?update_update, ?with_breakpoints_twice by done;
    match goal with
    | |- context [if ?c then _ else _] =>
        destruct c; eexists; (split; [reflexivity|done])
    end.
Qed.

(** The loop over the pairs. *)
Lemma updatePaired_cons {A} (inj : A -> LocalBreakpoint) p ps (d : Debugger) :
  updatePaired inj (p :: ps) d
  = (remote ← _updateBreakpoint (inj p.1) p.2;
     rest ← updatePaired inj ps;
     mret ((p.1, remote) :: rest)) d.
Proof. unfold updatePaired. simpl. rewrite bind_assoc. reflexivity. Qed.

Lemma updatePaired_state {A} (inj : A -> LocalBreakpoint) ps (d : Debugger) :
  (updatePaired inj ps d).2
  = with_breakpoints (reconcileAll inj ps (_breakpoints d)) d.
Proof.
  revert d. induction ps as [|[local [remote|]] ps IH]; intros d.
  - simpl. by rewrite with_breakpoints_same.
  - rewrite updatePaired_cons. simpl.
    destruct (_updateBreakpoint_run (inj local) remote d) as (remote' & Hrun & _).
    rewrite (bind_Return _ _ _ _ _ Hrun).
    unfold mbind at 1, M_bind at 1.
    destruct (updatePaired inj ps _) as [[out|e|code] d'] eqn:Hps;
      apply (f_equal snd) in Hps; rewrite IH in Hps; simpl in Hps; by subst d'.
  - rewrite updatePaired_cons. simpl. by rewrite with_breakpoints_same.
Qed.

Lemma updatePaired_no_exit {A} (inj : A -> LocalBreakpoint) ps (d : Debugger)
    (code : Z) :
  (updatePaired inj ps d).1 <> Exit code.
Proof.
  revert d. induction ps as [|[local [remote|]] ps IH]; intros d; [done| |done].
  rewrite updatePaired_cons. simpl.
  destruct (_updateBreakpoint_run (inj local) remote d) as (remote' & Hrun & _).
  rewrite (bind_Return _ _ _ _ _ Hrun).
  unfold mbind at 1, M_bind at 1.
  destruct (updatePaired inj ps _) as [[out|e|code'] d'] eqn:Hps; [done|done|].
  simpl. intros [= ->]. apply (f_equal fst) in Hps. by apply IH in Hps.
Qed.

Lemma updatePaired_returns {A} (inj : A -> LocalBreakpoint) ps (d : Debugger) :
  Forall (fun p => is_Some p.2) ps ->
  exists out, (updatePaired inj ps d).1 = Return out.
Proof.
  intros Hps. revert d.
  induction Hps as [|[local remote] ps [r Hr] _ IH]; intros d; [by eexists|].
  simpl in Hr. subst remote. rewrite updatePaired_cons. simpl.
  destruct (_updateBreakpoint_run (inj local) r d) as (remote' & Hrun & _).
  rewrite (bind_Return _ _ _ _ _ Hrun).
  unfold mbind at 1, M_bind at 1.
  destruct (IH (with_breakpoints
                  (BreakpointCollection.update (local_index (inj local))
                     (reconcile (inj local) r) (_breakpoints d)) d))
    as [out Hout].
  destruct (updatePaired inj ps _) as [[out'|e|code] d'];
    simpl in Hout; [by eexists|done|done].
Qed.

(** The pairs of a response as long as the request. *)
Lemma paired_lookup {A} (locals : list A) remotes (i : nat) :
  paired locals remotes !! i = (fun local => (local, remotes !! i)) <$> locals !! i.
Proof. unfold paired. by rewrite list_lookup_imap. Qed.

Lemma paired_fst {A} (locals : list A) remotes :
  (paired locals remotes).*1 = locals.
Proof.
  apply list_eq. intros i. rewrite list_lookup_fmap, paired_lookup.
  by destruct (locals !! i).
Qed.

Lemma paired_all_some {A} (locals : list A) remotes :
  length remotes = length locals ->
  Forall (fun p => is_Some p.2) (paired locals remotes).
Proof.
  intros Hlen. apply Forall_lookup. intros i [local remote].
  rewrite paired_lookup. intros Hi.
  destruct (locals !! i) as [local'|] eqn:Hl; [|done].
  simpl in Hi. injection Hi as <- <-. simpl.
  apply lookup_lt_is_Some. rewrite Hlen. by apply lookup_lt_Some in Hl.
Qed.

(** Lookups by index through the loop. *)
Lemma reconcileAll_other {A} (inj : A -> LocalBreakpoint) ps c (j : nat) :
  j ∉ (local_index ∘ inj) <$> ps.*1 ->
  BreakpointCollection.getBreakpointByIndex j (reconcileAll inj ps c)
  = BreakpointCollection.getBreakpointByIndex j c.
Proof.
  revert c. induction ps as [|[local [remote|]] ps IH]; intros c Hj; [done| |done].
  simpl in *. apply not_elem_of_cons in Hj as [Hne Hj].
  rewrite IH by done.
  rewrite getBreakpointByIndex_update by apply reconcile_index.
  rewrite bool_decide_eq_false_2 by done.
  by destruct (BreakpointCollection.getBreakpointByIndex j c).
Qed.

Lemma reconcileAll_at {A} (inj : A -> LocalBreakpoint) ps c (i : nat)
    local remote :
  NoDup ((local_index ∘ inj) <$> ps.*1) ->
  Forall (fun p => is_Some p.2) ps ->
  ps !! i = Some (local, Some remote) ->
  BreakpointCollection.getBreakpointByIndex (local_index (inj local))
    (reconcileAll inj ps c)
  = reconcile (inj local) remote
    <$> BreakpointCollection.getBreakpointByIndex (local_index (inj local)) c.
Proof.
  revert c i. induction ps as [|[local' remote'] ps IH]; intros c i Hnd Hall Hi;
    [done|].
  apply Forall_cons in Hall as [[r Hr] Hall]. simpl in Hr. subst remote'.
  simpl in Hnd. apply NoDup_cons in Hnd as [Hnotin Hnd].
  destruct i as [|i]; simpl in Hi.
  - injection Hi as -> ->. simpl.
    rewrite reconcileAll_other by done.
    rewrite getBreakpointByIndex_update by apply reconcile_index.
    by rewrite bool_decide_eq_true_2.
  - simpl. rewrite (IH _ i) by done.
    rewrite getBreakpointByIndex_update by apply reconcile_index.
    rewrite bool_decide_eq_false_2.
    + by destruct (BreakpointCollection.getBreakpointByIndex _ c).
    + intros Heq. apply Hnotin. simpl. rewrite Heq.
      apply (list_elem_of_fmap_2 (local_index ∘ inj) _ local).
      apply (list_elem_of_fmap_2 fst _ (local, Some remote)).
      by eapply list_elem_of_lookup_2.
Qed.

Lemma reconcileAll_states {A} (inj : A -> LocalBreakpoint) ps c :
  Breakpoint.state <$> BreakpointCollection.breakpoints (reconcileAll inj ps c)
  = Breakpoint.state <$> BreakpointCollection.breakpoints c.
Proof.
  revert c. induction ps as [|[local [remote|]] ps IH]; intros c; [done| |done].
  simpl. rewrite IH. apply update_states, reconcile_state.
Qed.

(** ** The enabled breakpoints of a collection *)

Lemma asSource_Some b s :
  BreakpointCollection.asSource b = Some s ->
  BreakpointCollection.s_index s = Breakpoint.index b
  /\ Breakpoint.kind b
     = Breakpoint.Source (BreakpointCollection.s_path s)
         (BreakpointCollection.s_line s)
  /\ Breakpoint.isEnabled b = true.
Proof.
  unfold BreakpointCollection.asSource.
  destruct (Breakpoint.kind b) as [p l|]; [|done].
  destruct (Breakpoint.isEnabled b); [|done].
  by intros [= <-].
Qed.

Lemma asFunction_Some b f :
  BreakpointCollection.asFunction b = Some f ->
  BreakpointCollection.f_index f = Breakpoint.index b
  /\ Breakpoint.func b = Some (BreakpointCollection.f_func f)
  /\ Breakpoint.isEnabled b = true.
Proof.
  unfold BreakpointCollection.asFunction, Breakpoint.func.
  destruct (Breakpoint.kind b) as [|name r]; [done|].
  destruct (Breakpoint.isEnabled b); [|done].
  by intros [= <-].
Qed.

Lemma NoDup_omap_image {A B C} (f : A -> option B) (g : B -> C) (h : A -> C)
    (l : list A) :
  (forall a b, f a = Some b -> g b = h a) ->
  NoDup (h <$> l) -> NoDup (g <$> omap f l).
Proof.
  intros Hfg. induction l as [|a l IH]; [done|].
  simpl. intros [Hnotin Hnd]%NoDup_cons.
  destruct (f a) as [b|] eqn:Hfa; [|by apply IH].
  simpl. apply NoDup_cons. split; [|by apply IH].
  rewrite (Hfg a b Hfa). intros Hin. apply Hnotin.
  apply list_elem_of_fmap in Hin as (b' & -> & Hb').
  apply list_elem_of_omap in Hb' as (a' & Ha' & Hfa').
  rewrite (Hfg a' b' Hfa'). by apply list_elem_of_fmap_2.
Qed.

Lemma NoDup_filter_image {A B} (g : A -> B) (P : A -> bool) (l : list A) :
  NoDup (g <$> l) -> NoDup (g <$> List.filter P l).
Proof.
  induction l as [|a l IH]; [done|].
  simpl. intros [Hnotin Hnd]%NoDup_cons.
  destruct (P a); [|by apply IH].
  simpl. apply NoDup_cons. split; [|by apply IH].
  intros Hin. apply Hnotin.
  apply list_elem_of_fmap in Hin as (a' & -> & Ha').
  apply list_elem_of_fmap_2. apply list_elem_of_In.
  apply list_elem_of_In in Ha'. by apply List.filter_In in Ha' as [? _].
Qed.

Lemma enabledSources_NoDup c :
  uniqueIndices c ->
  NoDup (BreakpointCollection.s_index <$> BreakpointCollection.enabledSources c).
Proof.
  apply NoDup_omap_image. intros b s Hs. by apply asSource_Some in Hs as [? _].
Qed.

Lemma getAllEnabledBreakpointsForSource_NoDup path c :
  uniqueIndices c ->
  NoDup (BreakpointCollection.s_index
         <$> BreakpointCollection.getAllEnabledBreakpointsForSource path c).
Proof. intros H. by apply NoDup_filter_image, enabledSources_NoDup. Qed.

Lemma getAllEnabledFunctionBreakpoints_NoDup c :
  uniqueIndices c ->
  NoDup (BreakpointCollection.f_index
         <$> BreakpointCollection.getAllEnabledFunctionBreakpoints c).
Proof.
  apply NoDup_omap_image. intros b f Hf. by apply asFunction_Some in Hf as [? _].
Qed.

Lemma getAllEnabledBreakpointsForSource_elem path c s :
  s ∈ BreakpointCollection.getAllEnabledBreakpointsForSource path c ->
  exists b, b ∈ BreakpointCollection.breakpoints c
            /\ Breakpoint.index b = BreakpointCollection.s_index s
            /\ Breakpoint.kind b
               = Breakpoint.Source path (BreakpointCollection.s_line s)
            /\ Breakpoint.isEnabled b = true.
Proof.
  intros Hs. apply list_elem_of_In in Hs.
  apply List.filter_In in Hs as [Hs Hp].
  apply bool_decide_eq_true in Hp. subst path.
  apply list_elem_of_In, list_elem_of_omap in Hs as (b & Hb & Hbs).
  apply asSource_Some in Hbs as (? & ? & ?). by exists b.
Qed.

Lemma getAllEnabledFunctionBreakpoints_elem c f :
  f ∈ BreakpointCollection.getAllEnabledFunctionBreakpoints c ->
  exists b, b ∈ BreakpointCollection.breakpoints c
            /\ Breakpoint.index b = BreakpointCollection.f_index f
            /\ Breakpoint.func b = Some (BreakpointCollection.f_func f)
            /\ Breakpoint.isEnabled b = true.
Proof.
  intros (b & Hb & Hbf)%list_elem_of_omap.
  apply asFunction_Some in Hbf as (? & ? & ?). by exists b.
Qed.

Lemma getBreakpointByIndex_elem c b :
  uniqueIndices c ->
  b ∈ BreakpointCollection.breakpoints c ->
  BreakpointCollection.getBreakpointByIndex (Breakpoint.index b) c = Some b.
Proof.
  unfold uniqueIndices, BreakpointCollection.getBreakpointByIndex.
  induction (BreakpointCollection.breakpoints c) as [|b' l IH]; simpl.
  - by intros _ ?%elem_of_nil.
  - intros [Hnotin Hnd]%NoDup_cons [->|Hin]%elem_of_cons.
    + unfold BreakpointCollection.hasIndex. by rewrite bool_decide_eq_true_2.
    + unfold BreakpointCollection.hasIndex at 1.
      rewrite bool_decide_eq_false_2; [by apply IH|].
      intros Heq. apply Hnotin. rewrite Heq. by apply list_elem_of_fmap_2.
Qed.

(** ** One request and its reconciliation *)

Lemma bind_request_inl {A B} (e : Effect) (answer : list Effect -> Response A)
    (k : A -> M B) (d : Debugger) (err : Exn) :
  answer (log d) = inl err ->
  (request e answer ≫= k) d = (Throw err, with_log (log d ++ [e]) d).
Proof. intros H. unfold mbind, M_bind, request. by rewrite H. Qed.

Lemma bind_request_inr {A B} (e : Effect) (answer : list Effect -> Response A)
    (k : A -> M B) (d : Debugger) (a : A) :
  answer (log d) = inr a ->
  (request e answer ≫= k) d = k a (with_log (log d ++ [e]) d).
Proof. intros H. unfold mbind, M_bind, request. by rewrite H. Qed.

Lemma bind_snd_mret {A B} (m : M A) (f : A -> B) (d : Debugger) :
  ((m ≫= fun a => mret (f a)) d).2 = (m d).2.
Proof. unfold mbind, M_bind. by destruct (m d) as [[a|e|code] d']. Qed.

Lemma bind_fst_mret {A B} (m : M A) (f : A -> B) (d : Debugger) (a : A) :
  (m d).1 = Return a -> ((m ≫= fun a => mret (f a)) d).1 = Return (f a).
Proof.
  unfold mbind, M_bind. destruct (m d) as [[a'|e|code] d']; simpl; [|done..].
  by intros [= ->].
Qed.

Section OneRequest.

Context (session : VsDebugSession) (d : Debugger).

Let c := _breakpoints d.

Lemma _setSourceBreakpointsForPath_rejected path indexOfInterest err :
  let locals := BreakpointCollection.getAllEnabledBreakpointsForSource path c in
  let lines := BreakpointCollection.s_line <$> locals in
  setBreakpoints session (log d) path lines = inl err ->
  _setSourceBreakpointsForPath session path indexOfInterest d
  = (Throw err, with_log (log d ++ [session_setBreakpoints path lines]) d).
Proof.
  intros locals lines H. unfold _setSourceBreakpointsForPath. step.
  by rewrite (bind_request_inl _ _ _ _ err).
Qed.

Lemma _setSourceBreakpointsForPath_answered path indexOfInterest remotes :
  let locals := BreakpointCollection.getAllEnabledBreakpointsForSource path c in
  let lines := BreakpointCollection.s_line <$> locals in
  setBreakpoints session (log d) path lines = inr remotes ->
  (_setSourceBreakpointsForPath session path indexOfInterest d).2
  = with_breakpoints (reconcileAll inl (paired locals remotes) c)
      (with_log (log d ++ [session_setBreakpoints path lines]) d)
  /\ (length remotes = length locals ->
      exists found,
        (_setSourceBreakpointsForPath session path indexOfInterest d).1
        = Return found).
Proof.
  intros locals lines H. unfold _setSourceBreakpointsForPath. step.
  rewrite (bind_request_inr _ _ _ _ remotes) by done. split.
  - by rewrite bind_snd_mret, updatePaired_state.
  - intros Hlen.
    destruct (updatePaired_returns inl (paired locals remotes)
                (with_log (log d ++ [session_setBreakpoints path lines]) d))
      as [out Hout]; [by apply paired_all_some|].
    eexists. by apply bind_fst_mret.
Qed.

Lemma _setFunctionBreakpoints_answered indexOfInterest remotes :
  let locals := BreakpointCollection.getAllEnabledFunctionBreakpoints c in
  let names := BreakpointCollection.f_func <$> locals in
  setFunctionBreakpoints session (log d) names = inr remotes ->
  (_setFunctionBreakpoints session indexOfInterest d).2
  = with_breakpoints (reconcileAll inr (paired locals remotes) c)
      (with_log (log d ++ [session_setFunctionBreakpoints names]) d)
  /\ (length remotes = length locals ->
      exists found,
        (_setFunctionBreakpoints session indexOfInterest d).1 = Return found).
Proof.
  intros locals names H. unfold _setFunctionBreakpoints. step.
  rewrite (bind_request_inr _ _ _ _ remotes) by done. split.
  - by rewrite bind_snd_mret, updatePaired_state.
  - intros Hlen.
    destruct (updatePaired_returns inr (paired locals remotes)
                (with_log (log d ++ [session_setFunctionBreakpoints names]) d))
      as [out Hout]; [by apply paired_all_some|].
    eexists. by apply bind_fst_mret.
Qed.

(** Whatever the adapter answers, the request is the only thing logged. *)
Lemma _setSourceBreakpointsForPath_log path indexOfInterest :
  let locals := BreakpointCollection.getAllEnabledBreakpointsForSource path c in
  log (_setSourceBreakpointsForPath session path indexOfInterest d).2
  = log d ++ [session_setBreakpoints path (BreakpointCollection.s_line <$> locals)].
Proof.
  intros locals.
  destruct (setBreakpoints session (log d) path
              (BreakpointCollection.s_line <$> locals)) as [err|remotes] eqn:H.
  - by rewrite (_setSourceBreakpointsForPath_rejected _ _ err).
  - by destruct (_setSourceBreakpointsForPath_answered path indexOfInterest
                   remotes H) as [-> _].
Qed.

Lemma _setFunctionBreakpoints_log indexOfInterest :
  let locals := BreakpointCollection.getAllEnabledFunctionBreakpoints c in
  log (_setFunctionBreakpoints session indexOfInterest d).2
  = log d ++ [session_setFunctionBreakpoints
                (BreakpointCollection.f_func <$> locals)].
Proof.
  intros locals.
  destruct (setFunctionBreakpoints session (log d)
              (BreakpointCollection.f_func <$> locals)) as [err|remotes] eqn:H.
  - unfold _setFunctionBreakpoints. step.
    by rewrite (bind_request_inl _ _ _ _ err).
  - by destruct (_setFunctionBreakpoints_answered indexOfInterest remotes H)
      as [-> _].
Qed.

End OneRequest.

(** The breakpoints of a reconciled list, one by one. *)
Lemma reconcileAll_reconciledAt {A} (inj : A -> LocalBreakpoint)
    (locals : list A) remotes c (i : nat) local remote :
  NoDup ((local_index ∘ inj) <$> locals) ->
  length remotes = length locals ->
  locals !! i = Some local ->
  remotes !! i = Some remote ->
  is_Some (BreakpointCollection.getBreakpointByIndex
             (local_index (inj local)) c) ->
  reconciledAt (local_index (inj local)) remote c
    (reconcileAll inj (paired locals remotes) c).
Proof.
  intros Hnd Hlen Hl Hr [before Hb].
  exists before, (reconcile (inj local) remote before).
  split; [done|]. split; [|apply reconcile_carries].
  rewrite (reconcileAll_at inj _ c i local remote).
  - by rewrite Hb.
  - by rewrite paired_fst.
  - by apply paired_all_some.
  - by rewrite paired_lookup, Hl, <- Hr.
Qed.

(** ** Resetting all breakpoints *)

Lemma resume_state {A} (inj : A -> LocalBreakpoint) locals response
    (d : Debugger) :
  (resume inj locals response d).2
  = with_breakpoints (resumed inj locals response (_breakpoints d)) d.
Proof.
  unfold resume, resumed. destruct response as [err|out]; simpl.
  - by rewrite with_breakpoints_same.
  - step. rewrite (bind_snd_mret _ (fun _ => tt)). apply updatePaired_state.
Qed.

Lemma resume_no_exit {A} (inj : A -> LocalBreakpoint) locals response
    (d : Debugger) (code : Z) :
  (resume inj locals response d).1 <> Exit code.
Proof.
  unfold resume. destruct response as [err|out]; simpl; [done|]. step.
  pose proof (updatePaired_no_exit inj (paired locals out) d code) as H.
  unfold mbind, M_bind.
  destruct (updatePaired inj (paired locals out) d) as [[o|e|code'] d'];
    [done|done|]. simpl in *. congruence.
Qed.

Lemma resume_returns {A} (inj : A -> LocalBreakpoint) locals out
    (d : Debugger) :
  length out = length locals ->
  (resume inj locals (inr out) d).1 = Return tt.
Proof.
  intros Hlen. unfold resume. simpl. step.
  destruct (updatePaired_returns inj (paired locals out) d) as [o Ho];
    [by apply paired_all_some|].
  by apply (bind_fst_mret _ (fun _ => tt) _ o).
Qed.

Lemma resumed_other {A} (inj : A -> LocalBreakpoint) locals response c
    (j : nat) :
  j ∉ (local_index ∘ inj) <$> locals ->
  BreakpointCollection.getBreakpointByIndex j (resumed inj locals response c)
  = BreakpointCollection.getBreakpointByIndex j c.
Proof.
  intros Hj. destruct response as [err|out]; [done|]. simpl.
  apply reconcileAll_other. by rewrite paired_fst.
Qed.

Lemma resumed_states {A} (inj : A -> LocalBreakpoint) locals response c :
  Breakpoint.state <$> BreakpointCollection.breakpoints
                         (resumed inj locals response c)
  = Breakpoint.state <$> BreakpointCollection.breakpoints c.
Proof. destruct response; [done|]. apply reconcileAll_states. Qed.

Lemma resume_transforms {A} (inj : A -> LocalBreakpoint) locals response :
  transforms (resume inj locals response) (resumed inj locals response).
Proof. intros d. split; [apply resume_state|apply resume_no_exit]. Qed.

Lemma Promise_all_transforms ps fs :
  Forall2 transforms ps fs ->
  transforms (Promise_all ps) (fun c => foldl (fun c f => f c) c fs).
Proof.
  induction 1 as [|p f ps fs Hp _ IH]; intros d.
  - simpl. by rewrite with_breakpoints_same.
  - simpl. destruct (Hp d) as [Hd Hne].
    destruct (p d) as [[[]|e|code] d'] eqn:Hpd; simpl in Hd; subst d'.
    + destruct (IH (with_breakpoints (f (_breakpoints d)) d)) as [-> Hne'].
      done.
    + destruct (IH (with_breakpoints (f (_breakpoints d)) d)) as [Hd' Hne'].
      destruct (Promise_all ps _) as [[[]|e'|code] d'']; simpl in *.
      * by subst d''.
      * by subst d''.
      * by destruct (Hne' code).
    + by destruct (Hne code).
Qed.

Lemma _ensureDebugSession_eq (allowBeforeLaunch : bool) (d : Debugger) :
  _ensureDebugSession allowBeforeLaunch d
  = (match _debugSession d with
     | None => Throw (Error "There is no active debugging session.")
     | Some session =>
         if (bool_decide (_state d = INITIALIZING)
             || bool_decide (_state d = CONFIGURING))
            && negb allowBeforeLaunch
         then Throw (Error
                "The program is not yet running (use 'run' to start it).")
         else Return session
     end, d).
Proof.
  unfold _ensureDebugSession. step.
  destruct (_debugSession d); [|done]. step.
  by destruct (_ && _).
Qed.

Lemma _ensureDebugSession_with_log (allowBeforeLaunch : bool) (d : Debugger)
    (session : VsDebugSession) (l : list Effect) :
  _ensureDebugSession allowBeforeLaunch d = (Return session, d) ->
  _ensureDebugSession allowBeforeLaunch (with_log l d)
  = (Return session, with_log l d).
Proof.
  rewrite !_ensureDebugSession_eq. simpl. by intros [= ->].
Qed.

Lemma _ensureDebugSession_with_breakpoints (allowBeforeLaunch : bool)
    (d : Debugger) (session : VsDebugSession) c :
  _ensureDebugSession allowBeforeLaunch d = (Return session, d) ->
  _ensureDebugSession allowBeforeLaunch (with_breakpoints c d)
  = (Return session, with_breakpoints c d).
Proof.
  rewrite !_ensureDebugSession_eq. simpl. by intros [= ->].
Qed.

Lemma _ensureDebugSession_state (allowBeforeLaunch : bool) (d : Debugger) :
  (_ensureDebugSession allowBeforeLaunch d).2 = d.
Proof.
  unfold _ensureDebugSession. step.
  destruct (_debugSession d); [|done]. step.
  by destruct (_ && _).
Qed.

Lemma _ensureDebugSession_no_exit (allowBeforeLaunch : bool) (d : Debugger)
    (code : Z) :
  (_ensureDebugSession allowBeforeLaunch d).1 <> Exit code.
Proof.
  unfold _ensureDebugSession. step.
  destruct (_debugSession d); [|done]. step.
  by destruct (_ && _).
Qed.

Lemma _ensureDebugSession_Return (allowBeforeLaunch : bool) (d d' : Debugger)
    (session : VsDebugSession) :
  _ensureDebugSession allowBeforeLaunch d = (Return session, d') ->
  d' = d /\ _debugSession d = Some session.
Proof.
  intros H. pose proof (_ensureDebugSession_state allowBeforeLaunch d) as Hd.
  rewrite H in Hd. simpl in Hd. split; [done|]. subst d'.
  revert H. unfold _ensureDebugSession. step.
  destruct (_debugSession d); [|done]. step.
  destruct (_ && _); [done|]. by intros [= ->].
Qed.

Lemma resetSourceBreakpoints_run session entry (d : Debugger) :
  let lines := BreakpointCollection.s_line <$> entry.2 in
  resetSourceBreakpoints session entry d
  = (Return (resume inl entry.2 (setBreakpoints session (log d) entry.1 lines)),
     with_log (log d ++ [session_setBreakpoints entry.1 lines]) d).
Proof. by destruct entry. Qed.

Lemma mapM_cons {A B} (f : A -> M B) (x : A) (l : list A) (d : Debugger) :
  mapM (M:=M) f (x :: l) d
  = (y ← f x; k ← mapM (M:=M) f l; mret (y :: k)) d.
Proof. reflexivity. Qed.

Lemma mapM_resetSourceBreakpoints session groups (d : Debugger) :
  mapM (M:=M) (resetSourceBreakpoints session) groups d
  = (Return ((fun a => resume inl a.1 a.2)
             <$> sourceAnswers session (log d) groups),
     with_log
       (log d
        ++ ((fun entry : string * list SourceBreakpoint =>
               session_setBreakpoints entry.1
                 (BreakpointCollection.s_line <$> entry.2)) <$> groups)) d).
Proof.
  revert d. induction groups as [|[path bs] groups IH]; intros d.
  - simpl. rewrite app_nil_r. by destruct d.
  - rewrite mapM_cons.
    rewrite (bind_Return _ _ _ _ _ (resetSourceBreakpoints_run _ _ _)).
    rewrite (bind_Return _ _ _ _ _ (IH _)). simpl.
    unfold mret, M_ret. f_equal. by rewrite <- app_assoc.
Qed.

Lemma _resetAllFunctionBreakpoints_run session (d : Debugger) :
  _ensureDebugSession false d = (Return session, d) ->
  _resetAllFunctionBreakpoints d
  = match functionRequest session (_breakpoints d) with
    | Some funcBreakpoints =>
        let names := BreakpointCollection.f_func <$> funcBreakpoints in
        (Return (resume inr funcBreakpoints
                   (setFunctionBreakpoints session (log d) names)),
         with_log (log d ++ [session_setFunctionBreakpoints names]) d)
    | None => (Return (mret tt), d)
    end.
Proof.
  intros Hs. unfold _resetAllFunctionBreakpoints, async, try_catch.
  rewrite (bind_Return _ _ _ _ _ Hs). step.
  unfold functionRequest. by destruct (_ || _).
Qed.

Lemma mret_transforms : transforms (mret tt) (fun c => c).
Proof. intros d. split; [by rewrite with_breakpoints_same|done]. Qed.

(** What a reset leaves: the log extended by the requests, the collection
    brought up to date with the answers, and nothing else changed. *)
Lemma _resetAllBreakpoints_state session (d : Debugger) :
  _ensureDebugSession false d = (Return session, d) ->
  (_resetAllBreakpoints d).2
  = with_breakpoints (resetCollection session (log d) (_breakpoints d))
      (with_log (log d ++ resetRequests session (_breakpoints d)) d)
  /\ forall code, (_resetAllBreakpoints d).1 <> Exit code.
Proof.
  intros Hs. unfold _resetAllBreakpoints.
  rewrite (bind_Return _ _ _ _ _ Hs). step.
  rewrite (bind_Return _ _ _ _ _ (mapM_resetSourceBreakpoints _ _ _)).
  set (groups := BreakpointCollection.getAllEnabledBreakpointsByPath (_breakpoints d)).
  set (d1 := with_log _ d).
  assert (_ensureDebugSession false d1 = (Return session, d1)) as Hs1
    by by apply _ensureDebugSession_with_log.
  pose proof (_resetAllFunctionBreakpoints_run _ _ Hs1) as Hf.
  change (_breakpoints d1) with (_breakpoints d) in Hf.
  unfold resetCollection, resetRequests, functionRequests, sourcesResumed.
  fold groups.
  destruct (functionRequest session (_breakpoints d)) as [funcBreakpoints|];
    rewrite (bind_Return _ _ _ _ _ Hf).
  - edestruct (Promise_all_transforms
                 (((fun a => resume inl a.1 a.2)
                   <$> sourceAnswers session (log d) groups)
                  ++ [resume inr funcBreakpoints
                        (setFunctionBreakpoints session (log d1)
                           (BreakpointCollection.f_func <$> funcBreakpoints))])
                 (((fun a => resumed inl a.1 a.2)
                   <$> sourceAnswers session (log d) groups)
                  ++ [resumed inr funcBreakpoints
                        (setFunctionBreakpoints session (log d1)
                           (BreakpointCollection.f_func <$> funcBreakpoints))]))
      as [Hst Hne].
    { apply Forall2_app; [|by repeat constructor; apply resume_transforms].
      apply Forall2_fmap, Forall_Forall2_diag, Forall_forall.
      intros a _. apply resume_transforms. }
    split; [|apply Hne]. rewrite Hst. simpl.
    rewrite foldl_app, foldl_fmap. simpl.
    unfold d1, sourceRequests. fold groups. simpl. by rewrite <- app_assoc.
  - edestruct (Promise_all_transforms
                 (((fun a => resume inl a.1 a.2)
                   <$> sourceAnswers session (log d) groups) ++ [mret tt])
                 (((fun a => resumed inl a.1 a.2)
                   <$> sourceAnswers session (log d) groups) ++ [fun c => c]))
      as [Hst Hne].
    { apply Forall2_app; [|by repeat constructor; apply mret_transforms].
      apply Forall2_fmap, Forall_Forall2_diag, Forall_forall.
      intros a _. apply resume_transforms. }
    split; [|apply Hne]. rewrite Hst. simpl.
    rewrite foldl_app, foldl_fmap. simpl.
    unfold d1, sourceRequests. fold groups. by rewrite app_nil_r.
Qed.

(** The answers, one by one. *)
Lemma sourceAnswers_lookup session (l : list Effect) groups (k : nat) :
  sourceAnswers session l groups !! k
  = (fun entry : string * list SourceBreakpoint =>
       (entry.2,
        setBreakpoints session
          (l ++ take k ((fun entry : string * list SourceBreakpoint =>
                           session_setBreakpoints entry.1
                             (BreakpointCollection.s_line <$> entry.2))
                        <$> groups))
          entry.1 (BreakpointCollection.s_line <$> entry.2)))
    <$> groups !! k.
Proof.
  revert l k. induction groups as [|[path bs] groups IH]; intros l k; [done|].
  destruct k as [|k]; simpl.
  - by rewrite app_nil_r.
  - rewrite IH. by rewrite <- app_assoc.
Qed.

Lemma sourceAnswers_fst session (l : list Effect) groups :
  (sourceAnswers session l groups).*1 = groups.*2.
Proof.
  revert l. induction groups as [|[path bs] groups IH]; intros l; [done|].
  simpl. by rewrite IH.
Qed.

Lemma reconciledAt_lookups (i : nat) remote c1 c1' c2 c2' :
  BreakpointCollection.getBreakpointByIndex i c1
  = BreakpointCollection.getBreakpointByIndex i c2 ->
  BreakpointCollection.getBreakpointByIndex i c1'
  = BreakpointCollection.getBreakpointByIndex i c2' ->
  reconciledAt i remote c1 c1' -> reconciledAt i remote c2 c2'.
Proof.
  intros H1 H2 (before & after & Hb & Ha & Hc).
  exists before, after. by rewrite <- H1, <- H2.
Qed.

Lemma sourcesResumed_other answers c (j : nat) :
  (forall bs, bs ∈ answers.*1 -> j ∉ BreakpointCollection.s_index <$> bs) ->
  BreakpointCollection.getBreakpointByIndex j (sourcesResumed answers c)
  = BreakpointCollection.getBreakpointByIndex j c.
Proof.
  revert c. induction answers as [|[bs r] answers IH]; intros c Hj; [done|].
  unfold sourcesResumed in *. simpl. rewrite IH.
  - apply (resumed_other inl). apply Hj. simpl. apply elem_of_cons. by left.
  - intros bs' Hbs'. apply Hj. simpl. apply elem_of_cons. by right.
Qed.

Lemma sourcesResumed_states answers c :
  Breakpoint.state <$> BreakpointCollection.breakpoints (sourcesResumed answers c)
  = Breakpoint.state <$> BreakpointCollection.breakpoints c.
Proof.
  revert c. induction answers as [|[bs r] answers IH]; intros c; [done|].
  unfold sourcesResumed in *. simpl. rewrite IH. apply resumed_states.
Qed.

Lemma resetCollection_states session (l : list Effect) c :
  Breakpoint.state <$> BreakpointCollection.breakpoints (resetCollection session l c)
  = Breakpoint.state <$> BreakpointCollection.breakpoints c.
Proof.
  unfold resetCollection.
  destruct (functionRequest session c);
    rewrite ?resumed_states; apply sourcesResumed_states.
Qed.

Lemma sourcesResumed_at answers c (k i : nat) bs remotes s remote :
  answers !! k = Some (bs, inr remotes) ->
  length remotes = length bs ->
  bs !! i = Some s ->
  remotes !! i = Some remote ->
  NoDup (BreakpointCollection.s_index <$> bs) ->
  (forall m bs', m <> k -> answers.*1 !! m = Some bs' ->
                 BreakpointCollection.s_index s
                 ∉ BreakpointCollection.s_index <$> bs') ->
  is_Some (BreakpointCollection.getBreakpointByIndex
             (BreakpointCollection.s_index s) c) ->
  reconciledAt (BreakpointCollection.s_index s) remote c
    (sourcesResumed answers c).
Proof.
  revert c k. induction answers as [|[bs0 r0] answers IH];
    intros c k Hk Hlen Hs Hr Hnd Hothers Hsome; [done|].
  destruct k as [|k]; simpl in Hk.
  - injection Hk as -> ->.
    apply (reconciledAt_lookups _ _ c
             (resumed inl bs (inr remotes) c)); [done| |].
    + symmetry. apply (sourcesResumed_other answers).
      intros bs' [m Hm]%list_elem_of_lookup.
      by apply (Hothers (S m)).
    + by apply (reconcileAll_reconciledAt inl bs remotes c i s remote).
  - assert (BreakpointCollection.getBreakpointByIndex
              (BreakpointCollection.s_index s) (resumed inl bs0 r0 c)
            = BreakpointCollection.getBreakpointByIndex
                (BreakpointCollection.s_index s) c) as Hhead.
    { apply (resumed_other inl). by apply (Hothers 0%nat). }
    apply (reconciledAt_lookups _ _ (resumed inl bs0 r0 c)
             (sourcesResumed answers (resumed inl bs0 r0 c))); [done|done|].
    apply (IH _ k); try done.
    + intros m bs' Hm. apply (Hothers (S m)). congruence.
    + by rewrite Hhead.
Qed.

(** Under unique indices, the lists that a reset reconciles do not
    overlap. *)
Lemma index_inj c b b' :
  uniqueIndices c ->
  b ∈ BreakpointCollection.breakpoints c ->
  b' ∈ BreakpointCollection.breakpoints c ->
  Breakpoint.index b = Breakpoint.index b' -> b = b'.
Proof.
  intros Hu Hb Hb' Heq.
  pose proof (getBreakpointByIndex_elem c b Hu Hb) as H.
  pose proof (getBreakpointByIndex_elem c b' Hu Hb') as H'.
  rewrite Heq in H. congruence.
Qed.

Lemma firstOccurrences_NoDup (l : list string) :
  NoDup (BreakpointCollection.firstOccurrences l).
Proof.
  unfold BreakpointCollection.firstOccurrences.
  rewrite reverse_Permutation. apply NoDup_remove_dups.
Qed.

Lemma elem_of_firstOccurrences (l : list string) (x : string) :
  x ∈ BreakpointCollection.firstOccurrences l <-> x ∈ l.
Proof.
  unfold BreakpointCollection.firstOccurrences.
  by rewrite elem_of_reverse, elem_of_remove_dups, elem_of_reverse.
Qed.

Lemma getAllEnabledBreakpointsByPath_lookup c (k : nat) path bs :
  BreakpointCollection.getAllEnabledBreakpointsByPath c !! k = Some (path, bs) ->
  bs = BreakpointCollection.getAllEnabledBreakpointsForSource path c
  /\ BreakpointCollection.firstOccurrences
       (BreakpointCollection.sourcePaths c) !! k = Some path.
Proof.
  unfold BreakpointCollection.getAllEnabledBreakpointsByPath.
  change (List.map ?f ?l) with (f <$> l) at 1.
  rewrite list_lookup_fmap.
  destruct (BreakpointCollection.firstOccurrences _ !! k) as [p|]; [|done].
  simpl. by intros [= -> ->].
Qed.

Lemma source_groups_disjoint c (k m : nat) path bs bs' s :
  uniqueIndices c ->
  BreakpointCollection.getAllEnabledBreakpointsByPath c !! k = Some (path, bs) ->
  (BreakpointCollection.getAllEnabledBreakpointsByPath c).*2 !! m = Some bs' ->
  m <> k ->
  s ∈ bs ->
  BreakpointCollection.s_index s ∉ BreakpointCollection.s_index <$> bs'.
Proof.
  intros Hu Hk Hm Hne Hs Hin.
  rewrite list_lookup_fmap in Hm.
  destruct (_ !! m) as [[path' bs'']|] eqn:Hm'; [|done].
  simpl in Hm. injection Hm as ->.
  apply getAllEnabledBreakpointsByPath_lookup in Hk as [-> Hk].
  apply getAllEnabledBreakpointsByPath_lookup in Hm' as [-> Hm'].
  apply list_elem_of_fmap in Hin as (s' & Heq & Hs').
  apply getAllEnabledBreakpointsForSource_elem in Hs as (b & Hb & Hi & Hkind & _).
  apply getAllEnabledBreakpointsForSource_elem in Hs' as (b' & Hb' & Hi' & Hkind' & _).
  assert (b = b') as <- by (apply (index_inj c); congruence).
  assert (path = path') as <- by congruence.
  apply Hne. by eapply NoDup_lookup; [apply firstOccurrences_NoDup|..].
Qed.

Lemma source_function_disjoint c path s :
  uniqueIndices c ->
  s ∈ BreakpointCollection.getAllEnabledBreakpointsForSource path c ->
  BreakpointCollection.s_index s
  ∉ BreakpointCollection.f_index
    <$> BreakpointCollection.getAllEnabledFunctionBreakpoints c.
Proof.
  intros Hu Hs Hin.
  apply list_elem_of_fmap in Hin as (f & Heq & Hf).
  apply getAllEnabledBreakpointsForSource_elem in Hs as (b & Hb & Hi & Hkind & _).
  apply getAllEnabledFunctionBreakpoints_elem in Hf as (b' & Hb' & Hi' & Hfunc & _).
  assert (b = b') as <- by (apply (index_inj c); congruence).
  unfold Breakpoint.func in Hfunc. by rewrite Hkind in Hfunc.
Qed.

Lemma functionRequest_Some session c funcBreakpoints :
  functionRequest session c = Some funcBreakpoints ->
  funcBreakpoints = BreakpointCollection.getAllEnabledFunctionBreakpoints c.
Proof. unfold functionRequest. destruct (_ || _); [done|]. by intros [= <-]. Qed.

(** ** Reconciliation *)

(** C1, as the spec states it, fails: the adapter answers without an [id]
    that the breakpoint is not verified, with a message; the local
    breakpoint is marked verified, and the message is not stored on it. *)
Lemma reconciliation_counterexample :
  let session := stubSession allCapabilities (inr [unverified]) (inr []) in
  let d := engine RUNNING session oneBreakpoint in
  let d' := (_setSourceBreakpointsForPath session "/a.c" (Some 0%nat) d).2 in
  setBreakpoints session (log d) "/a.c" [7] = inr [unverified]
  /\ exists after,
       BreakpointCollection.getBreakpointByIndex 0 (_breakpoints d') = Some after
       /\ Some (Breakpoint.verified after) <> DebugProtocol.verified unverified
       /\ Breakpoint.message after <> DebugProtocol.message unverified
       /\ ~ carriesAll unverified after.
Proof.
  split; [reflexivity|]. eexists. split; [vm_compute; reflexivity|].
  split; [done|]. split; [done|]. by intros (_ & ? & _).
Qed.

(** C1, amended: in a reconciliation whose response is as long as its
    request, the i-th local enabled breakpoint takes the [id] of the i-th
    element of the response, and its [verified] if it has one, when that
    element has an [id]; when it has none, the local breakpoint keeps the
    [id] it had and is set verified.  The [message] of the local breakpoint
    is left as it was.  This holds for [_setSourceBreakpointsForPath], for
    [_setFunctionBreakpoints], and for every request of
    [_resetAllBreakpoints]. *)
Theorem reconciliation (d : Debugger) (session : VsDebugSession) :
  let c := _breakpoints d in
  uniqueIndices c ->
  (forall path indexOfInterest remotes (i : nat) local remote,
     let locals := BreakpointCollection.getAllEnabledBreakpointsForSource path c in
     setBreakpoints session (log d) path (BreakpointCollection.s_line <$> locals)
     = inr remotes ->
     length remotes = length locals ->
     locals !! i = Some local ->
     remotes !! i = Some remote ->
     reconciledAt (BreakpointCollection.s_index local) remote c
       (_breakpoints
          (_setSourceBreakpointsForPath session path indexOfInterest d).2))
  /\ (forall indexOfInterest remotes (i : nat) local remote,
        let locals := BreakpointCollection.getAllEnabledFunctionBreakpoints c in
        setFunctionBreakpoints session (log d)
          (BreakpointCollection.f_func <$> locals) = inr remotes ->
        length remotes = length locals ->
        locals !! i = Some local ->
        remotes !! i = Some remote ->
        reconciledAt (BreakpointCollection.f_index local) remote c
          (_breakpoints (_setFunctionBreakpoints session indexOfInterest d).2))
  /\ (_ensureDebugSession false d = (Return session, d) ->
      (forall (k : nat) path locals remotes (i : nat) local remote,
         BreakpointCollection.getAllEnabledBreakpointsByPath c !! k
         = Some (path, locals) ->
         setBreakpoints session (log d ++ take k (sourceRequests c)) path
           (BreakpointCollection.s_line <$> locals) = inr remotes ->
         length remotes = length locals ->
         locals !! i = Some local ->
         remotes !! i = Some remote ->
         reconciledAt (BreakpointCollection.s_index local) remote c
           (_breakpoints (_resetAllBreakpoints d).2))
      /\ (forall locals remotes (i : nat) local remote,
            functionRequest session c = Some locals ->
            setFunctionBreakpoints session (log d ++ sourceRequests c)
              (BreakpointCollection.f_func <$> locals) = inr remotes ->
            length remotes = length locals ->
            locals !! i = Some local ->
            remotes !! i = Some remote ->
            reconciledAt (BreakpointCollection.f_index local) remote c
              (_breakpoints (_resetAllBreakpoints d).2))).
Proof.
  intros c Hu. split; [|split].
  - intros path indexOfInterest remotes i local remote locals Hans Hlen Hl Hr.
    destruct (_setSourceBreakpointsForPath_answered session d path
                indexOfInterest remotes Hans) as [-> _].
    simpl. apply (reconcileAll_reconciledAt inl locals remotes c i local remote);
      try done.
    + by apply getAllEnabledBreakpointsForSource_NoDup.
    + simpl. apply list_elem_of_lookup_2 in Hl.
      apply getAllEnabledBreakpointsForSource_elem in Hl as (b & Hb & <- & _).
      eexists. by apply getBreakpointByIndex_elem.
  - intros indexOfInterest remotes i local remote locals Hans Hlen Hl Hr.
    destruct (_setFunctionBreakpoints_answered session d indexOfInterest
                remotes Hans) as [-> _].
    simpl. apply (reconcileAll_reconciledAt inr locals remotes c i local remote);
      try done.
    + by apply getAllEnabledFunctionBreakpoints_NoDup.
    + simpl. apply list_elem_of_lookup_2 in Hl.
      apply getAllEnabledFunctionBreakpoints_elem in Hl as (b & Hb & <- & _).
      eexists. by apply getBreakpointByIndex_elem.
  - intros Hs. destruct (_resetAllBreakpoints_state session d Hs) as [-> _].
    simpl. fold c. unfold resetCollection.
    set (answers := sourceAnswers session (log d)
                      (BreakpointCollection.getAllEnabledBreakpointsByPath c)).
    split.
    + intros k path locals remotes i local remote Hk Hans Hlen Hl Hr.
      pose proof Hk as [-> _]%getAllEnabledBreakpointsByPath_lookup.
      assert (local ∈ BreakpointCollection.getAllEnabledBreakpointsForSource
                        path c) as Hin by by eapply list_elem_of_lookup_2.
      assert (reconciledAt (BreakpointCollection.s_index local) remote c
                (sourcesResumed answers c)) as Hrec.
      { apply (sourcesResumed_at answers c k i
                 (BreakpointCollection.getAllEnabledBreakpointsForSource path c)
                 remotes local remote); try done.
        - unfold answers. rewrite sourceAnswers_lookup, Hk. simpl.
          unfold sourceRequests in Hans. by rewrite Hans.
        - by apply getAllEnabledBreakpointsForSource_NoDup.
        - intros m bs' Hm Hbs'. unfold answers in Hbs'.
          rewrite sourceAnswers_fst in Hbs'.
          by apply (source_groups_disjoint c k m path
                      (BreakpointCollection.getAllEnabledBreakpointsForSource path c)
                      bs' local).
        - apply getAllEnabledBreakpointsForSource_elem in Hin
            as (b & Hb & <- & _).
          eexists. by apply getBreakpointByIndex_elem. }
      destruct (functionRequest session c) as [funcBreakpoints|] eqn:Hf; [|done].
      apply functionRequest_Some in Hf as ->.
      apply (reconciledAt_lookups _ _ c (sourcesResumed answers c)); [done| |done].
      symmetry. apply (resumed_other inr).
      by apply (source_function_disjoint c path).
    + intros locals remotes i local remote Hf Hans Hlen Hl Hr.
      rewrite Hf, Hans.
      pose proof Hf as ->%functionRequest_Some.
      assert (BreakpointCollection.getBreakpointByIndex
                (BreakpointCollection.f_index local) (sourcesResumed answers c)
              = BreakpointCollection.getBreakpointByIndex
                  (BreakpointCollection.f_index local) c) as Hsrc.
      { apply sourcesResumed_other. intros bs [m Hm]%list_elem_of_lookup.
        unfold answers in Hm. rewrite sourceAnswers_fst in Hm.
        rewrite list_lookup_fmap in Hm.
        destruct (_ !! m) as [[path bs']|] eqn:Hm'; [|done].
        simpl in Hm. injection Hm as ->.
        apply getAllEnabledBreakpointsByPath_lookup in Hm' as [-> _].
        intros (s & Heq & Hs')%list_elem_of_fmap.
        apply (source_function_disjoint c path s Hu Hs').
        rewrite <- Heq. apply list_elem_of_fmap_2.
        by eapply list_elem_of_lookup_2. }
      apply (reconciledAt_lookups _ _ (sourcesResumed answers c)
               (resumed inr (BreakpointCollection.getAllEnabledFunctionBreakpoints c)
                  (inr remotes) (sourcesResumed answers c))); [done|done|].
      apply (reconcileAll_reconciledAt inr _ remotes _ i local remote); try done.
      * by apply getAllEnabledFunctionBreakpoints_NoDup.
      * simpl. rewrite Hsrc. apply list_elem_of_lookup_2 in Hl.
        apply getAllEnabledFunctionBreakpoints_elem in Hl as (b & Hb & <- & _).
        eexists. by apply getBreakpointByIndex_elem.
Qed.

Lemma reconciliation_witness :
  let session := stubSession allCapabilities (inr [verified42]) (inr [verified42]) in
  let d := engine RUNNING session threeBreakpoints in
  uniqueIndices threeBreakpoints
  /\ reconciledAt 1 verified42 threeBreakpoints
       (_breakpoints (_resetAllBreakpoints d).2).
Proof.
  intros session d.
  assert (uniqueIndices threeBreakpoints) as Hu.
  { unfold uniqueIndices. by apply (bool_decide_unpack _). }
  split; [exact Hu|].
  destruct (reconciliation d session Hu) as (_ & _ & Hreset).
  destruct (Hreset eq_refl) as [Hsource _].
  exact (Hsource 1%nat "/b.c" _ [verified42] 0%nat _ verified42
           eq_refl eq_refl eq_refl eq_refl eq_refl).
Defined.

(** ** Enabling and toggling one breakpoint *)

(** C10: [setBreakpointEnabled] on a breakpoint that is not in the enabled
    state changes nothing - neither the breakpoint, nor the rest of the
    collection, nor the log of requests - whatever [enabled] is, and
    returns whenever there is a running session. *)
Theorem setBreakpointEnabled_not_enabled (d : Debugger) (breakpoint : nat)
    (bp : Breakpoint.t) (enabled : bool) :
  BreakpointCollection.getBreakpointByIndex breakpoint (_breakpoints d) = Some bp ->
  Breakpoint.state bp <> Breakpoint.ENABLED ->
  (setBreakpointEnabled breakpoint enabled d).2 = d
  /\ (forall session,
        _ensureDebugSession false d = (Return session, d) ->
        setBreakpointEnabled breakpoint enabled d = (Return tt, d)).
Proof.
  intros Hbp Hstate.
  assert (forall session,
            _ensureDebugSession false d = (Return session, d) ->
            setBreakpointEnabled breakpoint enabled d = (Return tt, d)) as Hok.
  { intros session Hs. unfold setBreakpointEnabled.
    rewrite (bind_Return _ _ _ _ _ Hs).
    unfold getBreakpointByIndex. rewrite bind_assoc. step. rewrite Hbp. step.
    by rewrite bool_decide_eq_true_2. }
  split; [|done].
  pose proof (_ensureDebugSession_state false d) as Hd.
  destruct (_ensureDebugSession false d) as [[session|e|code] d'] eqn:Hs;
    simpl in Hd; subst d'.
  - by rewrite (Hok session).
  - unfold setBreakpointEnabled. by rewrite (bind_Throw _ _ _ _ _ Hs).
  - by destruct (_ensureDebugSession_no_exit false d code); rewrite Hs.
Qed.

Lemma setBreakpointEnabled_not_enabled_witness :
  let c := BreakpointCollection.update 0 (Breakpoint.setState Breakpoint.DISABLED)
             oneBreakpoint in
  let d := engine RUNNING quietSession c in
  setBreakpointEnabled 0 true d = (Return tt, d)
  /\ Breakpoint.state
     <$> BreakpointCollection.getBreakpointByIndex 0
           (_breakpoints (setBreakpointEnabled 0 true d).2)
     = Some Breakpoint.DISABLED.
Proof.
  intros c d.
  destruct (setBreakpointEnabled_not_enabled d 0%nat
              (Breakpoint.mk 0 None false Breakpoint.DISABLED None
                 (Breakpoint.Source "/a.c" 7)) true eq_refl)
    as [Hd Hret]; [done|].
  split; [by apply (Hret quietSession)|]. by rewrite Hd.
Defined.

Lemma update_unique (i : nat) g c bp :
  uniqueIndices c ->
  BreakpointCollection.getBreakpointByIndex i c = Some bp ->
  g bp = bp ->
  BreakpointCollection.update i g c = c.
Proof.
  intros Hu Hbp Hg.
  apply getBreakpointByIndex_index in Hbp as [Hi Hin].
  destruct c as [l n o]. unfold BreakpointCollection.update. simpl in *. f_equal.
  rewrite <- (List.map_id l) at 2. apply List.map_ext_in.
  intros b Hb. unfold BreakpointCollection.hasIndex.
  destruct (decide (Breakpoint.index b = i)) as [Hbi|Hbi].
  - rewrite bool_decide_eq_true_2 by done.
    assert (b = bp) as ->; [|done].
    apply (index_inj (BreakpointCollection.mk l n o)); try done.
    + by apply list_elem_of_In.
    + congruence.
  - by rewrite bool_decide_eq_false_2.
Qed.

(** C3: when the [setBreakpoints] request sent by [toggleBreakpoint] or by
    [setBreakpointEnabled] is rejected, the method throws the rejection, and
    the engine is as it was before the call but for the logged request: the
    breakpoint has the state it had. *)
Theorem failed_request_rolls_back (d : Debugger) (session : VsDebugSession)
    (breakpoint : nat) (bp : Breakpoint.t) (path : string) (err : Exn) :
  let c := _breakpoints d in
  let request c1 :=
    BreakpointCollection.s_line
    <$> BreakpointCollection.getAllEnabledBreakpointsForSource path c1 in
  uniqueIndices c ->
  _ensureDebugSession false d = (Return session, d) ->
  BreakpointCollection.getBreakpointByIndex breakpoint c = Some bp ->
  Breakpoint.path bp = Some path ->
  (forall c1,
     c1 = BreakpointCollection.update breakpoint Breakpoint.toggleState c ->
     setBreakpoints session (log d) path (request c1) = inl err ->
     toggleBreakpoint breakpoint d
     = (Throw err,
        with_log (log d ++ [session_setBreakpoints path (request c1)]) d))
  /\ (forall enabled c1,
        Breakpoint.state bp = Breakpoint.ENABLED ->
        c1 = BreakpointCollection.update breakpoint
               (Breakpoint.setState
                  (if enabled : bool then Breakpoint.ENABLED
                   else Breakpoint.DISABLED)) c ->
        setBreakpoints session (log d) path (request c1) = inl err ->
        setBreakpointEnabled breakpoint enabled d
        = (Throw err,
           with_log (log d ++ [session_setBreakpoints path (request c1)]) d)).
Proof.
  intros c request Hu Hs Hbp Hpath. split.
  - intros c1 -> Hrej. unfold toggleBreakpoint.
    rewrite (bind_Return _ _ _ _ _ Hs).
    unfold getBreakpointByIndex. rewrite bind_assoc. step. fold c.
    rewrite Hbp. do 2 step. rewrite Hpath. unfold try_catch.
    rewrite (bind_Throw _ _ _ _ _
               (_setSourceBreakpointsForPath_rejected session
                  (with_breakpoints
                     (BreakpointCollection.update breakpoint
                        Breakpoint.toggleState c) d)
                  path _ err Hrej)).
    step. unfold throw. f_equal. simpl.
    rewrite update_update by (by intros ?).
    rewrite (update_unique _ _ _ bp Hu Hbp); [by destruct d|].
    by destruct bp.
  - intros enabled c1 Hen -> Hrej. unfold setBreakpointEnabled.
    rewrite (bind_Return _ _ _ _ _ Hs).
    unfold getBreakpointByIndex. rewrite bind_assoc. step. fold c.
    rewrite Hbp. step. rewrite bool_decide_eq_false_2 by (by intros ?).
    step. rewrite Hpath. unfold try_catch.
    rewrite (bind_Throw _ _ _ _ _
               (_setSourceBreakpointsForPath_rejected session
                  (with_breakpoints
                     (BreakpointCollection.update breakpoint
                        (Breakpoint.setState
                           (if enabled then Breakpoint.ENABLED
                            else Breakpoint.DISABLED)) c) d)
                  path _ err Hrej)).
    step. unfold throw. f_equal. simpl.
    rewrite update_update by (by intros ?).
    rewrite (update_unique _ _ _ bp Hu Hbp); [by destruct d|].
    by destruct bp.
Qed.

Lemma failed_request_rolls_back_witness :
  let err := Rejected "AdapterRequestFailed" in
  let session := stubSession allCapabilities (inl err) (inr []) in
  let d := engine RUNNING session oneBreakpoint in
  toggleBreakpoint 0 d
  = (Throw err, with_log [session_setBreakpoints "/a.c" []] d)
  /\ _breakpoints (toggleBreakpoint 0 d).2 = oneBreakpoint.
Proof.
  intros err session d.
  assert (uniqueIndices (_breakpoints d)) as Hu
    by (unfold uniqueIndices; by apply (bool_decide_unpack _)).
  destruct (failed_request_rolls_back d session 0%nat
              (Breakpoint.mk 0 None false Breakpoint.ENABLED None
                 (Breakpoint.Source "/a.c" 7))
              "/a.c" err Hu eq_refl eq_refl eq_refl) as [Htoggle _].
  pose proof (Htoggle _ eq_refl eq_refl) as H.
  split; [exact H|]. by rewrite H.
Defined.

(** ** Breakpoints set before the program starts *)

(** C5: with a session, and with the once state supported if it is asked
    for, [setSourceBreakpoint] in the configuring state adds the breakpoint,
    logs no request, and returns the new index with the pending message; in
    any other state it sends one [setBreakpoints] request for the path, with
    the lines of the enabled breakpoints of that path, the new one among
    them.  The same holds for [setFunctionBreakpoint] and
    [setFunctionBreakpoints] when the adapter supports function
    breakpoints. *)
Theorem breakpoints_pending_while_configuring (d : Debugger)
    (session : VsDebugSession) (once : bool) :
  let c := _breakpoints d in
  _debugSession d = Some session ->
  (once = true -> BreakpointCollection.supportsOnceState c = true) ->
  (forall path line,
     let added := BreakpointCollection.addSourceBreakpoint path line once c in
     let lines :=
       BreakpointCollection.s_line
       <$> BreakpointCollection.getAllEnabledBreakpointsForSource path added.2 in
     if decide (_state d = CONFIGURING)
     then setSourceBreakpoint path line once d
          = (Return (mkBreakpointSetResult added.1 (Some pending)),
             with_breakpoints added.2 d)
     else log (setSourceBreakpoint path line once d).2
          = log d ++ [session_setBreakpoints path lines]
          /\ line ∈ lines)
  /\ (Boolean (DebugProtocol.supportsFunctionBreakpoints (capabilities session))
      = true ->
      forall func,
        let added := BreakpointCollection.addFunctionBreakpoint func once c in
        let names :=
          BreakpointCollection.f_func
          <$> BreakpointCollection.getAllEnabledFunctionBreakpoints added.2 in
        if decide (_state d = CONFIGURING)
        then setFunctionBreakpoint func once d
             = (Return (mkBreakpointSetResult added.1 (Some pending)),
                with_breakpoints added.2 d)
        else log (setFunctionBreakpoint func once d).2
             = log d ++ [session_setFunctionBreakpoints names]
             /\ func ∈ names).
Proof.
  intros c Hs Honce.
  assert (once && negb (BreakpointCollection.supportsOnceState c) = false)
    as Hguard.
  { destruct once; [|done]. by rewrite Honce. }
  split.
  - intros path line added lines.
    assert (setSourceBreakpoint path line once d
            = (if bool_decide (_state d ≠ CONFIGURING)
               then
                 breakpoint ←
                   _setSourceBreakpointsForPath session path (Some added.1);
                 mret (mkBreakpointSetResult added.1
                         (breakpoint ≫= DebugProtocol.message))
               else mret (mkBreakpointSetResult added.1 (Some pending)))
                (with_breakpoints added.2 d)) as ->.
    { unfold setSourceBreakpoint. step. fold c. rewrite Hguard. step.
      rewrite (bind_Return _ _ _ _ _ (_ensureDebugSession_allowed d session Hs)).
      rewrite (bind_Return _ _ d (with_breakpoints added.2 d) added.1 eq_refl).
      by step. }
    destruct (decide (_state d = CONFIGURING)) as [Hst|Hst].
    + by rewrite bool_decide_eq_false_2 by (by intros ?).
    + rewrite bool_decide_eq_true_2 by done.
      rewrite bind_snd_mret. split.
      * apply (_setSourceBreakpointsForPath_log session
                 (with_breakpoints added.2 d)).
      * unfold lines, added, BreakpointCollection.addSourceBreakpoint.
        unfold BreakpointCollection.getAllEnabledBreakpointsForSource,
          BreakpointCollection.enabledSources. simpl.
        rewrite omap_app. simpl. unfold BreakpointCollection.asSource at 2.
        simpl.
        assert (Breakpoint.isEnabled
                  (Breakpoint.mk (BreakpointCollection.nextIndex c) None false
                     (BreakpointCollection.initialState once c) None
                     (Breakpoint.Source path line)) = true) as ->.
        { unfold Breakpoint.isEnabled, BreakpointCollection.initialState. simpl.
          by destruct once, (BreakpointCollection.supportsOnceState c). }
        simpl. rewrite List.filter_app. simpl.
        rewrite bool_decide_eq_true_2 by done.
        rewrite fmap_app. apply elem_of_app. right. simpl. apply list_elem_of_here.
  - intros Hcap func added names.
    assert (setFunctionBreakpoint func once d
            = (if bool_decide (_state d ≠ CONFIGURING)
               then
                 breakpoint ← _setFunctionBreakpoints session added.1;
                 mret (mkBreakpointSetResult added.1
                         (breakpoint ≫= DebugProtocol.message))
               else mret (mkBreakpointSetResult added.1 (Some pending)))
                (with_breakpoints added.2 d)) as ->.
    { unfold setFunctionBreakpoint.
      rewrite (bind_Return _ _ _ _ _ (_ensureDebugSession_allowed d session Hs)).
      rewrite Hcap. simpl. do 2 step. fold c. rewrite Hguard. step.
      rewrite (bind_Return _ _ d (with_breakpoints added.2 d) added.1 eq_refl).
      by step. }
    destruct (decide (_state d = CONFIGURING)) as [Hst|Hst].
    + by rewrite bool_decide_eq_false_2 by (by intros ?).
    + rewrite bool_decide_eq_true_2 by done.
      rewrite bind_snd_mret. split.
      * apply (_setFunctionBreakpoints_log session (with_breakpoints added.2 d)).
      * unfold names, added, BreakpointCollection.addFunctionBreakpoint.
        unfold BreakpointCollection.getAllEnabledFunctionBreakpoints. simpl.
        rewrite omap_app. simpl. unfold BreakpointCollection.asFunction at 2.
        simpl.
        assert (Breakpoint.isEnabled
                  (Breakpoint.mk (BreakpointCollection.nextIndex c) None false
                     (BreakpointCollection.initialState once c) None
                     (Breakpoint.Function func None)) = true) as ->.
        { unfold Breakpoint.isEnabled, BreakpointCollection.initialState. simpl.
          by destruct once, (BreakpointCollection.supportsOnceState c). }
        simpl. rewrite fmap_app. apply elem_of_app. right. simpl.
        apply list_elem_of_here.
Qed.

Lemma breakpoints_pending_while_configuring_witness :
  let d := engine CONFIGURING quietSession BreakpointCollection.empty in
  setSourceBreakpoint "/a.c" 7 false d
  = (Return (mkBreakpointSetResult 0 (Some pending)),
     with_breakpoints oneBreakpoint d)
  /\ log (setSourceBreakpoint "/a.c" 7 false d).2 = [].
Proof.
  intros d.
  destruct (breakpoints_pending_while_configuring d quietSession false eq_refl)
    as [Hsource _]; [done|].
  pose proof (Hsource "/a.c" 7) as H. simpl in H.
  split; [exact H|]. by rewrite H.
Defined.

(** ** Enabling all breakpoints *)

Lemma _resetAllBreakpoints_states (d : Debugger) :
  Breakpoint.state
  <$> BreakpointCollection.breakpoints (_breakpoints (_resetAllBreakpoints d).2)
  = Breakpoint.state <$> BreakpointCollection.breakpoints (_breakpoints d).
Proof.
  pose proof (_ensureDebugSession_state false d) as Hd.
  destruct (_ensureDebugSession false d) as [[session|e|code] d'] eqn:Hs;
    simpl in Hd; subst d'.
  - destruct (_resetAllBreakpoints_state session d Hs) as [-> _]. simpl.
    apply resetCollection_states.
  - unfold _resetAllBreakpoints. by rewrite (bind_Throw _ _ _ _ _ Hs).
  - by destruct (_ensureDebugSession_no_exit false d code); rewrite Hs.
Qed.

Lemma sourceRequests_enabled c b path line :
  b ∈ BreakpointCollection.breakpoints c ->
  Breakpoint.kind b = Breakpoint.Source path line ->
  Breakpoint.isEnabled b = true ->
  let lines :=
    BreakpointCollection.s_line
    <$> BreakpointCollection.getAllEnabledBreakpointsForSource path c in
  session_setBreakpoints path lines ∈ sourceRequests c /\ line ∈ lines.
Proof.
  intros Hb Hkind Hen lines.
  assert (BreakpointCollection.mkSource (Breakpoint.index b) path line
          ∈ BreakpointCollection.enabledSources c) as Hs.
  { apply list_elem_of_omap. exists b. split; [done|].
    unfold BreakpointCollection.asSource. by rewrite Hkind, Hen. }
  split.
  - unfold sourceRequests, BreakpointCollection.getAllEnabledBreakpointsByPath.
    change (List.map ?f ?l) with (f <$> l) at 1.
    rewrite <- list_fmap_compose.
    apply (list_elem_of_fmap_2' _ _ path); [|done].
    apply elem_of_firstOccurrences, list_elem_of_omap.
    exists b. split; [done|]. by rewrite Hkind.
  - apply (list_elem_of_fmap_2' _ _
             (BreakpointCollection.mkSource (Breakpoint.index b) path line));
      [|done].
    apply list_elem_of_In, List.filter_In. split; [by apply list_elem_of_In|].
    by apply bool_decide_eq_true.
Qed.

Lemma functionRequests_enabled session c b func resolved :
  b ∈ BreakpointCollection.breakpoints c ->
  Breakpoint.kind b = Breakpoint.Function func resolved ->
  Breakpoint.isEnabled b = true ->
  Boolean (DebugProtocol.supportsFunctionBreakpoints (capabilities session))
  = true ->
  let names :=
    BreakpointCollection.f_func
    <$> BreakpointCollection.getAllEnabledFunctionBreakpoints c in
  session_setFunctionBreakpoints names ∈ functionRequests session c
  /\ func ∈ names.
Proof.
  intros Hb Hkind Hen Hcap names.
  assert (BreakpointCollection.mkFunction (Breakpoint.index b) func
          ∈ BreakpointCollection.getAllEnabledFunctionBreakpoints c) as Hf.
  { apply list_elem_of_omap. exists b. split; [done|].
    unfold BreakpointCollection.asFunction. by rewrite Hkind, Hen. }
  split.
  - unfold functionRequests, functionRequest. rewrite Hcap. simpl.
    rewrite bool_decide_eq_false_2; [apply list_elem_of_here|].
    intros Hnil%nil_length_inv. rewrite Hnil in Hf. by apply elem_of_nil in Hf.
  - by apply (list_elem_of_fmap_2' _ _
                (BreakpointCollection.mkFunction (Breakpoint.index b) func)).
Qed.

(** C9: whatever [enabled] is, [setAllBreakpointsEnabled] puts every
    breakpoint of the collection in the enabled state and then runs
    [_resetAllBreakpoints]: when that ends, every breakpoint is still
    enabled, and, with a running session, the requests sent are those of
    the reset and name every source breakpoint under its path and, where
    the adapter supports them, every function breakpoint. *)
Theorem setAllBreakpointsEnabled_enables (enabled : bool) (d : Debugger) :
  let c := _breakpoints d in
  let c1 := BreakpointCollection.updateAll
              (Breakpoint.setState Breakpoint.ENABLED) c in
  let d' := (setAllBreakpointsEnabled enabled d).2 in
  setAllBreakpointsEnabled enabled d
  = _resetAllBreakpoints (with_breakpoints c1 d)
  /\ Forall (fun b => Breakpoint.state b = Breakpoint.ENABLED)
       (BreakpointCollection.breakpoints (_breakpoints d'))
  /\ (forall session,
        _ensureDebugSession false d = (Return session, d) ->
        log d' = log d ++ resetRequests session c1
        /\ (forall b path line,
              b ∈ BreakpointCollection.breakpoints c ->
              Breakpoint.kind b = Breakpoint.Source path line ->
              exists lines,
                session_setBreakpoints path lines ∈ resetRequests session c1
                /\ line ∈ lines)
        /\ (forall b func resolved,
              b ∈ BreakpointCollection.breakpoints c ->
              Breakpoint.kind b = Breakpoint.Function func resolved ->
              Boolean (DebugProtocol.supportsFunctionBreakpoints
                         (capabilities session)) = true ->
              exists names,
                session_setFunctionBreakpoints names ∈ resetRequests session c1
                /\ func ∈ names)).
Proof.
  intros c c1 d'.
  assert (setAllBreakpointsEnabled enabled d
          = _resetAllBreakpoints (with_breakpoints c1 d)) as Heq by done.
  split; [done|]. unfold d'. rewrite Heq. split.
  - apply (proj1 (Forall_fmap Breakpoint.state
                    (fun s => s = Breakpoint.ENABLED) _)).
    rewrite _resetAllBreakpoints_states. simpl.
    change (List.map ?f ?l) with (f <$> l).
    rewrite <- list_fmap_compose. apply Forall_fmap, Forall_forall. by intros b _.
  - intros session Hs.
    destruct (_resetAllBreakpoints_state session (with_breakpoints c1 d))
      as [-> _]; [by apply _ensureDebugSession_with_breakpoints|].
    split; [done|].
    assert (forall b, b ∈ BreakpointCollection.breakpoints c ->
                      Breakpoint.setState Breakpoint.ENABLED b
                      ∈ BreakpointCollection.breakpoints c1) as Hin.
    { intros b Hb. by apply (list_elem_of_fmap_2' _ _ b). }
    split.
    + intros b path line Hb Hkind.
      destruct (sourceRequests_enabled c1 _ path line (Hin b Hb) Hkind eq_refl)
        as [Hreq Hline].
      eexists. split; [|exact Hline]. apply elem_of_app. by left.
    + intros b func resolved Hb Hkind Hcap.
      destruct (functionRequests_enabled session c1 _ func resolved
                  (Hin b Hb) Hkind eq_refl Hcap) as [Hreq Hname].
      eexists. split; [|exact Hname]. apply elem_of_app. by right.
Qed.

Lemma setAllBreakpointsEnabled_enables_witness :
  let c := BreakpointCollection.update 0 (Breakpoint.setState Breakpoint.DISABLED)
             oneBreakpoint in
  let session := stubSession allCapabilities (inr [verified42]) (inr []) in
  let d := engine RUNNING session c in
  log (setAllBreakpointsEnabled false d).2 = [session_setBreakpoints "/a.c" [7]]
  /\ Forall (fun b => Breakpoint.state b = Breakpoint.ENABLED)
       (BreakpointCollection.breakpoints
          (_breakpoints (setAllBreakpointsEnabled false d).2)).
Proof.
  intros c session d.
  destruct (setAllBreakpointsEnabled_enables false d) as (_ & Hall & Hlog).
  destruct (Hlog session eq_refl) as [Hrequests _].
  split; [exact Hrequests|exact Hall].
Defined.

(** ** One-shot breakpoints *)

Lemma update_state_at (i j : nat) g c :
  keepsIndex g -> keepsState g ->
  Breakpoint.state
  <$> BreakpointCollection.getBreakpointByIndex j (BreakpointCollection.update i g c)
  = Breakpoint.state <$> BreakpointCollection.getBreakpointByIndex j c.
Proof.
  intros Hi Hs. rewrite getBreakpointByIndex_update by done.
  destruct (BreakpointCollection.getBreakpointByIndex j c) as [b|]; [|done].
  simpl. by destruct (bool_decide (i = j)); rewrite ?Hs.
Qed.

Lemma reconcileAll_state_at {A} (inj : A -> LocalBreakpoint) ps c (j : nat) :
  Breakpoint.state
  <$> BreakpointCollection.getBreakpointByIndex j (reconcileAll inj ps c)
  = Breakpoint.state <$> BreakpointCollection.getBreakpointByIndex j c.
Proof.
  revert c. induction ps as [|[local [remote|]] ps IH]; intros c; [done| |done].
  simpl. rewrite IH.
  apply update_state_at; [apply reconcile_index|apply reconcile_state].
Qed.

Lemma resumed_state_at {A} (inj : A -> LocalBreakpoint) locals response c
    (j : nat) :
  Breakpoint.state
  <$> BreakpointCollection.getBreakpointByIndex j (resumed inj locals response c)
  = Breakpoint.state <$> BreakpointCollection.getBreakpointByIndex j c.
Proof. destruct response; [done|]. apply reconcileAll_state_at. Qed.

Lemma sourcesResumed_state_at answers c (j : nat) :
  Breakpoint.state
  <$> BreakpointCollection.getBreakpointByIndex j (sourcesResumed answers c)
  = Breakpoint.state <$> BreakpointCollection.getBreakpointByIndex j c.
Proof.
  revert c. induction answers as [|[bs r] answers IH]; intros c; [done|].
  unfold sourcesResumed in *. simpl. rewrite IH. apply resumed_state_at.
Qed.

Lemma resetCollection_state_at session (l : list Effect) c (j : nat) :
  Breakpoint.state
  <$> BreakpointCollection.getBreakpointByIndex j (resetCollection session l c)
  = Breakpoint.state <$> BreakpointCollection.getBreakpointByIndex j c.
Proof.
  unfold resetCollection.
  destruct (functionRequest session c);
    rewrite ?resumed_state_at; apply sourcesResumed_state_at.
Qed.

Lemma _resetAllBreakpoints_state_at (d : Debugger) (j : nat) :
  Breakpoint.state
  <$> BreakpointCollection.getBreakpointByIndex j
        (_breakpoints (_resetAllBreakpoints d).2)
  = Breakpoint.state
    <$> BreakpointCollection.getBreakpointByIndex j (_breakpoints d).
Proof.
  pose proof (_ensureDebugSession_state false d) as Hd.
  destruct (_ensureDebugSession false d) as [[session|e|code] d'] eqn:Hs;
    simpl in Hd; subst d'.
  - destruct (_resetAllBreakpoints_state session d Hs) as [-> _]. simpl.
    apply resetCollection_state_at.
  - unfold _resetAllBreakpoints. by rewrite (bind_Throw _ _ _ _ _ Hs).
  - by destruct (_ensureDebugSession_no_exit false d code); rewrite Hs.
Qed.

Lemma resetRequests_no_input session c :
  console_startInput ∉ resetRequests session c.
Proof.
  unfold resetRequests, sourceRequests, functionRequests.
  intros [Hin|Hin]%elem_of_app.
  - by apply list_elem_of_fmap in Hin as (entry & ? & _).
  - destruct (functionRequest session c); [|by apply elem_of_nil in Hin].
    by apply list_elem_of_singleton in Hin.
Qed.

(** A reset logs requests and nothing else. *)
Lemma _resetAllBreakpoints_log (d : Debugger) :
  exists requests,
    log (_resetAllBreakpoints d).2 = log d ++ requests
    /\ console_startInput ∉ requests.
Proof.
  pose proof (_ensureDebugSession_state false d) as Hd.
  destruct (_ensureDebugSession false d) as [[session|e|code] d'] eqn:Hs;
    simpl in Hd; subst d'.
  - destruct (_resetAllBreakpoints_state session d Hs) as [-> _]. simpl.
    eexists. split; [done|]. apply resetRequests_no_input.
  - unfold _resetAllBreakpoints. rewrite (bind_Throw _ _ _ _ _ Hs). simpl.
    exists []. split; [by rewrite app_nil_r|]. apply not_elem_of_nil.
  - by destruct (_ensureDebugSession_no_exit false d code); rewrite Hs.
Qed.

Lemma getBreakpointById_Some (id : Z) (d : Debugger) bpt :
  BreakpointCollection.getBreakpointById id (_breakpoints d) = Some bpt ->
  getBreakpointById id d = (Return bpt, d).
Proof. intros H. unfold getBreakpointById. step. by rewrite H. Qed.

(** C4: when a stop event carries the [breakpointId] of a breakpoint that
    is in the once state, [_onStopped] sets that breakpoint to disabled and
    runs [_resetAllBreakpoints] before anything else of the handler: what
    is left of the handler - which is where the input of the REPL is
    started - runs from the state in which the reset has ended.  At that
    point the breakpoint is disabled, and the reset has logged only its
    requests. *)
Theorem one_shot_breakpoint_disabled
    (_getTopOfStackSourceInfo : Z -> M (option TopOfStack))
    (onStoppedHooks : M unit) (event : DebugProtocol.StoppedEvent)
    (d : Debugger) (breakpointId : Z) (bpt : Breakpoint.t) :
  let c0 := BreakpointCollection.update (Breakpoint.index bpt)
              (Breakpoint.setState Breakpoint.DISABLED) (_breakpoints d) in
  let d0 := with_breakpoints c0
              (with_stoppedAtBreakpoint (Some (Breakpoint.index bpt)) d) in
  DebugProtocol.breakpointId event = Some breakpointId ->
  BreakpointCollection.getBreakpointById breakpointId (_breakpoints d) = Some bpt ->
  Breakpoint.state bpt = Breakpoint.ONCE ->
  _disableBreakpointIfOneShot (Some breakpointId) d
  = _resetAllBreakpoints (with_breakpoints c0 d)
  /\ _onStopped _getTopOfStackSourceInfo onStoppedHooks event d
     = (_resetAllBreakpoints;;
        _onStopped_resumed _getTopOfStackSourceInfo onStoppedHooks event) d0
  /\ Breakpoint.state
     <$> BreakpointCollection.getBreakpointByIndex (Breakpoint.index bpt)
           (_breakpoints (_resetAllBreakpoints d0).2)
     = Some Breakpoint.DISABLED
  /\ exists requests,
       log (_resetAllBreakpoints d0).2 = log d ++ requests
       /\ console_startInput ∉ requests.
Proof.
  intros c0 d0 Hid Hbpt Honce.
  assert (forall d1, _breakpoints d1 = _breakpoints d ->
            _disableBreakpointIfOneShot (Some breakpointId) d1
            = _resetAllBreakpoints (with_breakpoints c0 d1)) as Hdisable.
  { intros d1 Hd1. unfold _disableBreakpointIfOneShot.
    rewrite (bind_Return _ _ _ _ _ (getBreakpointById_Some breakpointId d1 bpt
                                      ltac:(by rewrite Hd1))).
    rewrite Honce, bool_decide_eq_true_2 by done. step. by rewrite Hd1. }
  split; [by apply Hdisable|]. split; [|split].
  - unfold _onStopped. step. rewrite Hid.
    erewrite bind_Return; cycle 1.
    { unfold try_catch.
      erewrite bind_Return; [reflexivity|]. by apply getBreakpointById_Some. }
    unfold mbind, M_bind. by rewrite Hdisable.
  - rewrite _resetAllBreakpoints_state_at. simpl. fold c0. unfold c0.
    destruct (find_some _ _ Hbpt) as [Hin _].
    assert (is_Some (BreakpointCollection.getBreakpointByIndex
                       (Breakpoint.index bpt) (_breakpoints d))) as [b Hb].
    { unfold BreakpointCollection.getBreakpointByIndex.
      destruct (List.find _ _) eqn:Hfind; [done|].
      apply (find_none _ _ Hfind) in Hin.
      unfold BreakpointCollection.hasIndex in Hin.
      by rewrite bool_decide_eq_true_2 in Hin. }
    rewrite getBreakpointByIndex_update by done. rewrite Hb. simpl.
    by rewrite bool_decide_eq_true_2.
  - apply (_resetAllBreakpoints_log d0).
Qed.

Lemma one_shot_breakpoint_disabled_witness :
  let d := engine RUNNING quietSession onceBreakpoint in
  let d0 :=
    with_breakpoints
      (BreakpointCollection.update 0 (Breakpoint.setState Breakpoint.DISABLED)
         onceBreakpoint)
      (with_stoppedAtBreakpoint (Some 0%nat) d) in
  Breakpoint.state
  <$> BreakpointCollection.getBreakpointByIndex 0
        (_breakpoints (_resetAllBreakpoints d0).2)
  = Some Breakpoint.DISABLED.
Proof.
  intros d d0.
  destruct (one_shot_breakpoint_disabled (fun _ => mret None) (mret tt)
              stoppedAt5 d 5
              (Breakpoint.mk 0 (Some 5) true Breakpoint.ONCE None
                 (Breakpoint.Source "/a.c" 7))
              eq_refl eq_refl eq_refl) as (_ & _ & Hstate & _).
  exact Hstate.
Defined.

(** Scenario 2 of the spec: the one-shot breakpoint of "/a.c" has been
    hit; it is disabled, and the reset sends the request for "/a.c" again,
    now with no lines. *)
Example one_shot_reset_clears_path :
  let r := _disableBreakpointIfOneShot (Some 5%Z)
             (engine RUNNING quietSession onceBreakpoint) in
  r.1 = Return tt
  /\ log r.2 = [session_setBreakpoints "/a.c" []]
  /\ Breakpoint.state
     <$> BreakpointCollection.getBreakpointByIndex 0 (_breakpoints r.2)
     = Some Breakpoint.DISABLED.
Proof. by vm_compute. Qed.

(** The paths come in the order of their first breakpoint, and a path
    whose breakpoints are all disabled keeps its entry. *)
Example paths_in_order_of_first_breakpoint :
  let c := BreakpointCollection.mk
             [Breakpoint.mk 0 None false Breakpoint.ENABLED None
                (Breakpoint.Source "/b.c" 3);
              Breakpoint.mk 1 None false Breakpoint.DISABLED None
                (Breakpoint.Source "/a.c" 7);
              Breakpoint.mk 2 None false Breakpoint.ENABLED None
                (Breakpoint.Source "/b.c" 9)] 3 false in
  BreakpointCollection.getAllBreakpointPaths c = ["/b.c"; "/a.c"]
  /\ sourceRequests c
     = [session_setBreakpoints "/b.c" [3; 9]; session_setBreakpoints "/a.c" []].
Proof. by vm_compute. Qed.

(** ** The registry keeps its invariants *)

Lemma StronglySorted_lt_NoDup (l : list nat) : StronglySorted lt l -> NoDup l.
Proof.
  induction 1 as [|i l _ IH Hall]; [apply NoDup_nil_2|].
  apply NoDup_cons. split; [|done].
  intros Hin. rewrite Forall_forall in Hall. specialize (Hall i Hin). lia.
Qed.

Lemma StronglySorted_lt_snoc (l : list nat) (n : nat) :
  StronglySorted lt l -> Forall (fun i => (i < n)%nat) l ->
  StronglySorted lt (l ++ [n]).
Proof.
  induction 1 as [|i l Hl IH Hall]; intros Hn.
  - repeat constructor.
  - apply Forall_cons in Hn as [Hi Hn]. simpl. constructor; [by apply IH|].
    apply Forall_app. split; [done|]. by constructor.
Qed.

Lemma wellFormed_unique c : wellFormed c -> uniqueIndices c.
Proof. intros [Hs _]. by apply StronglySorted_lt_NoDup. Qed.

Lemma wellFormed_empty : wellFormed BreakpointCollection.empty.
Proof. split; constructor. Qed.

Lemma wellFormed_add c (b : Breakpoint.t) :
  Breakpoint.index b = BreakpointCollection.nextIndex c ->
  wellFormed c ->
  wellFormed (BreakpointCollection.mk (BreakpointCollection.breakpoints c ++ [b])
                (S (BreakpointCollection.nextIndex c))
                (BreakpointCollection.allowOnceState c)).
Proof.
  intros Hb [Hs Hn]. split; simpl; rewrite fmap_app; simpl; rewrite Hb.
  - by apply StronglySorted_lt_snoc.
  - apply Forall_app. split; [|repeat constructor].
    eapply Forall_impl; [exact Hn|]. simpl. lia.
Qed.

Lemma wellFormed_addSourceBreakpoint path line once c :
  wellFormed c ->
  wellFormed (BreakpointCollection.addSourceBreakpoint path line once c).2.
Proof. by apply wellFormed_add. Qed.

Lemma wellFormed_addFunctionBreakpoint func once c :
  wellFormed c ->
  wellFormed (BreakpointCollection.addFunctionBreakpoint func once c).2.
Proof. by apply wellFormed_add. Qed.

Lemma update_indices (i : nat) g c :
  keepsIndex g ->
  Breakpoint.index <$> BreakpointCollection.breakpoints
                         (BreakpointCollection.update i g c)
  = Breakpoint.index <$> BreakpointCollection.breakpoints c.
Proof.
  intros Hg. simpl. change (List.map ?f ?l) with (f <$> l).
  rewrite <- list_fmap_compose. apply list_fmap_ext.
  intros k b _. simpl. by destruct (BreakpointCollection.hasIndex i b).
Qed.

Lemma wellFormed_update (i : nat) g c :
  keepsIndex g -> wellFormed c -> wellFormed (BreakpointCollection.update i g c).
Proof.
  intros Hg [Hs Hn]. unfold wellFormed. by rewrite update_indices.
Qed.

Lemma wellFormed_updateAll g c :
  keepsIndex g -> wellFormed c -> wellFormed (BreakpointCollection.updateAll g c).
Proof.
  intros Hg [Hs Hn].
  assert (Breakpoint.index <$> List.map g (BreakpointCollection.breakpoints c)
          = Breakpoint.index <$> BreakpointCollection.breakpoints c) as Heq.
  { change (List.map ?f ?l) with (f <$> l).
    rewrite <- list_fmap_compose. apply list_fmap_ext. intros k b _. apply Hg. }
  unfold wellFormed. simpl. by rewrite Heq.
Qed.

Lemma StronglySorted_filter_image {A} (g : A -> nat) (P : A -> bool)
    (l : list A) :
  StronglySorted lt (g <$> l) -> StronglySorted lt (g <$> List.filter P l).
Proof.
  induction l as [|a l IH]; [done|]. simpl.
  intros [Hs Hall]%StronglySorted_inv.
  destruct (P a); [|by apply IH]. simpl. constructor; [by apply IH|].
  rewrite Forall_forall in *. intros i (a' & -> & Ha')%list_elem_of_fmap.
  apply Hall, list_elem_of_fmap_2, list_elem_of_In.
  apply list_elem_of_In in Ha'. by apply List.filter_In in Ha' as [? _].
Qed.

Lemma StronglySorted_omap_image {A B} (f : A -> option B) (g : B -> nat)
    (h : A -> nat) (l : list A) :
  (forall a b, f a = Some b -> g b = h a) ->
  StronglySorted lt (h <$> l) -> StronglySorted lt (g <$> omap f l).
Proof.
  intros Hfg. induction l as [|a l IH]; [done|]. simpl.
  intros [Hs Hall]%StronglySorted_inv.
  destruct (f a) as [b|] eqn:Hfa; [|by apply IH]. simpl.
  constructor; [by apply IH|]. rewrite (Hfg a b Hfa).
  rewrite Forall_forall in *. intros i (b' & -> & Hb')%list_elem_of_fmap.
  apply list_elem_of_omap in Hb' as (a' & Ha' & Hfa').
  rewrite (Hfg a' b' Hfa'). by apply Hall, list_elem_of_fmap_2.
Qed.

Lemma wellFormed_deleteBreakpoint (i : nat) c :
  wellFormed c -> wellFormed (BreakpointCollection.deleteBreakpoint i c).
Proof.
  intros [Hs Hn]. split; simpl.
  - by apply StronglySorted_filter_image.
  - rewrite Forall_forall in *. intros j (b & -> & Hb)%list_elem_of_fmap.
    apply Hn, list_elem_of_fmap_2, list_elem_of_In.
    apply list_elem_of_In in Hb. by apply List.filter_In in Hb as [? _].
Qed.

(** The index handed out by [addSourceBreakpoint] is carried by no
    breakpoint of the collection, present or deleted before. *)
Lemma addSourceBreakpoint_fresh path line once c :
  wellFormed c ->
  BreakpointCollection.getBreakpointByIndex
    (BreakpointCollection.addSourceBreakpoint path line once c).1 c = None.
Proof.
  intros [_ Hn]. simpl.
  destruct (BreakpointCollection.getBreakpointByIndex _ c) as [b|] eqn:Hb; [|done].
  apply getBreakpointByIndex_index in Hb as [Hi Hin].
  rewrite Forall_forall in Hn.
  specialize (Hn _ (list_elem_of_fmap_2 Breakpoint.index _ _ Hin)). lia.
Qed.

(** "ordered by their index": the enabled breakpoints of a path come in
    the order of their indices. *)
Lemma getAllEnabledBreakpointsForSource_sorted path c :
  wellFormed c ->
  StronglySorted lt
    (BreakpointCollection.s_index
     <$> BreakpointCollection.getAllEnabledBreakpointsForSource path c).
Proof.
  intros [Hs _]. apply StronglySorted_filter_image.
  apply (StronglySorted_omap_image _ _ Breakpoint.index); [|done].
  intros b s Hbs. by apply asSource_Some in Hbs as [? _].
Qed.

(** A reset changes neither the indices nor the states of the
    breakpoints. *)
Lemma reconcileAll_indices {A} (inj : A -> LocalBreakpoint) ps c :
  Breakpoint.index <$> BreakpointCollection.breakpoints (reconcileAll inj ps c)
  = Breakpoint.index <$> BreakpointCollection.breakpoints c.
Proof.
  revert c. induction ps as [|[local [remote|]] ps IH]; intros c; [done| |done].
  simpl. rewrite IH. apply update_indices, reconcile_index.
Qed.

Lemma reconcileAll_wellFormed {A} (inj : A -> LocalBreakpoint) ps c :
  wellFormed c -> wellFormed (reconcileAll inj ps c).
Proof.
  revert c. induction ps as [|[local [remote|]] ps IH]; intros c Hc; [done| |done].
  simpl. apply IH, wellFormed_update; [apply reconcile_index|done].
Qed.

(** The engine's [setSourceBreakpoint] keeps the registry well formed,
    whatever the adapter answers. *)
Lemma setSourceBreakpoint_wellFormed path line once (d : Debugger) :
  wellFormed (_breakpoints d) ->
  wellFormed (_breakpoints (setSourceBreakpoint path line once d).2).
Proof.
  intros Hwf. unfold setSourceBreakpoint. step.
  destruct (once && _).
  - rewrite bind_assoc. by do 2 step.
  - step. pose proof (_ensureDebugSession_state true d) as Hd.
    destruct (_ensureDebugSession true d) as [[session|e|code] d'] eqn:Hs;
      simpl in Hd; subst d'.
    + rewrite (bind_Return _ _ _ _ _ Hs).
      set (added := BreakpointCollection.addSourceBreakpoint path line once
                      (_breakpoints d)).
      rewrite (bind_Return _ _ d (with_breakpoints added.2 d) added.1 eq_refl).
      step. change (_state (with_breakpoints _ d)) with (_state d).
      assert (wellFormed added.2) as Hadded
        by by apply wellFormed_addSourceBreakpoint.
      destruct (bool_decide (_state d ≠ CONFIGURING)); [|done].
      rewrite bind_snd_mret.
      destruct (setBreakpoints session (log (with_breakpoints added.2 d)) path
                  (BreakpointCollection.s_line
                   <$> BreakpointCollection.getAllEnabledBreakpointsForSource
                         path added.2)) as [err|remotes] eqn:Hans.
      * by rewrite (_setSourceBreakpointsForPath_rejected session
                      (with_breakpoints added.2 d) path _ err Hans).
      * destruct (_setSourceBreakpointsForPath_answered session
                    (with_breakpoints added.2 d) path (Some added.1) remotes Hans)
          as [-> _].
        simpl. by apply reconcileAll_wellFormed.
    + by rewrite (bind_Throw _ _ _ _ _ Hs).
    + by destruct (_ensureDebugSession_no_exit true d code); rewrite Hs.
Qed.

(** ** The scenarios of the specification *)

(** Scenario 1, the breakpoint: in the configuring state the breakpoint at
    "/a.c", line 7, is pending, and nothing is sent. *)
Example scenario_pending :
  let d := engine CONFIGURING quietSession BreakpointCollection.empty in
  (setSourceBreakpoint "/a.c" 7 false d).1
  = Return (mkBreakpointSetResult 0 (Some pending))
  /\ log (setSourceBreakpoint "/a.c" 7 false d).2 = [].
Proof. by vm_compute. Qed.

(** Scenario 4: a function breakpoint resolved to a source location. *)
Example scenario_function_breakpoint_resolved :
  let answer :=
    DebugProtocol.mkBreakpoint (Some 42) (Some true) None
      (Some (DebugProtocol.mkSource None (Some "/x.c") None)) (Some 9) in
  let session := stubSession allCapabilities (inr []) (inr [answer]) in
  let d := engine RUNNING session BreakpointCollection.empty in
  let d' := (setFunctionBreakpoint "foo" false d).2 in
  log d' = [session_setFunctionBreakpoints ["foo"]]
  /\ BreakpointCollection.getBreakpointByIndex 0 (_breakpoints d')
     = Some (Breakpoint.mk 0 (Some 42) true Breakpoint.ENABLED None
               (Breakpoint.Function "foo" (Some ("/x.c", 9)))).
Proof. by vm_compute. Qed.

(** A response shorter than the request: the loop stops where the
    response ends, with the breakpoints before that point updated. *)
Example short_response :
  let session := stubSession allCapabilities (inr []) (inr []) in
  let d := engine RUNNING session oneBreakpoint in
  (_setSourceBreakpointsForPath session "/a.c" (Some 0%nat) d).1
  = Throw (TypeError "Cannot read property 'id' of undefined").
Proof. by vm_compute. Qed.

(** A stop at a breakpoint that the collection does not know: the second
    lookup, in [_disableBreakpointIfOneShot], is not guarded, and the
    handler ends there. *)
Example stop_at_unknown_breakpoint :
  let d := engine RUNNING quietSession BreakpointCollection.empty in
  _onStopped (fun _ => mret None) (mret tt) stoppedAt5 d
  = (Throw NotFound,
     with_log [console_outputLine
                 ("Debugger stopped at unrecognized breakpoint -- " +:+
                  "current breakpoint will not be valid.")] d).
Proof. by vm_compute. Qed.

(** * Further properties of the engine *)

(** ** Deleting one breakpoint *)

Lemma find_hasIndex_delete (i j : nat) (l : list Breakpoint.t) :
  List.find (BreakpointCollection.hasIndex j)
    (List.filter (fun b => negb (BreakpointCollection.hasIndex i b)) l)
  = if bool_decide (i = j) then None
    else List.find (BreakpointCollection.hasIndex j) l.
Proof.
  unfold BreakpointCollection.hasIndex.
  induction l as [|b l IH]; simpl; [by case_bool_decide|].
  destruct (decide (Breakpoint.index b = i)) as [Hi|Hi].
  - rewrite (bool_decide_eq_true_2 _ Hi). simpl. rewrite IH.
    repeat case_bool_decide; congruence.
  - rewrite (bool_decide_eq_false_2 _ Hi). simpl. rewrite IH.
    repeat case_bool_decide; congruence.
Qed.

Lemma getBreakpointByIndex_delete (i j : nat) (c : BreakpointCollection.t) :
  BreakpointCollection.getBreakpointByIndex j
    (BreakpointCollection.deleteBreakpoint i c)
  = if bool_decide (i = j) then None
    else BreakpointCollection.getBreakpointByIndex j c.
Proof. apply find_hasIndex_delete. Qed.

Lemma getBreakpointByIndex_Some (i : nat) (d : Debugger) bp :
  BreakpointCollection.getBreakpointByIndex i (_breakpoints d) = Some bp ->
  getBreakpointByIndex i d = (Return bp, d).
Proof. intros H. unfold getBreakpointByIndex. step. by rewrite H. Qed.

(** The state and the log that [deleteBreakpoint] leaves. *)
Lemma deleteBreakpoint_state (d : Debugger) (session : VsDebugSession)
    (breakpoint : nat) (bp : Breakpoint.t) :
  let c' := BreakpointCollection.deleteBreakpoint breakpoint (_breakpoints d) in
  _ensureDebugSession false d = (Return session, d) ->
  BreakpointCollection.getBreakpointByIndex breakpoint (_breakpoints d) = Some bp ->
  (deleteBreakpoint breakpoint d).2
  = with_breakpoints c'
      (with_log
         (log d
          ++ match Breakpoint.path bp with
             | Some path =>
                 [session_setBreakpoints path
                    (BreakpointCollection.s_line
                     <$> BreakpointCollection.getAllEnabledBreakpointsForSource
                           path c')]
             | None => []
             end) d).
Proof.
  intros c' Hs Hbp. unfold deleteBreakpoint.
  rewrite (bind_Return _ _ _ _ _ Hs).
  rewrite (bind_Return _ _ _ _ _ (getBreakpointByIndex_Some _ _ _ Hbp)).
  destruct (getBreakpointByIndex_index _ _ _ Hbp) as [-> _]. step. fold c'.
  destruct (Breakpoint.path bp) as [path|].
  - step. rewrite (bind_snd_mret _ (fun _ => tt)). unfold request. simpl.
    by destruct (setBreakpoints session (log d) path _).
  - simpl. rewrite app_nil_r. by destruct d.
Qed.

(** X1: [deleteBreakpoint] removes the breakpoint from the collection
    whatever the adapter answers - a rejected request is thrown, and the
    breakpoint stays deleted - and leaves every other breakpoint as it was.
    For a breakpoint with a path it sends one [setBreakpoints] request for
    that path, with the lines of the enabled breakpoints that remain; for a
    function breakpoint that was never resolved it sends nothing. *)
Theorem deleteBreakpoint_deletes (d : Debugger) (session : VsDebugSession)
    (breakpoint : nat) (bp : Breakpoint.t) :
  let d' := (deleteBreakpoint breakpoint d).2 in
  _ensureDebugSession false d = (Return session, d) ->
  BreakpointCollection.getBreakpointByIndex breakpoint (_breakpoints d) = Some bp ->
  BreakpointCollection.getBreakpointByIndex breakpoint (_breakpoints d') = None
  /\ (forall j, j <> breakpoint ->
        BreakpointCollection.getBreakpointByIndex j (_breakpoints d')
        = BreakpointCollection.getBreakpointByIndex j (_breakpoints d))
  /\ log d'
     = log d
       ++ match Breakpoint.path bp with
          | Some path =>
              [session_setBreakpoints path
                 (BreakpointCollection.s_line
                  <$> BreakpointCollection.getAllEnabledBreakpointsForSource
                        path (_breakpoints d'))]
          | None => []
          end
  /\ (forall path lines err,
        Breakpoint.path bp = Some path ->
        lines = BreakpointCollection.s_line
                <$> BreakpointCollection.getAllEnabledBreakpointsForSource
                      path (_breakpoints d') ->
        setBreakpoints session (log d) path lines = inl err ->
        (deleteBreakpoint breakpoint d).1 = Throw err).
Proof.
  intros d' Hs Hbp. unfold d'.
  rewrite (deleteBreakpoint_state d session breakpoint bp Hs Hbp). simpl.
  split; [|split; [|split]].
  - rewrite getBreakpointByIndex_delete. by rewrite bool_decide_eq_true_2.
  - intros j Hj. rewrite getBreakpointByIndex_delete.
    by rewrite bool_decide_eq_false_2.
  - done.
  - intros path lines err Hpath -> Hrej. unfold deleteBreakpoint.
    rewrite (bind_Return _ _ _ _ _ Hs).
    rewrite (bind_Return _ _ _ _ _ (getBreakpointByIndex_Some _ _ _ Hbp)).
    destruct (getBreakpointByIndex_index _ _ _ Hbp) as [-> _]. step.
    rewrite Hpath. step.
    by rewrite (bind_request_inl _ _ _ _ err).
Qed.

Lemma deleteBreakpoint_deletes_witness :
  let d := engine RUNNING
             (stubSession allCapabilities (inl (Rejected "no")) (inr []))
             threeBreakpoints in
  (deleteBreakpoint 0 d).1 = Throw (Rejected "no")
  /\ BreakpointCollection.getBreakpointByIndex 0
       (_breakpoints (deleteBreakpoint 0 d).2) = None
  /\ log (deleteBreakpoint 0 d).2 = [session_setBreakpoints "/a.c" []].
Proof.
  intros d.
  destruct (deleteBreakpoint_deletes d
              (stubSession allCapabilities (inl (Rejected "no")) (inr []))
              0%nat
              (Breakpoint.mk 0 None false Breakpoint.ENABLED None
                 (Breakpoint.Source "/a.c" 7))
              eq_refl eq_refl) as (Hgone & _ & Hlog & Hthrow).
  split; [|split; [exact Hgone|exact Hlog]].
  exact (Hthrow "/a.c" [] (Rejected "no") eq_refl eq_refl eq_refl).
Defined.

(** ** Deleting all breakpoints *)







(** ** Adding a breakpoint and deleting it again *)

(** Two lists of breakpoints with, place by place, the same indices and
    the same views as enabled source breakpoints. *)
Lemma update_sameSources (i : nat) g (l : list Breakpoint.t) :
  keepsIndex g ->
  (forall b, BreakpointCollection.asSource (g b) = BreakpointCollection.asSource b) ->
  Forall2 (fun b b' => Breakpoint.index b' = Breakpoint.index b
                       /\ BreakpointCollection.asSource b'
                          = BreakpointCollection.asSource b)
    l (List.map (fun b => if BreakpointCollection.hasIndex i b then g b else b) l).
Proof.
  intros Hi Hs. induction l as [|b l IH]; simpl; constructor; [|done].
  by destruct (BreakpointCollection.hasIndex i b).
Qed.

Lemma reconcile_asSource (s : SourceBreakpoint) remote b :
  BreakpointCollection.asSource (reconcile (inl s) remote b)
  = BreakpointCollection.asSource b.
Proof.
  unfold reconcile. simpl.
  by destruct (DebugProtocol.id remote), (DebugProtocol.verified remote).
Qed.

Lemma reconcileAll_sameSources ps c :
  Forall2 (fun b b' => Breakpoint.index b' = Breakpoint.index b
                       /\ BreakpointCollection.asSource b'
                          = BreakpointCollection.asSource b)
    (BreakpointCollection.breakpoints c)
    (BreakpointCollection.breakpoints
       (reconcileAll (inl : SourceBreakpoint -> LocalBreakpoint) ps c)).
Proof.
  revert c. induction ps as [|[local [remote|]] ps IH]; intros c; simpl.
  - apply Forall_Forall2_diag, Forall_forall. by intros b _.
  - pose proof (IH (BreakpointCollection.update (BreakpointCollection.s_index local)
                      (reconcile (inl local) remote) c)) as Hrest.
    pose proof (update_sameSources (BreakpointCollection.s_index local)
                  (reconcile (inl local) remote)
                  (BreakpointCollection.breakpoints c)
                  (reconcile_index _ _) (reconcile_asSource _ _)) as Hhead.
    eapply Forall2_trans; [|exact Hhead|exact Hrest].
    intros b1 b2 b3 [? ?] [? ?]. split; congruence.
  - apply Forall_Forall2_diag, Forall_forall. by intros b _.
Qed.

Lemma sameSources_delete (i : nat) (l l' : list Breakpoint.t) :
  Forall2 (fun b b' => Breakpoint.index b' = Breakpoint.index b
                       /\ BreakpointCollection.asSource b'
                          = BreakpointCollection.asSource b) l l' ->
  omap BreakpointCollection.asSource
    (List.filter (fun b => negb (BreakpointCollection.hasIndex i b)) l')
  = omap BreakpointCollection.asSource
      (List.filter (fun b => negb (BreakpointCollection.hasIndex i b)) l).
Proof.
  unfold BreakpointCollection.hasIndex.
  induction 1 as [|b b' l l' [Hi Hs] _ IH]; [done|]. simpl. rewrite Hi.
  destruct (bool_decide (Breakpoint.index b = i)); simpl; [done|].
  rewrite Hs. unfold omap in IH. by rewrite IH.
Qed.

Lemma filter_below (n : nat) (l : list Breakpoint.t) :
  Forall (fun i => (i < n)%nat) (Breakpoint.index <$> l) ->
  List.filter (fun b => negb (BreakpointCollection.hasIndex n b)) l = l.
Proof.
  induction l as [|b l IH]; [done|]. simpl.
  intros [Hb Hl]%Forall_cons. unfold BreakpointCollection.hasIndex at 1.
  rewrite bool_decide_eq_false_2 by lia. simpl. by rewrite IH.
Qed.

Lemma setSourceBreakpoint_run (d : Debugger) (session : VsDebugSession)
    path line once :
  let added :=
    BreakpointCollection.addSourceBreakpoint path line once (_breakpoints d) in
  _debugSession d = Some session ->
  once && negb (BreakpointCollection.supportsOnceState (_breakpoints d)) = false ->
  setSourceBreakpoint path line once d
  = (if bool_decide (_state d ≠ CONFIGURING)
     then
       breakpoint ← _setSourceBreakpointsForPath session path (Some added.1);
       mret (mkBreakpointSetResult added.1 (breakpoint ≫= DebugProtocol.message))
     else mret (mkBreakpointSetResult added.1 (Some pending)))
      (with_breakpoints added.2 d).
Proof.
  intros added Hs Hguard. unfold setSourceBreakpoint. step. rewrite Hguard. step.
  rewrite (bind_Return _ _ _ _ _ (_ensureDebugSession_allowed d session Hs)).
  rewrite (bind_Return _ _ d (with_breakpoints added.2 d) added.1 eq_refl).
  by step.
Qed.

Lemma _ensureDebugSession_running (d : Debugger) (session : VsDebugSession) :
  _ensureDebugSession false d = (Return session, d) ->
  _debugSession d = Some session
  /\ _state d <> INITIALIZING /\ _state d <> CONFIGURING.
Proof.
  rewrite _ensureDebugSession_eq.
  destruct (_debugSession d) as [session'|]; [|done].
  destruct (_state d); simpl; intros [= ->]; by repeat split.
Qed.

(** X3: with a running session, a source breakpoint that
    [setSourceBreakpoint] has set and [deleteBreakpoint] then deletes
    leaves, for every path, the list of enabled breakpoints that the
    collection had before the two calls - whatever the adapter answers to
    the second. *)
Theorem add_delete_round_trip (d d1 : Debugger) (session : VsDebugSession)
    path line once (result : BreakpointSetResult) :
  wellFormed (_breakpoints d) ->
  _ensureDebugSession false d = (Return session, d) ->
  setSourceBreakpoint path line once d = (Return result, d1) ->
  forall path',
    BreakpointCollection.getAllEnabledBreakpointsForSource path'
      (_breakpoints (deleteBreakpoint (r_index result) d1).2)
    = BreakpointCollection.getAllEnabledBreakpointsForSource path'
        (_breakpoints d).
Proof.
  intros Hwf Hs Hset path'.
  destruct (_ensureDebugSession_running d session Hs) as (Hsession & _ & Hconf).
  set (c := _breakpoints d) in *.
  set (added := BreakpointCollection.addSourceBreakpoint path line once c).
  destruct (once && negb (BreakpointCollection.supportsOnceState c)) eqn:Hguard.
  { revert Hset. unfold setSourceBreakpoint. step. fold c. rewrite Hguard.
    rewrite bind_assoc. by do 2 step. }
  rewrite (setSourceBreakpoint_run d session path line once Hsession Hguard)
    in Hset.
  rewrite bool_decide_eq_true_2 in Hset by done. fold c added in Hset.
  set (d0 := with_breakpoints added.2 d) in *.
  set (locals := BreakpointCollection.getAllEnabledBreakpointsForSource path
                   added.2).
  destruct (setBreakpoints session (log d0) path
              (BreakpointCollection.s_line <$> locals)) as [err|remotes] eqn:Hans.
  { by rewrite (bind_Throw _ _ _ _ _
                  (_setSourceBreakpointsForPath_rejected session d0 path _ err
                     Hans)) in Hset. }
  destruct (_setSourceBreakpointsForPath_answered session d0 path
              (Some added.1) remotes Hans) as [Hstate _].
  assert (d1 = with_breakpoints (reconcileAll inl (paired locals remotes) added.2)
                 (with_log (log d0 ++ [session_setBreakpoints path
                                         (BreakpointCollection.s_line <$> locals)])
                    d0)
          /\ r_index result = added.1) as [-> ->].
  { revert Hset. unfold mbind, M_bind.
    destruct (_setSourceBreakpointsForPath session path (Some added.1) d0)
      as [[found|e|code] d'']; [|done..].
    unfold mret, M_ret. intros [= <- <-]. split; [exact Hstate|done]. }
  set (c2 := reconcileAll inl (paired locals remotes) added.2).
  set (d2 := with_breakpoints c2 _).
  assert (is_Some (BreakpointCollection.getBreakpointByIndex added.1 c2))
    as [bp Hbp].
  { apply (fmap_is_Some Breakpoint.state). unfold c2.
    rewrite reconcileAll_state_at. apply fmap_is_Some.
    exists (Breakpoint.mk (BreakpointCollection.nextIndex c) None false
              (BreakpointCollection.initialState once c) None
              (Breakpoint.Source path line)).
    apply (getBreakpointByIndex_elem added.2
             (Breakpoint.mk (BreakpointCollection.nextIndex c) None false
                (BreakpointCollection.initialState once c) None
                (Breakpoint.Source path line))).
    - by apply wellFormed_unique, wellFormed_addSourceBreakpoint.
    - simpl. apply elem_of_app. right. apply list_elem_of_here. }
  rewrite (deleteBreakpoint_state d2 session added.1 bp);
    [|by apply _ensureDebugSession_with_breakpoints,
         _ensureDebugSession_with_log,
         _ensureDebugSession_with_breakpoints|done].
  unfold BreakpointCollection.getAllEnabledBreakpointsForSource,
    BreakpointCollection.enabledSources. simpl. f_equal.
  rewrite (sameSources_delete _ (BreakpointCollection.breakpoints added.2))
    by apply reconcileAll_sameSources.
  simpl. rewrite List.filter_app. simpl.
  unfold BreakpointCollection.hasIndex at 2. simpl.
  rewrite bool_decide_eq_true_2 by done. simpl. rewrite app_nil_r.
  rewrite filter_below; [done|]. by destruct Hwf.
Qed.

Lemma add_delete_round_trip_witness :
  let session := stubSession allCapabilities (inr [verified42]) (inr []) in
  let d := engine RUNNING session BreakpointCollection.empty in
  let d1 := (setSourceBreakpoint "/a.c" 7 false d).2 in
  BreakpointCollection.getAllEnabledBreakpointsForSource "/a.c"
    (_breakpoints (deleteBreakpoint 0 d1).2) = [].
Proof.
  intros session d d1.
  exact (add_delete_round_trip d d1 session "/a.c" 7 false
           (mkBreakpointSetResult 0 None) wellFormed_empty eq_refl eq_refl
           "/a.c").
Defined.

(** ** Breakpoint events *)

Lemma getBreakpointById_update (i : nat) (n : Z) g (c : BreakpointCollection.t) :
  (forall b, Breakpoint.id (g b) = Breakpoint.id b) ->
  BreakpointCollection.getBreakpointById n (BreakpointCollection.update i g c)
  = (fun b => if BreakpointCollection.hasIndex i b then g b else b)
    <$> BreakpointCollection.getBreakpointById n c.
Proof.
  intros Hg. unfold BreakpointCollection.getBreakpointById,
    BreakpointCollection.update. simpl.
  induction (BreakpointCollection.breakpoints c) as [|b l IH]; [done|]. simpl.
  assert (BreakpointCollection.hasId n
            (if BreakpointCollection.hasIndex i b then g b else b)
          = BreakpointCollection.hasId n b) as ->.
  { unfold BreakpointCollection.hasId.
    destruct (BreakpointCollection.hasIndex i b); [by rewrite Hg|done]. }
  by destruct (BreakpointCollection.hasId n b).
Qed.

(** X4: a breakpoint event never throws.  An event of reason "new" or
    "changed" that carries the [id] of a breakpoint of the collection sets
    the [verified] flag of that breakpoint to the event's and changes
    nothing else: the breakpoint found by that [id] afterwards is the one
    found before with only its flag set, the breakpoint at any other index
    is as it was, its [verified] flag included, the rest of the engine is
    untouched and nothing is logged.  If no breakpoint has that [id], the
    only effect is the line "Failed to verify breakpoint." on the console.
    Any other event - another reason, or no [id] - changes nothing.  In
    all cases every breakpoint keeps its index, id, state, message and
    kind. *)
Theorem _onBreakpointEvent_verifies (event : BreakpointEvent) (d : Debugger) :
  let c := _breakpoints d in
  let r := _onBreakpointEvent event d in
  r.1 = Return tt
  /\ (forall j,
        (fun b => (Breakpoint.index b, Breakpoint.id b, Breakpoint.state b,
                   Breakpoint.message b, Breakpoint.kind b))
        <$> BreakpointCollection.getBreakpointByIndex j (_breakpoints r.2)
        = (fun b => (Breakpoint.index b, Breakpoint.id b, Breakpoint.state b,
                     Breakpoint.message b, Breakpoint.kind b))
          <$> BreakpointCollection.getBreakpointByIndex j c)
  /\ match be_id event with
     | Some id =>
         if bool_decide (be_reason event = "new")
            || bool_decide (be_reason event = "changed")
         then
           match BreakpointCollection.getBreakpointById id c with
           | Some bpt =>
               r.2 = with_breakpoints
                       (BreakpointCollection.update (Breakpoint.index bpt)
                          (Breakpoint.setVerified (be_verified event)) c) d
               /\ BreakpointCollection.getBreakpointById id (_breakpoints r.2)
                  = Some (Breakpoint.setVerified (be_verified event) bpt)
               /\ (forall j,
                     j <> Breakpoint.index bpt ->
                     BreakpointCollection.getBreakpointByIndex j
                       (_breakpoints r.2)
                     = BreakpointCollection.getBreakpointByIndex j c)
               /\ Breakpoint.verified
                  <$> BreakpointCollection.getBreakpointById id (_breakpoints r.2)
                  = Some (be_verified event)
               /\ log r.2 = log d
           | None =>
               r.2 = with_log
                       (log d ++ [console_outputLine "Failed to verify breakpoint."])
                       d
           end
         else r.2 = d
     | None => r.2 = d
     end.
Proof.
  intros c r.
  assert (r = match be_id event with
              | Some id =>
                  if bool_decide (be_reason event = "new")
                     || bool_decide (be_reason event = "changed")
                  then
                    match BreakpointCollection.getBreakpointById id c with
                    | Some bpt =>
                        (Return tt,
                         with_breakpoints
                           (BreakpointCollection.update (Breakpoint.index bpt)
                              (Breakpoint.setVerified (be_verified event)) c) d)
                    | None =>
                        (Return tt,
                         with_log
                           (log d ++ [console_outputLine
                                        "Failed to verify breakpoint."]) d)
                    end
                  else (Return tt, d)
              | None => (Return tt, d)
              end) as ->.
  { unfold r, _onBreakpointEvent.
    destruct (be_id event) as [id|]; [|done].
    destruct (_ || _); [|done].
    unfold try_catch, getBreakpointById. rewrite bind_assoc. step. fold c.
    destruct (BreakpointCollection.getBreakpointById id c); by step. }
  destruct (be_id event) as [id|]; [|done].
  destruct (_ || _); [|done].
  destruct (BreakpointCollection.getBreakpointById id c) as [bpt|] eqn:Hbpt;
    [|done].
  assert (BreakpointCollection.getBreakpointById id
            (BreakpointCollection.update (Breakpoint.index bpt)
               (Breakpoint.setVerified (be_verified event)) c)
          = Some (Breakpoint.setVerified (be_verified event) bpt)) as Hfound.
  { rewrite getBreakpointById_update by done. rewrite Hbpt. simpl.
    unfold BreakpointCollection.hasIndex.
    by rewrite bool_decide_eq_true_2. }
  simpl. split; [done|]. split; [|split_and!; [done|done| |by rewrite Hfound|done]].
  - intros j. rewrite getBreakpointByIndex_update by done.
    destruct (BreakpointCollection.getBreakpointByIndex j c) as [b|]; [|done].
    simpl. by destruct (bool_decide _).
  - intros j Hj. rewrite getBreakpointByIndex_update by done.
    rewrite bool_decide_eq_false_2 by done.
    by destruct (BreakpointCollection.getBreakpointByIndex j c).
Qed.

Lemma _onBreakpointEvent_verifies_witness :
  let c := BreakpointCollection.mk
             [Breakpoint.mk 0 (Some 42%Z) false Breakpoint.ENABLED None
                (Breakpoint.Source "/a.c" 7);
              Breakpoint.mk 1 (Some 43%Z) false Breakpoint.ENABLED None
                (Breakpoint.Source "/a.c" 9)] 2 false in
  let d := engine STOPPED quietSession c in
  let r := _onBreakpointEvent (mkBreakpointEvent "changed" (Some 42%Z) true) d in
  Breakpoint.verified
  <$> BreakpointCollection.getBreakpointById 42 (_breakpoints r.2) = Some true
  /\ Breakpoint.verified
     <$> BreakpointCollection.getBreakpointByIndex 1 (_breakpoints r.2)
     = Some false.
Proof.
  intros c d r.
  pose proof (_onBreakpointEvent_verifies
                (mkBreakpointEvent "changed" (Some 42%Z) true) d)
    as (_ & _ & _ & _ & Hothers & Hverified & _).
  split; [exact Hverified|].
  fold r in Hothers. by rewrite (Hothers 1%nat).
Defined.

(** ** Source lines *)

Lemma slice_window {A} (l : list A) (start length : Z) :
  (1 <= start)%Z -> (0 <= length)%Z ->
  (start <= Z.of_nat (List.length l))%Z ->
  slice l (start - 1)
    (Z.min (start + length - 1) (Z.of_nat (List.length l)))
  = take (Z.to_nat length) (drop (Z.to_nat (start - 1)) l).
Proof.
  intros Hs Hl Hlen. unfold slice.
  destruct (Z.ltb_spec (start - 1) 0) as [?|_]; [lia|].
  destruct (Z.ltb_spec (Z.min (start + length - 1) (Z.of_nat (List.length l))) 0)
    as [?|_]; [lia|].
  rewrite (Z.min_l (start - 1)) by lia.
  rewrite (Z.min_l (Z.min _ _)) by lia.
  destruct (Z.le_ge_cases (start + length - 1) (Z.of_nat (List.length l))).
  - rewrite Z.min_l by done. f_equal. lia.
  - rewrite Z.min_r by done.
    rewrite !take_ge; [done| |]; rewrite length_drop; lia.
Qed.

(** X5: [getSourceLines(source, start, length)], for a line number
    [start] from 1 on and a [length] that is not negative, returns the
    [length] lines of the text that begin at line [start]: fewer where
    the text ends before, none where it ends before line [start]. *)
Theorem getSourceLines_window
    (getFileDataBySourceReference : Z -> M (list string))
    (getFileDataByPath : string -> M (list string))
    (source : DebugProtocol.Source) (start length : Z)
    (lines : list string) (d d' : Debugger) :
  readSource getFileDataBySourceReference getFileDataByPath source d
  = (Return lines, d') ->
  (1 <= start)%Z -> (0 <= length)%Z ->
  getSourceLines getFileDataBySourceReference getFileDataByPath
    source start length d
  = (Return (take (Z.to_nat length) (drop (Z.to_nat (start - 1)) lines)), d').
Proof.
  intros Hread Hs Hl. unfold getSourceLines.
  rewrite (bind_Return _ _ _ _ _ Hread).
  destruct (Z.ltb_spec (Z.of_nat (List.length lines)) start) as [Hlt|Hge].
  - rewrite drop_ge by lia. by rewrite take_nil.
  - by rewrite slice_window.
Qed.

Lemma getSourceLines_window_witness :
  getSourceLines (fun _ => mret []) (fun _ => mret ["a"; "b"; "c"; "d"])
    (DebugProtocol.mkSource None (Some "/a.c") (Some 0)) 2 2
    (engine STOPPED quietSession BreakpointCollection.empty)
  = (Return ["b"; "c"], engine STOPPED quietSession BreakpointCollection.empty).
Proof.
  apply (getSourceLines_window _ _ _ 2 2 ["a"; "b"; "c"; "d"]);
    [reflexivity|lia|lia].
Defined.

(** ** What the breakpoint commands leave alone *)

Section Frame.

Context (R : relation Debugger) (HR : Frame R).

Lemma ensures_weaken {A} (P Q : A -> Prop) (m : M A) :
  (forall a, P a -> Q a) -> ensures R P m -> ensures R Q m.
Proof.
  intros HPQ Hm d. destruct (Hm d) as (? & ? & HP). eauto.
Qed.

Lemma ensures_keeps {A} (P : A -> Prop) (m : M A) :
  ensures R P m -> keeps R m.
Proof. by apply ensures_weaken. Qed.

Lemma ensures_pure {A} (P : A -> Prop) (m : M A) :
  (forall d, (m d).2 = d) ->
  (forall d code, (m d).1 <> Exit code) ->
  (forall d a, (m d).1 = Return a -> P a) ->
  ensures R P m.
Proof.
  intros H2 H1 HP d. rewrite H2. split; [apply HR|]. split; [apply H1|apply HP].
Qed.

Lemma ensures_mret {A} (P : A -> Prop) (a : A) : P a -> ensures R P (mret a).
Proof.
  intros Ha. apply ensures_pure; [done..|]. intros d a' [= <-]. done.
Qed.

Lemma ensures_throw {A} (P : A -> Prop) (e : Exn) : ensures R P (throw e).
Proof. by apply ensures_pure. Qed.

Lemma keeps_gets {A} (f : Debugger -> A) : keeps R (gets f).
Proof. by apply ensures_pure. Qed.

Lemma ensures_bind {A B} (P : A -> Prop) (Q : B -> Prop) (m : M A)
    (k : A -> M B) :
  ensures R P m -> (forall a, P a -> ensures R Q (k a)) ->
  ensures R Q (m ≫= k).
Proof.
  intros Hm Hk d. destruct (Hm d) as (HRm & Hne & HP).
  unfold mbind, M_bind. destruct (m d) as [[a|e|code] d1]; simpl in *.
  - destruct (Hk a (HP a eq_refl) d1) as (HRk & ? & ?).
    split; [by eapply (frame_trans R HR)|done].
  - done.
  - by destruct (Hne code).
Qed.

Lemma keeps_bind {A B} (Q : B -> Prop) (m : M A) (k : A -> M B) :
  keeps R m -> (forall a, ensures R Q (k a)) -> ensures R Q (m ≫= k).
Proof. intros Hm Hk. eapply ensures_bind; [exact Hm|]. intros a _. apply Hk. Qed.

Lemma ensures_try_catch {A} (P : A -> Prop) (m : M A) (h : Exn -> M A) :
  ensures R P m -> (forall e, ensures R P (h e)) ->
  ensures R P (try_catch m h).
Proof.
  intros Hm Hh d. destruct (Hm d) as (HRm & Hne & HP).
  unfold try_catch. destruct (m d) as [[a|e|code] d1]; simpl in *; [done| |done].
  destruct (Hh e d1) as (HRh & ? & ?).
  split; [by eapply (frame_trans R HR)|done].
Qed.

Lemma keeps_modify (f : Debugger -> Debugger) :
  (forall d, R d (f d)) -> keeps R (modify f).
Proof. intros Hf d. by split; [apply Hf|]. Qed.

Lemma keeps_request {A} (e : Effect) (answer : list Effect -> Response A) :
  (forall d, R d (with_log (log d ++ [e]) d)) -> keeps R (request e answer).
Proof.
  intros He d. unfold request. specialize (He d).
  by destruct (answer (log d)).
Qed.

Lemma keeps_send {A} (e : Effect) (answer : list Effect -> Response A) :
  (forall d, R d (with_log (log d ++ [e]) d)) -> keeps R (send e answer).
Proof. intros He d. by split; [apply He|]. Qed.

Lemma keeps_settle {A} (r : Response A) : keeps R (settle r).
Proof. destruct r; [apply ensures_throw|by apply ensures_mret]. Qed.

Lemma ensures_mapM {A B} (P : B -> Prop) (f : A -> M B) (l : list A) :
  (forall a, ensures R P (f a)) -> ensures R (Forall P) (mapM (M:=M) f l).
Proof.
  intros Hf. induction l as [|x l IH]; [by apply ensures_mret|].
  intros d. rewrite mapM_cons. revert d.
  eapply ensures_bind; [apply Hf|]. intros y Hy.
  eapply ensures_bind; [apply IH|]. intros k Hk.
  apply ensures_mret. by constructor.
Qed.

Lemma keeps_Promise_all (ps : list (M unit)) :
  Forall (keeps R) ps -> keeps R (Promise_all ps).
Proof.
  induction 1 as [|p ps Hp _ IH]; [by apply ensures_mret|].
  intros d. simpl. destruct (Hp d) as (HRp & Hne & _).
  destruct (p d) as [[[]|e|code] d1]; simpl in *.
  - destruct (IH d1) as (HRk & ? & ?).
    split; [by eapply (frame_trans R HR)|done].
  - destruct (IH d1) as (HRk & Hne' & _).
    destruct (Promise_all ps d1) as [[[]|e'|code] d2]; simpl in *;
      (split; [by eapply (frame_trans R HR)|done]).
  - by destruct (Hne code).
Qed.

Lemma ensures_async {A} (m : M (M A)) :
  ensures R (keeps R) m -> ensures R (keeps R) (async m).
Proof.
  intros Hm. apply ensures_try_catch; [done|].
  intros e. apply ensures_mret, ensures_throw.
Qed.

Lemma keeps_await {A} (a : Async A) :
  ensures R (keeps R) a -> keeps R (await a).
Proof. intros Ha. eapply ensures_bind; [exact Ha|]. by intros k Hk. Qed.

(** The engine's methods, one by one. *)

Lemma keeps_emit_setBreakpoints {A} path lines
    (answer : list Effect -> Response A) :
  keeps R (request (session_setBreakpoints path lines) answer).
Proof. apply keeps_request. intros d. apply HR. Qed.

Lemma keeps_emit_setFunctionBreakpoints {A} names
    (answer : list Effect -> Response A) :
  keeps R (request (session_setFunctionBreakpoints names) answer).
Proof. apply keeps_request. intros d. apply HR. Qed.

Lemma keeps_ensureDebugSession (allowBeforeLaunch : bool) :
  keeps R (_ensureDebugSession allowBeforeLaunch).
Proof.
  apply ensures_pure;
    [apply _ensureDebugSession_state|apply _ensureDebugSession_no_exit|done].
Qed.

Lemma keeps_getBreakpointByIndex (index : nat) :
  keeps R (getBreakpointByIndex index).
Proof.
  eapply keeps_bind; [apply keeps_gets|].
  intros [b|]; [by apply ensures_mret|apply ensures_throw].
Qed.

Lemma keeps_getBreakpointById (id : Z) : keeps R (getBreakpointById id).
Proof.
  eapply keeps_bind; [apply keeps_gets|].
  intros [b|]; [by apply ensures_mret|apply ensures_throw].
Qed.

Lemma keeps_onBreakpoint (i : nat) (g : Breakpoint.t -> Breakpoint.t) :
  keepsIndex g -> keeps R (onBreakpoint i g).
Proof. intros Hg. apply keeps_modify. intros d. by apply HR. Qed.

Lemma keeps_updateAll (g : Breakpoint.t -> Breakpoint.t) :
  keepsIndex g -> keeps R (onBreakpoints (BreakpointCollection.updateAll g)).
Proof. intros Hg. apply keeps_modify. intros d. by apply HR. Qed.

Ltac frame :=
  repeat first
    [ apply ensures_throw
    | apply ensures_mret; done
    | apply keeps_gets
    | apply keeps_settle
    | apply keeps_ensureDebugSession
    | apply keeps_getBreakpointByIndex
    | apply keeps_getBreakpointById
    | apply keeps_emit_setBreakpoints
    | apply keeps_emit_setFunctionBreakpoints
    | apply keeps_onBreakpoint; done
    | apply keeps_updateAll; done
    | apply ensures_try_catch; [|intros ?]
    | eapply ensures_bind; [|intros ? ?] ].

Lemma keeps_updateBreakpoint local remote :
  keeps R (_updateBreakpoint local remote).
Proof.
  unfold _updateBreakpoint. destruct remote as [remote|]; [|frame].
  assert (forall i g, keepsIndex g ->
            keeps R (onBreakpoints (BreakpointCollection.update i g))) as Hupd.
  { intros i g Hg. apply keeps_modify. intros d. by apply HR. }
  eapply keeps_bind.
  { destruct (DebugProtocol.id remote) as [id|]; [|by apply Hupd].
    eapply keeps_bind; [by apply Hupd|]. intros _.
    destruct (DebugProtocol.verified remote); [by apply Hupd|frame]. }
  intros _. eapply keeps_bind.
  { destruct (local_func local), (DebugProtocol.source remote) as [source|];
      try (by apply ensures_mret).
    destruct (DebugProtocol.path source), (DebugProtocol.line remote);
      try (by apply ensures_mret).
    by apply Hupd. }
  intros _. destruct (_ && _); by apply ensures_mret.
Qed.

Lemma keeps_updatePaired {A} (inj : A -> LocalBreakpoint) ps :
  keeps R (updatePaired inj ps).
Proof.
  eapply ensures_keeps, ensures_mapM. intros p.
  eapply keeps_bind; [apply keeps_updateBreakpoint|]. intros remote.
  by apply (ensures_mret (fun _ => True)).
Qed.

Lemma keeps_setSourceBreakpointsForPath session path indexOfInterest :
  keeps R (_setSourceBreakpointsForPath session path indexOfInterest).
Proof.
  unfold _setSourceBreakpointsForPath. frame. apply keeps_updatePaired.
Qed.

Lemma keeps_setFunctionBreakpoints session indexOfInterest :
  keeps R (_setFunctionBreakpoints session indexOfInterest).
Proof.
  unfold _setFunctionBreakpoints. frame. apply keeps_updatePaired.
Qed.

Lemma keeps_resume {A} (inj : A -> LocalBreakpoint) locals response :
  keeps R (resume inj locals response).
Proof. unfold resume. frame. apply keeps_updatePaired. Qed.

Lemma ensures_resetAllFunctionBreakpoints :
  ensures R (keeps R) _resetAllFunctionBreakpoints.
Proof.
  apply ensures_async.
  eapply keeps_bind; [apply keeps_ensureDebugSession|]. intros session.
  eapply keeps_bind; [apply keeps_gets|]. intros funcBreakpoints.
  destruct (_ || _).
  - apply ensures_mret. by apply ensures_mret.
  - eapply keeps_bind; [apply keeps_send; intros d; apply HR|].
    intros response. apply ensures_mret, keeps_resume.
Qed.

Lemma ensures_resetSourceBreakpoints session entry :
  ensures R (keeps R) (resetSourceBreakpoints session entry).
Proof.
  destruct entry as [path breakpointLines]. apply ensures_async.
  eapply keeps_bind; [apply keeps_send; intros d; apply HR|].
  intros response. apply ensures_mret, keeps_resume.
Qed.

Lemma keeps_resetAllBreakpoints : keeps R _resetAllBreakpoints.
Proof.
  unfold _resetAllBreakpoints.
  eapply keeps_bind; [apply keeps_ensureDebugSession|]. intros session.
  eapply keeps_bind; [apply keeps_gets|]. intros sourceBreakpoints.
  eapply ensures_bind;
    [apply ensures_mapM, ensures_resetSourceBreakpoints|].
  intros sourceBreakpointSets Hsets.
  eapply ensures_bind; [apply ensures_resetAllFunctionBreakpoints|].
  intros functionBreakpointSet Hset.
  apply keeps_Promise_all, Forall_app. split; [done|].
  constructor; [done|constructor].
Qed.

Lemma keeps_setSourceBreakpoint path line once :
  keeps R (setSourceBreakpoint path line once).
Proof.
  unfold setSourceBreakpoint.
  eapply keeps_bind; [apply keeps_gets|]. intros supportsOnceState.
  eapply keeps_bind; [destruct (_ && _); frame|]. intros _.
  eapply keeps_bind; [apply keeps_ensureDebugSession|]. intros session.
  eapply keeps_bind; [intros d; by split; [apply HR|]|]. intros index.
  eapply keeps_bind; [apply keeps_gets|]. intros state.
  destruct (bool_decide _); [|by apply ensures_mret].
  eapply keeps_bind; [apply keeps_setSourceBreakpointsForPath|].
  intros breakpoint. by apply ensures_mret.
Qed.

Lemma keeps_setFunctionBreakpoint func once :
  keeps R (setFunctionBreakpoint func once).
Proof.
  unfold setFunctionBreakpoint.
  eapply keeps_bind; [apply keeps_ensureDebugSession|]. intros session.
  eapply keeps_bind; [destruct (negb _); frame|]. intros _.
  eapply keeps_bind; [apply keeps_gets|]. intros supportsOnceState.
  eapply keeps_bind; [destruct (_ && _); frame|]. intros _.
  eapply keeps_bind; [intros d; by split; [apply HR|]|]. intros index.
  eapply keeps_bind; [apply keeps_gets|]. intros state.
  destruct (bool_decide _); [|by apply ensures_mret].
  eapply keeps_bind; [apply keeps_setFunctionBreakpoints|].
  intros breakpoint. by apply ensures_mret.
Qed.

Lemma keeps_setAllBreakpointsEnabled enabled :
  keeps R (setAllBreakpointsEnabled enabled).
Proof.
  eapply keeps_bind; [by apply keeps_updateAll|]. intros _.
  apply keeps_resetAllBreakpoints.
Qed.

Lemma keeps_toggleAllBreakpoints : keeps R toggleAllBreakpoints.
Proof.
  eapply keeps_bind; [apply keeps_updateAll; intros b; apply toggleState_index|]. intros _.
  apply keeps_resetAllBreakpoints.
Qed.

Lemma keeps_retry session path index (breakpoint : nat) oldState :
  keeps R
    (try_catch
       (_setSourceBreakpointsForPath session path index;; mret tt)
       (fun error =>
          onBreakpoint breakpoint (Breakpoint.setState oldState);;
          throw error)).
Proof.
  apply ensures_try_catch.
  - eapply keeps_bind; [apply keeps_setSourceBreakpointsForPath|].
    intros _. by apply ensures_mret.
  - intros e. eapply keeps_bind; [by apply keeps_onBreakpoint|].
    intros _. apply ensures_throw.
Qed.

Lemma keeps_setBreakpointEnabled breakpoint enabled :
  keeps R (setBreakpointEnabled breakpoint enabled).
Proof.
  unfold setBreakpointEnabled.
  eapply keeps_bind; [apply keeps_ensureDebugSession|]. intros session.
  eapply keeps_bind; [apply keeps_getBreakpointByIndex|]. intros bp.
  destruct (bool_decide _); [by apply ensures_mret|].
  eapply keeps_bind; [by apply keeps_onBreakpoint|]. intros _.
  destruct (Breakpoint.path bp); [apply keeps_retry|].
  apply keeps_await, ensures_resetAllFunctionBreakpoints.
Qed.

Lemma keeps_toggleBreakpoint breakpoint : keeps R (toggleBreakpoint breakpoint).
Proof.
  unfold toggleBreakpoint.
  eapply keeps_bind; [apply keeps_ensureDebugSession|]. intros session.
  eapply keeps_bind; [apply keeps_getBreakpointByIndex|]. intros bp.
  eapply keeps_bind; [apply keeps_onBreakpoint; intros b; apply toggleState_index|]. intros _.
  destruct (Breakpoint.path bp); [apply keeps_retry|].
  apply keeps_await, ensures_resetAllFunctionBreakpoints.
Qed.

Lemma keeps_deleteBreakpoint breakpoint : keeps R (deleteBreakpoint breakpoint).
Proof.
  unfold deleteBreakpoint.
  eapply keeps_bind; [apply keeps_ensureDebugSession|]. intros session.
  eapply keeps_bind; [apply keeps_getBreakpointByIndex|]. intros bp.
  eapply keeps_bind; [apply keeps_modify; intros d; apply HR|]. intros _.
  destruct (Breakpoint.path bp); [|by apply ensures_mret].
  eapply keeps_bind; [apply keeps_gets|]. intros pathBreakpoints.
  eapply keeps_bind; [apply keeps_emit_setBreakpoints|]. intros _.
  by apply ensures_mret.
Qed.

Lemma keeps_deleteAllBreakpoints : keeps R deleteAllBreakpoints.
Proof.
  unfold deleteAllBreakpoints.
  eapply keeps_bind; [apply keeps_ensureDebugSession|]. intros session.
  eapply keeps_bind; [apply keeps_gets|]. intros paths.
  eapply keeps_bind.
  { eapply ensures_keeps, ensures_mapM. intros path.
    apply keeps_send. intros d. apply HR. }
  intros promises.
  eapply keeps_bind.
  { apply keeps_Promise_all, Forall_fmap, Forall_forall. intros response _.
    eapply keeps_bind; [apply keeps_settle|]. intros _. by apply ensures_mret. }
  intros _.
  eapply keeps_bind; [apply keeps_emit_setFunctionBreakpoints|]. intros _.
  apply keeps_modify. intros d. apply HR.
Qed.

Lemma keeps_disableBreakpointIfOneShot breakpointId :
  keeps R (_disableBreakpointIfOneShot breakpointId).
Proof.
  destruct breakpointId as [breakpointId|]; [|by apply ensures_mret].
  eapply keeps_bind; [apply keeps_getBreakpointById|]. intros bpt.
  destruct (bool_decide _); [|by apply ensures_mret].
  eapply keeps_bind; [by apply keeps_onBreakpoint|]. intros _.
  apply keeps_resetAllBreakpoints.
Qed.

End Frame.

Lemma onlyBreakpoints_Frame : Frame onlyBreakpoints.
Proof.
  split.
  - intros d. exists (_breakpoints d), []. split; [|done].
    rewrite app_nil_r. by destruct d.
  - intros d1 d2 d3 (c & l & -> & Hl) (c' & l' & -> & Hl').
    exists c', (l ++ l'). split; [|by rewrite forallb_app, Hl, Hl'].
    unfold with_breakpoints, with_log. simpl. by rewrite app_assoc.
  - intros d path lines. by exists (_breakpoints d), [session_setBreakpoints path lines].
  - intros d names.
    by exists (_breakpoints d), [session_setFunctionBreakpoints names].
  - intros d i g _. eexists _, []. split; [|done]. by rewrite app_nil_r.
  - intros d g _. eexists _, []. split; [|done]. by rewrite app_nil_r.
  - intros d path line once. eexists _, []. split; [|done]. by rewrite app_nil_r.
  - intros d func once. eexists _, []. split; [|done]. by rewrite app_nil_r.
  - intros d i. eexists _, []. split; [|done]. by rewrite app_nil_r.
  - intros d. eexists _, []. split; [|done]. by rewrite app_nil_r.
Qed.

Lemma keeps_changesOnlyBreakpoints {A} (m : M A) :
  keeps onlyBreakpoints m -> changesOnlyBreakpoints m.
Proof. intros Hm d. destruct (Hm d) as (? & ? & _). done. Qed.

(** X6: the commands that work on breakpoints change nothing of the
    engine but the collection of breakpoints, and what they log are
    requests for breakpoints: they leave the state of the session, the
    threads and the breakpoint at which the program is stopped as they
    are, they neither print nor start or stop the input, they send no
    pause request, and they do not end the process - whatever the adapter
    answers, and whether they return or throw. *)
Theorem breakpoint_commands_change_only_breakpoints :
  (forall path line once,
     changesOnlyBreakpoints (setSourceBreakpoint path line once))
  /\ (forall func once, changesOnlyBreakpoints (setFunctionBreakpoint func once))
  /\ (forall enabled, changesOnlyBreakpoints (setAllBreakpointsEnabled enabled))
  /\ (forall breakpoint enabled,
        changesOnlyBreakpoints (setBreakpointEnabled breakpoint enabled))
  /\ changesOnlyBreakpoints toggleAllBreakpoints
  /\ (forall breakpoint, changesOnlyBreakpoints (toggleBreakpoint breakpoint))
  /\ changesOnlyBreakpoints deleteAllBreakpoints
  /\ (forall breakpoint, changesOnlyBreakpoints (deleteBreakpoint breakpoint)).
Proof.
  pose proof onlyBreakpoints_Frame as HR.
  split_and!; intros; apply keeps_changesOnlyBreakpoints.
  - by apply keeps_setSourceBreakpoint.
  - by apply keeps_setFunctionBreakpoint.
  - by apply keeps_setAllBreakpointsEnabled.
  - by apply keeps_setBreakpointEnabled.
  - by apply keeps_toggleAllBreakpoints.
  - by apply keeps_toggleBreakpoint.
  - by apply keeps_deleteAllBreakpoints.
  - by apply keeps_deleteBreakpoint.
Qed.

(** ** The registry stays well formed *)

Lemma staysWellFormed_Frame : Frame staysWellFormed.
Proof.
  split; unfold staysWellFormed; simpl; try done.
  - auto.
  - intros d i g Hg. by apply wellFormed_update.
  - intros d g Hg. by apply wellFormed_updateAll.
  - intros d path line once. by apply wellFormed_addSourceBreakpoint.
  - intros d func once. by apply wellFormed_addFunctionBreakpoint.
  - intros d i. by apply wellFormed_deleteBreakpoint.
  - intros d _. split; constructor.
Qed.

Lemma _onBreakpointEvent_wellFormed (event : BreakpointEvent) (d : Debugger) :
  wellFormed (_breakpoints d) ->
  wellFormed (_breakpoints (_onBreakpointEvent event d).2).
Proof.
  intros Hwf. unfold _onBreakpointEvent.
  destruct (be_id event) as [id|]; [|done].
  destruct (_ || _); [|done].
  unfold try_catch, getBreakpointById. rewrite bind_assoc. step.
  destruct (BreakpointCollection.getBreakpointById id (_breakpoints d));
    step; [|done].
  by apply wellFormed_update.
Qed.

(** X7: the commands that work on breakpoints and the handlers of the
    breakpoint events keep the registry well formed - the breakpoints in
    the order of their indices, no index twice, every index below the
    next one to be handed out - whatever the adapter answers, and whether
    they return or throw. *)
Theorem breakpoint_commands_keep_wellFormed (d : Debugger) :
  wellFormed (_breakpoints d) ->
  (forall path line once,
     wellFormed (_breakpoints (setSourceBreakpoint path line once d).2))
  /\ (forall func once,
        wellFormed (_breakpoints (setFunctionBreakpoint func once d).2))
  /\ (forall enabled,
        wellFormed (_breakpoints (setAllBreakpointsEnabled enabled d).2))
  /\ (forall breakpoint enabled,
        wellFormed
          (_breakpoints (setBreakpointEnabled breakpoint enabled d).2))
  /\ wellFormed (_breakpoints (toggleAllBreakpoints d).2)
  /\ (forall breakpoint,
        wellFormed (_breakpoints (toggleBreakpoint breakpoint d).2))
  /\ wellFormed (_breakpoints (deleteAllBreakpoints d).2)
  /\ (forall breakpoint,
        wellFormed (_breakpoints (deleteBreakpoint breakpoint d).2))
  /\ (forall event, wellFormed (_breakpoints (_onBreakpointEvent event d).2))
  /\ (forall breakpointId,
        wellFormed
          (_breakpoints (_disableBreakpointIfOneShot breakpointId d).2)).
Proof.
  intros Hwf. pose proof staysWellFormed_Frame as HR.
  split_and!; intros.
  - by apply (keeps_setSourceBreakpoint _ HR path line once d).
  - by apply (keeps_setFunctionBreakpoint _ HR func once d).
  - by apply (keeps_setAllBreakpointsEnabled _ HR enabled d).
  - by apply (keeps_setBreakpointEnabled _ HR breakpoint enabled d).
  - by apply (keeps_toggleAllBreakpoints _ HR d).
  - by apply (keeps_toggleBreakpoint _ HR breakpoint d).
  - by apply (keeps_deleteAllBreakpoints _ HR d).
  - by apply (keeps_deleteBreakpoint _ HR breakpoint d).
  - by apply _onBreakpointEvent_wellFormed.
  - by apply (keeps_disableBreakpointIfOneShot _ HR breakpointId d).
Qed.

Lemma breakpoint_commands_keep_wellFormed_witness :
  wellFormed
    (_breakpoints
       (toggleBreakpoint 1 (engine RUNNING quietSession threeBreakpoints)).2).
Proof.
  refine (proj1 (proj2 (proj2 (proj2 (proj2 (proj2
            (breakpoint_commands_keep_wellFormed
               (engine RUNNING quietSession threeBreakpoints) _)))))) 1%nat).
  split; simpl; repeat constructor; lia.
Defined.

(** ** Stop events and the prompt *)

Lemma noPrompt_Frame : Frame noPrompt.
Proof.
  assert (forall d, exists l : list Effect,
            log d = log d ++ l /\ console_startInput ∉ l) as Hnil.
  { intros d. exists []. split; [by rewrite app_nil_r|apply not_elem_of_nil]. }
  split; unfold noPrompt; simpl; try (by intros; split_and!).
  - intros d1 d2 d3 (-> & -> & l & -> & Hl) (-> & -> & l' & -> & Hl').
    split_and!; [done..|]. exists (l ++ l').
    split; [by rewrite app_assoc|]. rewrite elem_of_app. tauto.
  - intros d path lines. split_and!; [done..|]. eexists. split; [done|].
    by intros ?%list_elem_of_singleton.
  - intros d names. split_and!; [done..|]. eexists. split; [done|].
    by intros ?%list_elem_of_singleton.
Qed.

Lemma keeps_bind_cases {A B} (R : relation Debugger) (m : M A)
    (k : A -> M B) (d : Debugger) :
  keeps R m ->
  exists d1,
    R d d1
    /\ ((exists a, (m ≫= k) d = k a d1)
        \/ exists e, (m ≫= k) d = (Throw e, d1)).
Proof.
  intros Hm. destruct (Hm d) as (HR & Hne & _).
  unfold mbind, M_bind. destruct (m d) as [[a|e|code] d1]; simpl in *.
  - exists d1. split; [done|]. left. by exists a.
  - exists d1. split; [done|]. right. by exists e.
  - by destruct (Hne code).
Qed.

Lemma bind_Return_inv {A B} (m : M A) (k : A -> M B) (d d' : Debugger) (b : B) :
  (m ≫= k) d = (Return b, d') ->
  exists a d1, m d = (Return a, d1) /\ k a d1 = (Return b, d').
Proof.
  unfold mbind, M_bind. destruct (m d) as [[a|e|code] d1]; [|done..].
  intros Hk. by exists a, d1.
Qed.

Lemma bind_assoc3 {A B C D} (a : M A) (b : A -> M B) (c : B -> M C)
    (k : C -> M D) (d : Debugger) :
  (a ≫= fun x => b x ≫= fun y => c y ≫= k) d
  = ((a ≫= fun x => b x ≫= c) ≫= k) d.
Proof.
  rewrite bind_assoc. unfold mbind, M_bind.
  destruct (a d) as [[x|e|code] d1]; [|done..].
  by destruct (b x d1) as [[y|e|code] d2].
Qed.

(** Up to the point where [_disableBreakpointIfOneShot] has returned, a
    stop event changes neither the state of the session nor the threads,
    and does not start the input. *)
Lemma _onStopped_prefix
    (_getTopOfStackSourceInfo : Z -> M (option TopOfStack))
    (onStoppedHooks : M unit) (event : DebugProtocol.StoppedEvent)
    (d : Debugger) :
  exists d3,
    noPrompt d d3
    /\ (_onStopped _getTopOfStackSourceInfo onStoppedHooks event d
        = _onStopped_resumed _getTopOfStackSourceInfo onStoppedHooks event d3
        \/ exists e,
             _onStopped _getTopOfStackSourceInfo onStoppedHooks event d
             = (Throw e, d3)).
Proof.
  pose proof noPrompt_Frame as HR.
  assert (keeps noPrompt
            (modify (with_stoppedAtBreakpoint None);;
             match DebugProtocol.breakpointId event with
             | Some breakpointId =>
                 try_catch
                   (bpt ← getBreakpointById breakpointId;
                    modify (with_stoppedAtBreakpoint
                              (Some (Breakpoint.index bpt))))
                   (fun err =>
                      emit (console_outputLine
                              ("Debugger stopped at unrecognized breakpoint -- "
                               +:+ "current breakpoint will not be valid.")))
             | None => mret tt
             end;;
             _disableBreakpointIfOneShot (DebugProtocol.breakpointId event)))
    as Hprefix.
  { eapply (keeps_bind _ HR).
    { apply keeps_modify. intros d0. split_and!; [done..|].
      exists []. split; [by rewrite app_nil_r|apply not_elem_of_nil]. }
    intros _. eapply (keeps_bind _ HR).
    { destruct (DebugProtocol.breakpointId event); [|by apply ensures_mret].
      apply (ensures_try_catch _ HR).
      - eapply (keeps_bind _ HR); [by apply keeps_getBreakpointById|].
        intros bpt. apply keeps_modify. intros d0.
        split_and!; [done..|].
        exists []. split; [by rewrite app_nil_r|apply not_elem_of_nil].
      - intros e. apply keeps_modify. intros d0.
        split_and!; [done..|]. eexists. split; [done|].
        by intros ?%list_elem_of_singleton. }
    intros _. by apply keeps_disableBreakpointIfOneShot. }
  destruct (keeps_bind_cases noPrompt _
              (fun _ => _onStopped_resumed _getTopOfStackSourceInfo
                          onStoppedHooks event) d Hprefix)
    as (d3 & Hd3 & Hcases).
  exists d3. split; [done|].
  unfold _onStopped. rewrite bind_assoc3.
  destruct Hcases as [[[] ->]|[e ->]]; [by left|right; by exists e].
Qed.

Lemma _onStopped_resumed_first
    (_getTopOfStackSourceInfo : Z -> M (option TopOfStack))
    (onStoppedHooks : M unit) (event : DebugProtocol.StoppedEvent)
    (d d' : Debugger) :
  ThreadCollection.allThreadsRunning (_threads d) = true ->
  _onStopped_resumed _getTopOfStackSourceInfo onStoppedHooks event d
  = (Return tt, d') ->
  _state d' = STOPPED /\ last (log d') = Some console_startInput.
Proof.
  intros Hfirst. unfold _onStopped_resumed. step. rewrite Hfirst.
  intros (_ & d1 & _ & (_ & d2 & _ & H)%bind_Return_inv)%bind_Return_inv.
  apply bind_Return_inv in H as (_ & d3 & _ & H).
  apply bind_Return_inv in H as (_ & d4 & _ & H).
  injection H as <-. simpl. split; [done|]. apply last_snoc.
Qed.

Lemma _onStopped_resumed_later
    (_getTopOfStackSourceInfo : Z -> M (option TopOfStack))
    (onStoppedHooks : M unit) (event : DebugProtocol.StoppedEvent)
    (d d' : Debugger) :
  ThreadCollection.allThreadsRunning (_threads d) = false ->
  _onStopped_resumed _getTopOfStackSourceInfo onStoppedHooks event d
  = (Return tt, d') ->
  _state d' = _state d
  /\ exists l, log d' = log d ++ l /\ console_startInput ∉ l.
Proof.
  intros Hfirst. unfold _onStopped_resumed. step. rewrite Hfirst.
  assert (exists l : list Effect,
            log d = log d ++ l /\ console_startInput ∉ l) as Hnil.
  { exists []. split; [by rewrite app_nil_r|apply not_elem_of_nil]. }
  assert ((match DebugProtocol.description event with
           | Some description => mret tt
           | None => mret tt
           end : M unit) = mret tt) as -> by by destruct (_ event).
  step. unfold onThreads. destruct (bool_decide _).
  - rewrite bind_assoc. repeat step. by intros [= <-].
  - destruct (DebugProtocol.threadId event) as [threadId|].
    + rewrite !bind_assoc. step. rewrite bind_assoc. step.
      destruct (ThreadCollection.getThreadById _ _).
      * repeat step. by intros [= <-].
      * by step.
    + repeat step. intros [= <-]. split; [done|]. eexists. split; [done|].
      by intros ?%list_elem_of_singleton.
Qed.

(** X8: a stop event whose handler returns brings up the prompt exactly
    when it is the first stop - when every thread was running before it.
    Then the session is left in the state stopped and the last call on
    the console starts the input, whatever reading the top of the stack
    and the hooks of the commands have done; a stop event that finds a
    thread already stopped leaves the state of the session as it is and
    does not start the input. *)
Theorem _onStopped_prompt
    (_getTopOfStackSourceInfo : Z -> M (option TopOfStack))
    (onStoppedHooks : M unit) (event : DebugProtocol.StoppedEvent)
    (d d' : Debugger) :
  _onStopped _getTopOfStackSourceInfo onStoppedHooks event d
  = (Return tt, d') ->
  if ThreadCollection.allThreadsRunning (_threads d)
  then _state d' = STOPPED /\ last (log d') = Some console_startInput
  else _state d' = _state d
       /\ exists l, log d' = log d ++ l /\ console_startInput ∉ l.
Proof.
  destruct (_onStopped_prefix _getTopOfStackSourceInfo onStoppedHooks event d)
    as (d3 & (Hstate & Hthreads & l & Hl & Hnl) & [->|[e ->]]); [|done].
  rewrite <- Hthreads. intros Hresumed.
  destruct (ThreadCollection.allThreadsRunning (_threads d3)) eqn:Hfirst.
  - by eapply _onStopped_resumed_first.
  - destruct (_onStopped_resumed_later _ _ _ _ _ Hfirst Hresumed)
      as (-> & l' & -> & Hnl').
    split; [done|]. exists (l ++ l'). rewrite Hl.
    split; [by rewrite app_assoc|]. rewrite elem_of_app. tauto.
Qed.

Lemma _onStopped_prompt_witness :
  let d := with_threads
             (ThreadCollection.mk [Thread.mk 1 "main" false 0] None)
             (engine RUNNING quietSession BreakpointCollection.empty) in
  let event :=
    DebugProtocol.mkStoppedEvent (Some "breakpoint") (Some 1) None None in
  let d' := (_onStopped (fun _ => mret None) (mret tt) event d).2 in
  _state d' = STOPPED /\ last (log d') = Some console_startInput.
Proof.
  intros d event d'.
  exact (_onStopped_prompt (fun _ => mret None) (mret tt) event d d' eq_refl).
Defined.

(** X9: a stop event that names a breakpoint which the collection does
    not know is not handled to the end.  The first lookup is guarded and
    prints a line; the second one, in [_disableBreakpointIfOneShot], is
    not, and the handler throws there: no thread is marked as stopped,
    the session does not go to the state stopped, and the input is not
    started. *)
Theorem _onStopped_unknown_breakpoint
    (_getTopOfStackSourceInfo : Z -> M (option TopOfStack))
    (onStoppedHooks : M unit) (event : DebugProtocol.StoppedEvent)
    (breakpointId : Z) (d : Debugger) :
  DebugProtocol.breakpointId event = Some breakpointId ->
  BreakpointCollection.getBreakpointById breakpointId (_breakpoints d) = None ->
  _onStopped _getTopOfStackSourceInfo onStoppedHooks event d
  = (Throw NotFound,
     with_log
       (log d ++ [console_outputLine
                    ("Debugger stopped at unrecognized breakpoint -- " +:+
                     "current breakpoint will not be valid.")])
       (with_stoppedAtBreakpoint None d)).
Proof.
  intros Hid Hnone. unfold _onStopped. step. rewrite Hid.
  set (d1 := with_stoppedAtBreakpoint None d).
  assert (forall d2, _breakpoints d2 = _breakpoints d ->
            getBreakpointById breakpointId d2 = (Throw NotFound, d2)) as Hget.
  { intros d2 Hd2. unfold getBreakpointById. step. by rewrite Hd2, Hnone. }
  erewrite bind_Return; cycle 1.
  { unfold try_catch. erewrite bind_Throw by by apply Hget. reflexivity. }
  erewrite bind_Throw; [reflexivity|].
  unfold _disableBreakpointIfOneShot. by erewrite bind_Throw by by apply Hget.
Qed.

Lemma _onStopped_unknown_breakpoint_witness :
  (_onStopped (fun _ => mret None) (mret tt) stoppedAt5
     (engine RUNNING quietSession oneBreakpoint)).1
  = Throw NotFound.
Proof.
  by rewrite (_onStopped_unknown_breakpoint (fun _ => mret None) (mret tt)
                stoppedAt5 5 (engine RUNNING quietSession oneBreakpoint)
                eq_refl eq_refl).
Defined.

(** ** Commands that fail *)

(** X10: when the adapter rejects the request that [setSourceBreakpoint]
    sends for a new breakpoint, the command throws the rejection, and the
    breakpoint stays: it has been added to the collection before the
    request was sent, and nothing takes it out again. *)
Theorem setSourceBreakpoint_rejected_keeps_breakpoint
    (d : Debugger) (session : VsDebugSession) path line once err :
  let added :=
    BreakpointCollection.addSourceBreakpoint path line once (_breakpoints d) in
  let lines :=
    BreakpointCollection.s_line
    <$> BreakpointCollection.getAllEnabledBreakpointsForSource path added.2 in
  let r := setSourceBreakpoint path line once d in
  _debugSession d = Some session ->
  once && negb (BreakpointCollection.supportsOnceState (_breakpoints d)) = false ->
  _state d <> CONFIGURING ->
  setBreakpoints session (log d) path lines = inl err ->
  r = (Throw err,
       with_log (log d ++ [session_setBreakpoints path lines])
         (with_breakpoints added.2 d))
  /\ is_Some (BreakpointCollection.getBreakpointByIndex added.1
                (_breakpoints r.2))
  /\ BreakpointCollection.nextIndex (_breakpoints r.2)
     = S (BreakpointCollection.nextIndex (_breakpoints d)).
Proof.
  intros added lines r Hs Hguard Hstate Hans.
  assert (r = (Throw err,
               with_log (log d ++ [session_setBreakpoints path lines])
                 (with_breakpoints added.2 d))) as ->.
  { unfold r. rewrite (setSourceBreakpoint_run d session) by done.
    rewrite bool_decide_eq_true_2 by done.
    erewrite bind_Throw; [reflexivity|].
    by apply (_setSourceBreakpointsForPath_rejected session
                (with_breakpoints added.2 d)). }
  split; [done|]. split; [|done]. simpl.
  unfold BreakpointCollection.getBreakpointByIndex. simpl.
  destruct (List.find _ _) eqn:Hfind; [done|].
  eapply find_none in Hfind; [|apply in_or_app; right; by left].
  unfold BreakpointCollection.hasIndex in Hfind. simpl in Hfind.
  by rewrite bool_decide_eq_true_2 in Hfind.
Qed.

Lemma setSourceBreakpoint_rejected_keeps_breakpoint_witness :
  let r := setSourceBreakpoint "/b.c" 8 false
             (engine RUNNING
                (stubSession allCapabilities (inl (Rejected "no")) (inr []))
                oneBreakpoint) in
  r.1 = Throw (Rejected "no")
  /\ BreakpointCollection.nextIndex (_breakpoints r.2) = 2%nat.
Proof.
  intros r.
  destruct (setSourceBreakpoint_rejected_keeps_breakpoint
              (engine RUNNING
                 (stubSession allCapabilities (inl (Rejected "no")) (inr []))
                 oneBreakpoint)
              (stubSession allCapabilities (inl (Rejected "no")) (inr []))
              "/b.c" 8 false (Rejected "no") eq_refl eq_refl
              ltac:(discriminate) eq_refl) as (Hr & _ & Hnext).
  unfold r. split; [by rewrite Hr|exact Hnext].
Defined.

(** X11: without a session, or before the program runs, the commands on
    one breakpoint and the two that delete fail before they have touched
    anything; the two commands on all breakpoints fail as well, but after
    they have changed the state of every breakpoint.  None of them sends
    anything. *)
Theorem commands_without_running_session (d : Debugger) (e : Exn) :
  (_ensureDebugSession false d).1 = Throw e ->
  (forall breakpoint, toggleBreakpoint breakpoint d = (Throw e, d))
  /\ (forall breakpoint enabled,
        setBreakpointEnabled breakpoint enabled d = (Throw e, d))
  /\ (forall breakpoint, deleteBreakpoint breakpoint d = (Throw e, d))
  /\ deleteAllBreakpoints d = (Throw e, d)
  /\ toggleAllBreakpoints d
     = (Throw e,
        with_breakpoints
          (BreakpointCollection.updateAll Breakpoint.toggleState
             (_breakpoints d)) d)
  /\ (forall enabled,
        setAllBreakpointsEnabled enabled d
        = (Throw e,
           with_breakpoints
             (BreakpointCollection.updateAll
                (Breakpoint.setState Breakpoint.ENABLED) (_breakpoints d)) d)).
Proof.
  intros He.
  assert (forall c, _ensureDebugSession false (with_breakpoints c d)
                    = (Throw e, with_breakpoints c d)) as Hs.
  { intros c. revert He. rewrite !_ensureDebugSession_eq. simpl.
    by intros ->. }
  assert (_ensureDebugSession false d = (Throw e, d)) as Hd.
  { rewrite <- (with_breakpoints_same d). apply Hs. }
  split_and!; intros.
  - unfold toggleBreakpoint. by rewrite (bind_Throw _ _ _ _ _ Hd).
  - unfold setBreakpointEnabled. by rewrite (bind_Throw _ _ _ _ _ Hd).
  - unfold deleteBreakpoint. by rewrite (bind_Throw _ _ _ _ _ Hd).
  - unfold deleteAllBreakpoints. by rewrite (bind_Throw _ _ _ _ _ Hd).
  - unfold toggleAllBreakpoints, _resetAllBreakpoints. step.
    by rewrite (bind_Throw _ _ _ _ _ (Hs _)).
  - unfold setAllBreakpointsEnabled, _resetAllBreakpoints. step.
    by rewrite (bind_Throw _ _ _ _ _ (Hs _)).
Qed.

Lemma commands_without_running_session_witness :
  Breakpoint.state
  <$> BreakpointCollection.breakpoints
        (_breakpoints
           (toggleAllBreakpoints
              (engine CONFIGURING quietSession oneBreakpoint)).2)
  = [Breakpoint.DISABLED].
Proof.
  destruct (commands_without_running_session
              (engine CONFIGURING quietSession oneBreakpoint)
              (Error "The program is not yet running (use 'run' to start it).")
              eq_refl) as (_ & _ & _ & _ & -> & _).
  reflexivity.
Defined.

(** ** Stepping and continuing *)

Lemma getActiveThread_eq (d : Debugger) :
  getActiveThread d
  = (match (_ensureDebugSession false d).1 with
     | Return _ =>
         match focusThread (_threads d) with
         | Some thread => Return thread
         | None => Throw (Error "There is no active thread.")
         end
     | Throw e => Throw e
     | Exit code => Exit code
     end, d).
Proof.
  unfold getActiveThread.
  pose proof (_ensureDebugSession_state false d) as Hd.
  destruct (_ensureDebugSession false d) as [[session|e|code] d'] eqn:Hs;
    simpl in Hd; subst d'; simpl.
  - rewrite (bind_Return _ _ _ _ _ Hs). step.
    by destruct (focusThread (_threads d)).
  - by rewrite (bind_Throw _ _ _ _ _ Hs).
  - by destruct (_ensureDebugSession_no_exit false d code); rewrite Hs.
Qed.

Lemma step_request (answer : VsDebugSession -> Z -> list Effect -> Response unit)
    (d : Debugger) :
  let r :=
    try_catch
      (session ← _ensureDebugSession false;
       thread ← getActiveThread;
       answered (answer session (Thread.id thread)))
      (fun error => emit console_startInput;; throw error) d in
  r = (Return tt, d)
  \/ exists e, r = (Throw e, with_log (log d ++ [console_startInput]) d).
Proof.
  unfold try_catch.
  pose proof (_ensureDebugSession_state false d) as Hd.
  destruct (_ensureDebugSession false d) as [[session|e|code] d'] eqn:Hs;
    simpl in Hd; subst d'.
  - rewrite (bind_Return _ _ _ _ _ Hs).
    pose proof (getActiveThread_eq d) as Hactive. rewrite Hs in Hactive.
    simpl in Hactive.
    destruct (focusThread (_threads d)) as [thread|].
    + rewrite (bind_Return _ _ _ _ _ Hactive). unfold answered, ask. step.
      destruct (answer session (Thread.id thread) (log d)) as [e|[]];
        [right; by eexists|by left].
    + rewrite (bind_Throw _ _ _ _ _ Hactive). right. by eexists.
  - rewrite (bind_Throw _ _ _ _ _ Hs). right. by eexists.
  - by destruct (_ensureDebugSession_no_exit false d code); rewrite Hs.
Qed.

(** X12: [stepIn], [stepOver] and [stepOut] change nothing of the engine
    when they return, and when they throw - for want of a running
    session or of an active thread, or because the adapter has rejected
    the request - the one thing they have done is to start the input
    again. *)
Theorem stepping_restarts_input
    (answer_stepIn answer_next answer_stepOut :
       VsDebugSession -> Z -> list Effect -> Response unit)
    (d : Debugger) :
  Forall
    (fun r : Outcome unit * Debugger =>
       r = (Return tt, d)
       \/ exists e, r = (Throw e, with_log (log d ++ [console_startInput]) d))
    [stepIn answer_stepIn d; stepOver answer_next d; stepOut answer_stepOut d].
Proof.
  do 3 (constructor; [apply step_request|]). constructor.
Qed.

(** What [continue] does, case by case. *)
Lemma continue_outcome
    (updateThreads : list Thread.t -> ThreadCollection.t -> ThreadCollection.t)
    (stderr_write : string -> M unit)
    (answer_setExceptionBreakpoints answer_configurationDone :
       VsDebugSession -> list Effect -> Response unit)
    (answer_threads :
       VsDebugSession -> list Effect -> Response (option (list (Z * string))))
    (answer_continue : VsDebugSession -> Z -> list Effect -> Response unit)
    (d : Debugger) :
  let r := continue updateThreads stderr_write answer_setExceptionBreakpoints
             answer_configurationDone answer_threads answer_continue d in
  ~ (_state d = CONFIGURING /\ _attachMode d = true) ->
  (_state d = STOPPED
   /\ r = (Return tt,
           with_log (log d ++ [console_stopInput])
             (with_stoppedAtBreakpoint None d)))
  \/ exists e,
       r.1 = Throw e
       /\ (r.2 = with_log (log d ++ [console_stopInput; console_startInput]) d
           \/ r.2 = with_log (log d ++ [console_stopInput; console_startInput])
                      (with_stoppedAtBreakpoint None d)).
Proof.
  intros r Hna. unfold r, continue.
  assert (forall l : list Effect,
            (l ++ [console_stopInput]) ++ [console_startInput]
            = l ++ [console_stopInput; console_startInput]) as Happ
    by (intros l; by rewrite <- app_assoc).
  set (d1 := with_log (log d ++ [console_stopInput]) d).
  destruct (_debugSession d) as [session|] eqn:Hs; cycle 1.
  { right. eexists. erewrite bind_Throw; cycle 1.
    { unfold try_catch. step. erewrite bind_Throw; [reflexivity|].
      rewrite _ensureDebugSession_eq. simpl. by rewrite Hs. }
    simpl. split; [done|]. left. by rewrite Happ. }
  pose proof (_ensureDebugSession_allowed d1 session Hs) as Hd1.
  assert (_state d = STOPPED \/ _state d <> STOPPED) as [Hstate|Hstate]
    by (destruct (_state d); auto).
  - pose proof (getActiveThread_eq (with_stoppedAtBreakpoint None d1)) as Hactive.
    rewrite _ensureDebugSession_eq in Hactive. simpl in Hactive.
    rewrite Hs, Hstate in Hactive. simpl in Hactive.
    destruct (focusThread (_threads d)) as [thread|].
    + destruct (answer_continue session (Thread.id thread) (log d1))
        as [e|[]] eqn:Hans.
      * right. eexists. erewrite bind_Throw; cycle 1.
        { unfold try_catch. step. rewrite (bind_Return _ _ _ _ _ Hd1).
          do 2 step. simpl. rewrite Hstate. simpl.
          rewrite (bind_Return _ _ _ _ _ Hactive). unfold answered, ask.
          rewrite !bind_assoc. step.
          change (log (with_stoppedAtBreakpoint None d1)) with (log d1).
          rewrite Hans.
          reflexivity. }
        simpl. split; [done|]. right. by rewrite Happ.
      * left. split; [done|]. erewrite bind_Return; cycle 1.
        { unfold try_catch. step. rewrite (bind_Return _ _ _ _ _ Hd1).
          do 2 step. simpl. rewrite Hstate. simpl.
          rewrite (bind_Return _ _ _ _ _ Hactive). unfold answered, ask.
          rewrite !bind_assoc. step.
          change (log (with_stoppedAtBreakpoint None d1)) with (log d1).
          rewrite Hans.
          reflexivity. }
        reflexivity.
    + right. eexists. erewrite bind_Throw; cycle 1.
      { unfold try_catch. step. rewrite (bind_Return _ _ _ _ _ Hd1).
        do 2 step. simpl. rewrite Hstate. simpl.
        rewrite (bind_Throw _ _ _ _ _ Hactive). reflexivity. }
      simpl. split; [done|]. right. by rewrite Happ.
  - right.
    assert (exists e,
              (if bool_decide (_state d = CONFIGURING)
               then
                 attachMode ← gets _attachMode;
                 if attachMode : bool
                 then mret (_configurationDone updateThreads stderr_write
                              answer_setExceptionBreakpoints
                              answer_configurationDone answer_threads)
                 else throw (Error
                        "There is not yet a running process to continue.")
               else if bool_decide (_state d = STOPPED)
               then
                 thread ← getActiveThread;
                 answered (answer_continue session (Thread.id thread));;
                 mret (mret tt)
               else if bool_decide (_state d = TERMINATED)
               then throw (Error "Cannot continue; process is terminated.")
               else throw (Error ("Continue called from unexpected state "
                                  +:+ stateName (_state d))))
                (with_stoppedAtBreakpoint None d1)
              = (Throw e, with_stoppedAtBreakpoint None d1)) as [e He].
    { destruct (_state d) eqn:Hst; try done; simpl; try by eexists.
      step. simpl. destruct (_attachMode d); [by destruct Hna|]. by eexists. }
    exists e. erewrite bind_Throw; cycle 1.
    { unfold try_catch. step. rewrite (bind_Return _ _ _ _ _ Hd1).
      do 2 step. simpl. rewrite He. reflexivity. }
    simpl. split; [done|]. right. by rewrite Happ.
Qed.

(** X13: outside the configuration of an attached session, [continue]
    returns only from the state stopped, and then it has stopped the
    input, forgotten the breakpoint at which the program was stopped and
    changed nothing else; in every other case it throws, and the input
    that it stopped has been started again. *)
Theorem continue_restarts_input
    (updateThreads : list Thread.t -> ThreadCollection.t -> ThreadCollection.t)
    (stderr_write : string -> M unit)
    (answer_setExceptionBreakpoints answer_configurationDone :
       VsDebugSession -> list Effect -> Response unit)
    (answer_threads :
       VsDebugSession -> list Effect -> Response (option (list (Z * string))))
    (answer_continue : VsDebugSession -> Z -> list Effect -> Response unit)
    (d : Debugger) :
  let r := continue updateThreads stderr_write answer_setExceptionBreakpoints
             answer_configurationDone answer_threads answer_continue d in
  ~ (_state d = CONFIGURING /\ _attachMode d = true) ->
  (_state d = STOPPED
   /\ r = (Return tt,
           with_log (log d ++ [console_stopInput])
             (with_stoppedAtBreakpoint None d)))
  \/ exists e,
       r.1 = Throw e
       /\ (r.2 = with_log (log d ++ [console_stopInput; console_startInput]) d
           \/ r.2 = with_log (log d ++ [console_stopInput; console_startInput])
                      (with_stoppedAtBreakpoint None d)).
Proof.
  apply continue_outcome.
Qed.

Lemma continue_restarts_input_witness :
  let r := continue (fun _ c => c) (fun _ => mret tt) (fun _ _ => inr tt)
             (fun _ _ => inr tt) (fun _ _ => inr None) (fun _ _ _ => inr tt)
             (engine TERMINATED quietSession BreakpointCollection.empty) in
  last (log r.2) = Some console_startInput.
Proof.
  intros r.
  destruct (continue_restarts_input (fun _ c => c) (fun _ => mret tt)
              (fun _ _ => inr tt) (fun _ _ => inr tt) (fun _ _ => inr None)
              (fun _ _ _ => inr tt)
              (engine TERMINATED quietSession BreakpointCollection.empty))
    as [[Hstate _]|(e & _ & [Hr|Hr])].
  - by intros [? _].
  - discriminate Hstate.
  - unfold r. by rewrite Hr.
  - unfold r. by rewrite Hr.
Defined.

(** ** Configuring and running *)

(** X14: in launch mode the prompt for the configuration comes up once
    both the initialized event and the readyForEvaluations event have
    arrived, in whichever order: neither event alone starts the input,
    the two together start it exactly once, and the engine they leave -
    configuring, ready for evaluations - is the same for both orders. *)
Theorem configuration_input_once
    (updateThreads : list Thread.t -> ThreadCollection.t -> ThreadCollection.t)
    (stderr_write : string -> M unit)
    (answer_setExceptionBreakpoints answer_configurationDone :
       VsDebugSession -> list Effect -> Response unit)
    (answer_threads :
       VsDebugSession -> list Effect -> Response (option (list (Z * string))))
    (d : Debugger) :
  let initialized :=
    _onInitialized updateThreads stderr_write answer_setExceptionBreakpoints
      answer_configurationDone answer_threads in
  let both :=
    (Return tt,
     with_log (log d ++ [console_startInput])
       (with_readyForEvaluations true (with_state CONFIGURING d))) in
  _attachMode d = false ->
  is_Some (_adapter d) ->
  _state d <> CONFIGURING ->
  _readyForEvaluations d = false ->
  (initialized;; _onReadyForEvaluations) d = both
  /\ (_onReadyForEvaluations;; initialized) d = both
  /\ log (initialized d).2 = log d
  /\ log (_onReadyForEvaluations d).2 = log d.
Proof.
  intros initialized both Hlaunch [parsed Hadapter] Hstate Hready.
  assert (initialized d = (Return tt, with_state CONFIGURING d)) as Hinit.
  { unfold initialized, _onInitialized. step. rewrite Hadapter. step.
    rewrite Hlaunch. step. unfold _startConfigurationInput. do 2 step.
    simpl. by rewrite Hready. }
  assert (_onReadyForEvaluations d
          = (Return tt, with_readyForEvaluations true d)) as Hrdy.
  { unfold _onReadyForEvaluations, _startConfigurationInput. do 3 step.
    simpl. by rewrite bool_decide_eq_false_2. }
  split_and!.
  - rewrite (bind_Return _ _ _ _ _ Hinit).
    unfold _onReadyForEvaluations, _startConfigurationInput. by do 3 step.
  - rewrite (bind_Return _ _ _ _ _ Hrdy).
    unfold initialized, _onInitialized. step. simpl. rewrite Hadapter. step.
    simpl. rewrite Hlaunch. step. unfold _startConfigurationInput.
    by do 2 step.
  - by rewrite Hinit.
  - by rewrite Hrdy.
Qed.

Lemma configuration_input_once_witness :
  let d := engine INITIALIZING quietSession BreakpointCollection.empty in
  let d0 := with_readyForEvaluations false d in
  log ((_onInitialized (fun _ c => c) (fun _ => mret tt) (fun _ _ => inr tt)
          (fun _ _ => inr tt) (fun _ _ => inr None);;
        _onReadyForEvaluations) d0).2
  = [console_startInput].
Proof.
  intros d d0.
  destruct (configuration_input_once (fun _ c => c) (fun _ => mret tt)
              (fun _ _ => inr tt) (fun _ _ => inr tt) (fun _ _ => inr None) d0
              eq_refl ltac:(by eexists) ltac:(discriminate) eq_refl)
    as (-> & _).
  reflexivity.
Defined.

Lemma answered_eq {A} (answer : list Effect -> Response A) (d : Debugger) :
  answered answer d
  = (match answer (log d) with
     | inl e => Throw e
     | inr a => Return a
     end, d).
Proof. unfold answered, ask. step. by destruct (answer (log d)). Qed.

Lemma bind_answered {A B} (answer : list Effect -> Response A) (k : A -> M B)
    (d : Debugger) :
  (answered answer ≫= k) d
  = match answer (log d) with
    | inl e => (Throw e, d)
    | inr a => k a d
    end.
Proof.
  unfold answered, ask. rewrite bind_assoc. step. by destruct (answer (log d)).
Qed.

(** What [_configurationDone] has logged in launch mode when the adapter
    accepts its [configurationDone] request: the requests of the reset,
    and [stopInput] if it got to the end. *)
Lemma _configurationDone_launch
    (updateThreads : list Thread.t -> ThreadCollection.t -> ThreadCollection.t)
    (stderr_write : string -> M unit)
    (answer_setExceptionBreakpoints answer_configurationDone :
       VsDebugSession -> list Effect -> Response unit)
    (answer_threads :
       VsDebugSession -> list Effect -> Response (option (list (Z * string))))
    (d : Debugger) (session : VsDebugSession) :
  let r := _configurationDone updateThreads stderr_write
             answer_setExceptionBreakpoints answer_configurationDone
             answer_threads d in
  _debugSession d = Some session ->
  _attachMode d = false ->
  (forall l, answer_configurationDone session l = inr tt) ->
  _state r.2 = RUNNING
  /\ _breakpoints r.2 = resetCollection session (log d) (_breakpoints d)
  /\ log r.2
     = log d ++ resetRequests session (_breakpoints d)
       ++ match r.1 with Return _ => [console_stopInput] | _ => [] end
  /\ forall code, r.1 <> Exit code.
Proof.
  intros r Hs Hlaunch Hdone.
  set (d1 := with_state RUNNING d).
  assert (_ensureDebugSession false d1 = (Return session, d1)) as Hs1.
  { rewrite _ensureDebugSession_eq. simpl. by rewrite Hs. }
  destruct (_resetAllBreakpoints_state session d1 Hs1) as [Hreset Hne].
  change (log d1) with (log d) in Hreset.
  change (_breakpoints d1) with (_breakpoints d) in Hreset.
  set (d2 := with_breakpoints _ _) in Hreset.
  assert (forall k : unit -> M unit,
            ((if Boolean (DebugProtocol.supportsConfigurationDoneRequest
                            (capabilities session))
              then
                try_catch (answered (answer_configurationDone session))
                  (fun err =>
                     stderr_write ("Failed to debug target: "
                                   +:+ message err +:+ CRLF);;
                     process_exit 0)
              else mret tt) ≫= k) d2 = k tt d2) as Hconf.
  { intros k. destruct (Boolean _); [|done].
    erewrite bind_Return; [reflexivity|].
    unfold try_catch. by rewrite answered_eq, Hdone. }
  assert (r = (_resetAllBreakpoints ≫= fun _ =>
               answered (answer_setExceptionBreakpoints session) ≫= fun _ =>
               (if Boolean (DebugProtocol.supportsConfigurationDoneRequest
                              (capabilities session))
                then
                  try_catch (answered (answer_configurationDone session))
                    (fun err =>
                       stderr_write ("Failed to debug target: "
                                     +:+ message err +:+ CRLF);;
                       process_exit 0)
                else mret tt) ≫= fun _ =>
               _cacheThreads updateThreads answer_threads ≫= fun _ =>
               attachMode ← gets _attachMode;
               if attachMode : bool
               then modify (with_configured true);; _pauseAfterAttach
               else emit console_stopInput) d1) as Hr.
  { unfold r, _configurationDone.
    rewrite (bind_Return _ _ _ _ _ (_ensureDebugSession_allowed d session Hs)).
    by step. }
  destruct (_resetAllBreakpoints d1) as [[[]|e|code] d2'] eqn:Hr1;
    simpl in Hreset; subst d2'; cycle 1.
  { rewrite (bind_Throw _ _ _ _ _ Hr1) in Hr. rewrite Hr. simpl.
    by rewrite app_nil_r. }
  { by destruct (Hne code). }
  rewrite (bind_Return _ _ _ _ _ Hr1) in Hr.
  destruct (answer_setExceptionBreakpoints session (log d2)) as [e|[]] eqn:Hexc.
  { assert (r = (Throw e, d2)) as ->.
    { by rewrite Hr, bind_answered, Hexc. }
    simpl. by rewrite app_nil_r. }
  destruct (answer_threads session (log d2)) as [e|body] eqn:Hthreads.
  { assert (r = (Throw e, d2)) as ->.
    { rewrite Hr, bind_answered, Hexc, Hconf. unfold _cacheThreads.
      rewrite bind_assoc. step.
      change (_debugSession d2) with (_debugSession d). rewrite Hs.
      rewrite bind_assoc. by rewrite bind_answered, Hthreads. }
    simpl. by rewrite app_nil_r. }
  assert (r = (Return tt,
               with_log (log d2 ++ [console_stopInput])
                 (with_threads
                    (updateThreads
                       ((fun t : Z * string => newThread t.1 t.2)
                        <$> default [] body) (_threads d2)) d2))) as ->.
  { rewrite Hr, bind_answered, Hexc, Hconf. unfold _cacheThreads.
    rewrite bind_assoc. step.
    change (_debugSession d2) with (_debugSession d). rewrite Hs.
    rewrite bind_assoc. rewrite bind_answered, Hthreads.
    unfold onThreads. do 2 step. simpl. by rewrite Hlaunch. }
  simpl. by rewrite <- app_assoc.
Qed.

(** ** Closing the session *)

(** X16: while [closeSession] waits for the answer to its disconnect
    request, the event that the adapter has exited is ignored if the
    session is initializing - as it is in [relaunch] - so that closing
    the session neither takes the session to the state terminated nor
    starts a second relaunch.  If the adapter rejects the disconnect
    request, [closeSession] throws the rejection and leaves the session in
    place and [_disconnecting] set. *)
Theorem adapter_exit_while_disconnecting
    (relaunch : Async unit) (flush : M unit)
    (answer_disconnect : VsDebugSession -> list Effect -> Response unit)
    (d : Debugger) (session : VsDebugSession) :
  _debugSession d = Some session ->
  (_state d = INITIALIZING ->
   (resumed ← closeSession flush answer_disconnect;
    _onAdapterExited relaunch;;
    resumed) d
   = await (closeSession flush answer_disconnect) d)
  /\ (forall e,
        answer_disconnect session (log d) = inl e ->
        await (closeSession flush answer_disconnect) d
        = (Throw e, with_disconnecting true d)).
Proof.
  intros Hs.
  assert (closeSession flush answer_disconnect d
          = (Return (settle (answer_disconnect session (log d));;
                     modify (with_disconnecting false);;
                     onThreads (fun _ => ThreadCollection.empty);;
                     modify (with_debugSession None);;
                     flush),
             with_disconnecting true d)) as Hclose.
  { unfold closeSession, async, try_catch. step. rewrite Hs.
    unfold ask. by do 2 step. }
  split.
  - intros Hstate. unfold await. rewrite !(bind_Return _ _ _ _ _ Hclose).
    erewrite bind_Return; [reflexivity|].
    unfold _onAdapterExited. do 2 step. simpl. by rewrite Hstate.
  - intros e He. unfold await. rewrite (bind_Return _ _ _ _ _ Hclose).
    by rewrite He.
Qed.

Lemma adapter_exit_while_disconnecting_witness :
  let d := engine INITIALIZING quietSession BreakpointCollection.empty in
  (resumed ← closeSession (mret tt) (fun _ _ => inr tt);
   _onAdapterExited idle;;
   resumed) d
  = await (closeSession (mret tt) (fun _ _ => inr tt)) d.
Proof.
  intros d.
  exact (proj1 (adapter_exit_while_disconnecting idle (mret tt)
                  (fun _ _ => inr tt) d quietSession eq_refl) eq_refl).
Defined.

(** ** Breaking into the program *)

(** X17: [breakInto] pauses the focus thread if there is one, and only
    otherwise the thread that the adapter names for stopping or, for want
    of that, the first thread; without any of them it does nothing, even
    without a session.  It does not wait for the answer: with a thread to
    pause and a running session it sends one pause request and returns
    whatever the adapter answers, and it changes nothing else. *)
Theorem breakInto_thread (d : Debugger) (parsed : ParsedVSAdapter) :
  let focus := Thread.id <$> focusThread (_threads d) in
  let others :=
    match asyncStopThread (adapter parsed) with
    | Some threadId => Some threadId
    | None => head (Thread.id <$> ThreadCollection.allThreads (_threads d))
    end in
  _adapter d = Some parsed ->
  (focus = None -> others = None -> breakInto d = (Return tt, d))
  /\ (forall session threadId,
        _ensureDebugSession false d = (Return session, d) ->
        focus = Some threadId \/ (focus = None /\ others = Some threadId) ->
        breakInto d
        = (Return tt, with_log (log d ++ [session_pause threadId]) d))
  /\ (forall e,
        (_ensureDebugSession false d).1 = Throw e ->
        ~ (focus = None /\ others = None) ->
        breakInto d = (Throw e, d)).
Proof.
  intros focus others Hadapter.
  assert (breakInto d
          = match (match focus with Some n => Some n | None => others end) with
            | None => (Return tt, d)
            | Some threadId =>
                match (_ensureDebugSession false d).1 with
                | Return session =>
                    (Return tt, with_log (log d ++ [session_pause threadId]) d)
                | Throw e => (Throw e, d)
                | Exit code => (Exit code, d)
                end
            end) as ->.
  { unfold breakInto, focus, others. step. rewrite Hadapter. step.
    assert (forall threadId,
              (session ← _ensureDebugSession false;
               send (session_pause threadId)
                    (fun l => pause session l threadId);;
               mret tt) d
              = match (_ensureDebugSession false d).1 with
                | Return session =>
                    (Return tt,
                     with_log (log d ++ [session_pause threadId]) d)
                | Throw e => (Throw e, d)
                | Exit code => (Exit code, d)
                end) as Hpause.
    { intros threadId.
      pose proof (_ensureDebugSession_state false d) as Hd.
      destruct (_ensureDebugSession false d) as [[session|e|code] d'] eqn:Hs;
        simpl in Hd; subst d'; simpl.
      - by rewrite (bind_Return _ _ _ _ _ Hs).
      - by rewrite (bind_Throw _ _ _ _ _ Hs).
      - by destruct (_ensureDebugSession_no_exit false d code); rewrite Hs. }
    destruct (focusThread (_threads d)) as [thread|]; simpl; [apply Hpause|].
    destruct (asyncStopThread (adapter parsed)) as [threadId|];
      [apply Hpause|].
    destruct (ThreadCollection.allThreads (_threads d)) as [|thread ?];
      [done|apply Hpause]. }
  split_and!.
  - by intros -> ->.
  - intros session threadId Hs [->|[-> ->]]; by rewrite Hs.
  - intros e He Hsome.
    destruct focus as [threadId|]; [by rewrite He|].
    destruct others as [threadId|]; [by rewrite He|]. by destruct Hsome.
Qed.

Lemma breakInto_thread_witness :
  let d := with_threads
             (ThreadCollection.mk
                [Thread.mk 1 "main" false 0; Thread.mk 2 "worker" false 0]
                (Some 2))
             (mkDebugger RUNNING (Some quietSession) ThreadCollection.empty
                BreakpointCollection.empty (Some (gdb (Some 1))) false true ∅
                false false None false []) in
  breakInto d = (Return tt, with_log [session_pause 2] d).
Proof.
  intros d.
  exact (proj1 (proj2 (breakInto_thread d (gdb (Some 1)) eq_refl))
           quietSession 2 eq_refl (or_introl eq_refl)).
Defined.

(** ** Attaching *)

Lemma sourceAnswers_answered session (l : list Effect) groups :
  answersAll session ->
  Forall (fun a : list SourceBreakpoint
                  * Response (list DebugProtocol.Breakpoint) =>
            exists out, a.2 = inr out /\ length out = length a.1)
    (sourceAnswers session l groups).
Proof.
  intros [Hsource _]. revert l.
  induction groups as [|[path bs] groups IH]; intros l; [constructor|].
  simpl. constructor; [|apply IH]. simpl.
  destruct (Hsource l path (BreakpointCollection.s_line <$> bs))
    as (out & -> & Hlen).
  exists out. split; [done|]. by rewrite Hlen, length_fmap.
Qed.

Lemma Promise_all_returns (ps : list (M unit)) (d : Debugger) :
  Forall (fun p : M unit => forall d, (p d).1 = Return tt) ps ->
  (Promise_all ps d).1 = Return tt.
Proof.
  intros Hps. revert d. induction Hps as [|p ps Hp _ IH]; intros d; [done|].
  simpl. specialize (Hp d). destruct (p d) as [[[]|e|code] d']; try done.
Qed.

(** With an adapter that answers every request, a reset returns. *)
Lemma _resetAllBreakpoints_returns session (d : Debugger) :
  answersAll session ->
  _ensureDebugSession false d = (Return session, d) ->
  (_resetAllBreakpoints d).1 = Return tt.
Proof.
  intros Hall Hs. unfold _resetAllBreakpoints.
  rewrite (bind_Return _ _ _ _ _ Hs). step.
  rewrite (bind_Return _ _ _ _ _ (mapM_resetSourceBreakpoints _ _ _)).
  set (d1 := with_log _ d).
  assert (_ensureDebugSession false d1 = (Return session, d1)) as Hs1
    by by apply _ensureDebugSession_with_log.
  assert (Forall (fun p : M unit => forall d, (p d).1 = Return tt)
            ((fun a => resume inl a.1 a.2)
             <$> sourceAnswers session (log d)
                   (BreakpointCollection.getAllEnabledBreakpointsByPath
                      (_breakpoints d)))) as Hsources.
  { apply Forall_fmap.
    eapply Forall_impl; [by apply sourceAnswers_answered|].
    intros [bs response] (out & Hout & Hlen) d'. simpl in *. subst response.
    by apply resume_returns. }
  pose proof (_resetAllFunctionBreakpoints_run session d1 Hs1) as Hf.
  destruct (functionRequest session (_breakpoints d1)) as [funcBreakpoints|];
    rewrite (bind_Return _ _ _ _ _ Hf).
  - apply Promise_all_returns, Forall_app. split; [done|].
    constructor; [|constructor]. intros d'.
    destruct Hall as [_ Hfunction].
    destruct (Hfunction (log d1)
                (BreakpointCollection.f_func <$> funcBreakpoints))
      as (out & -> & Hlen).
    apply resume_returns. by rewrite Hlen, length_fmap.
  - apply Promise_all_returns, Forall_app. split; [done|].
    by constructor; [|constructor].
Qed.

(** [_configurationDone] with an adapter that accepts its requests. *)
Lemma _configurationDone_accepted
    (updateThreads : list Thread.t -> ThreadCollection.t -> ThreadCollection.t)
    (stderr_write : string -> M unit)
    (answer_setExceptionBreakpoints answer_configurationDone :
       VsDebugSession -> list Effect -> Response unit)
    (answer_threads :
       VsDebugSession -> list Effect -> Response (option (list (Z * string))))
    (d : Debugger) (session : VsDebugSession) body :
  let sent := configurationSent updateThreads session body d in
  _debugSession d = Some session ->
  answersAll session ->
  (forall l, answer_setExceptionBreakpoints session l = inr tt) ->
  (forall l, answer_configurationDone session l = inr tt) ->
  answer_threads session (log sent) = inr body ->
  _configurationDone updateThreads stderr_write answer_setExceptionBreakpoints
    answer_configurationDone answer_threads d
  = (if _attachMode d
     then _pauseAfterAttach (with_configured true sent)
     else (Return tt, with_log (log sent ++ [console_stopInput]) sent)).
Proof.
  intros sent Hs Hall Hexc Hdone Hthreads. unfold _configurationDone.
  rewrite (bind_Return _ _ _ _ _ (_ensureDebugSession_allowed d session Hs)).
  step. set (d1 := with_state RUNNING d).
  assert (_ensureDebugSession false d1 = (Return session, d1)) as Hs1.
  { rewrite _ensureDebugSession_eq. simpl. by rewrite Hs. }
  destruct (_resetAllBreakpoints_state session d1 Hs1) as [Hreset _].
  pose proof (_resetAllBreakpoints_returns session d1 Hall Hs1) as Hreturn.
  destruct (_resetAllBreakpoints d1) as [o d2] eqn:Hr.
  simpl in Hreset, Hreturn.
  subst o d2. rewrite (bind_Return _ _ _ _ _ Hr).
  set (d2 := with_breakpoints _ _).
  rewrite bind_answered, Hexc.
  assert (forall k : unit -> M unit,
            ((if Boolean (DebugProtocol.supportsConfigurationDoneRequest
                            (capabilities session))
              then
                try_catch (answered (answer_configurationDone session))
                  (fun err =>
                     stderr_write ("Failed to debug target: "
                                   +:+ message err +:+ CRLF);;
                     process_exit 0)
              else mret tt) ≫= k) d2 = k tt d2) as ->.
  { intros k. destruct (Boolean _); [|done].
    erewrite bind_Return; [reflexivity|].
    unfold try_catch. by rewrite answered_eq, Hdone. }
  unfold _cacheThreads. rewrite bind_assoc. step.
  change (_debugSession d2) with (_debugSession d). rewrite Hs.
  rewrite bind_assoc, bind_answered.
  change (log d2) with (log sent). rewrite Hthreads.
  unfold onThreads. do 2 step. fold sent.
  change (_attachMode (with_threads _ d2)) with (_attachMode d).
  destruct (_attachMode d); [|done]. by step.
Qed.

(** X18: in attach mode the pause that forces the first stop is sent
    once, by whichever comes last of the two things it waits for: the
    attach request having returned in [relaunch], and
    [_configurationDone].  With an adapter that accepts the requests of
    the configuration, either of the two alone sends no pause request and
    leaves the input alone, and the two leave the same engine in both
    orders: the one in which [_pauseAfterAttach] has run once after the
    configuration, with both flags set. *)
Theorem attach_pauses_once
    (updateThreads : list Thread.t -> ThreadCollection.t -> ThreadCollection.t)
    (stderr_write : string -> M unit)
    (answer_setExceptionBreakpoints answer_configurationDone :
       VsDebugSession -> list Effect -> Response unit)
    (answer_threads :
       VsDebugSession -> list Effect -> Response (option (list (Z * string))))
    (d : Debugger) (session : VsDebugSession) (parsed : ParsedVSAdapter) body :
  let configure :=
    _configurationDone updateThreads stderr_write
      answer_setExceptionBreakpoints answer_configurationDone answer_threads in
  let sent := configurationSent updateThreads session body d in
  let both := with_attached true (with_configured true sent) in
  let threadId :=
    match asyncStopThread (adapter parsed) with
    | Some threadId => Some threadId
    | None => head (Thread.id <$> ThreadCollection.allThreads (_threads sent))
    end in
  _attachMode d = true ->
  _debugSession d = Some session ->
  _adapter d = Some parsed ->
  _configured d = false ->
  _attached d = false ->
  answersAll session ->
  (forall l, answer_setExceptionBreakpoints session l = inr tt) ->
  (forall l, answer_configurationDone session l = inr tt) ->
  answer_threads session (log sent) = inr body ->
  relaunch_attached d = (Return tt, with_attached true d)
  /\ configure d = (Return tt, with_configured true sent)
  /\ (relaunch_attached;; configure) d = _pauseAfterAttach both
  /\ (configure;; relaunch_attached) d = _pauseAfterAttach both
  /\ log (_pauseAfterAttach both).2
     = log sent
       ++ [match threadId with
           | Some threadId => session_pause threadId
           | None => console_stopInput
           end].
Proof.
  intros configure sent both threadId Hattach Hs Hadapter Hconfigured
    Hattached Hall Hexc Hdone Hthreads.
  assert (relaunch_attached d = (Return tt, with_attached true d)) as HA.
  { unfold relaunch_attached, _pauseAfterAttach. do 3 step. simpl.
    by rewrite Hconfigured. }
  assert (configure d = (Return tt, with_configured true sent)) as HC.
  { unfold configure.
    rewrite (_configurationDone_accepted updateThreads stderr_write
               answer_setExceptionBreakpoints answer_configurationDone
               answer_threads d session body Hs Hall Hexc Hdone Hthreads).
    rewrite Hattach. unfold _pauseAfterAttach. do 2 step. simpl.
    by rewrite Hattached. }
  split_and!; [done|done| | |].
  - rewrite (bind_Return _ _ _ _ _ HA). unfold configure.
    rewrite (_configurationDone_accepted updateThreads stderr_write
               answer_setExceptionBreakpoints answer_configurationDone
               answer_threads (with_attached true d) session body
               Hs Hall Hexc Hdone Hthreads).
    change (_attachMode (with_attached true d)) with (_attachMode d).
    by rewrite Hattach.
  - rewrite (bind_Return _ _ _ _ _ HC). unfold relaunch_attached. by step.
  - unfold _pauseAfterAttach. do 2 step. simpl.
    rewrite (bind_Return _ _ _ _ _ (_ensureDebugSession_allowed both session Hs)).
    step. simpl. rewrite Hadapter. unfold threadId.
    destruct (asyncStopThread (adapter parsed)) as [t|].
    + step. unfold request. by destruct (pause session _ t).
    + rewrite bind_assoc. step.
      change (_threads both) with (_threads sent).
      destruct (ThreadCollection.allThreads (_threads sent)) as [|thread ?];
        step; [done|].
      unfold request. simpl. by destruct (pause session _ _).
Qed.

Lemma obligingSession_answersAll : answersAll obligingSession.
Proof.
  split; intros; eexists; (split; [reflexivity|]); apply length_fmap.
Qed.

Lemma attach_pauses_once_witness :
  let d := mkDebugger INITIALIZING (Some obligingSession) ThreadCollection.empty
             oneBreakpoint (Some (gdb (Some 3))) true true ∅ false false None
             false [] in
  log ((relaunch_attached;;
        _configurationDone (fun _ c => c) (fun _ => mret tt)
          (fun _ _ => inr tt) (fun _ _ => inr tt) (fun _ _ => inr None)) d).2
  = [session_setBreakpoints "/a.c" [7]; session_pause 3].
Proof.
  intros d.
  destruct (attach_pauses_once (fun _ c => c) (fun _ => mret tt)
              (fun _ _ => inr tt) (fun _ _ => inr tt) (fun _ _ => inr None)
              d obligingSession (gdb (Some 3)) None
              eq_refl eq_refl eq_refl eq_refl eq_refl
              obligingSession_answersAll ltac:(done) ltac:(done) eq_refl)
    as (_ & _ & -> & _ & ->).
  reflexivity.
Defined.

(** ** Running with pending breakpoints *)

(** X15: a source breakpoint set while the session is configuring is
    sent when the program is run.  In launch mode and with an adapter
    that does not fail the [configurationDone] request,
    [setSourceBreakpoint] in the configuring state sends nothing; [run]
    then takes the session to the state running and sends, after what
    was logged before, the [setBreakpoints] request for the path of the
    new breakpoint, with the lines of the enabled breakpoints of that
    path, the new line among them.  When [run] returns, the last thing it
    has done is to stop the input; and it does return when the adapter
    answers every request for breakpoints and accepts the requests for
    the exception breakpoints and for the threads.  The requests
    [setExceptionBreakpoints], [configurationDone] and [threads], which
    [run] sends as well, are not among the effects that the log records:
    they enter the statement through their answers only, and the
    statement does not say that the log holds nothing else. *)
Theorem run_sends_pending_breakpoints
    (relaunch : Async unit)
    (updateThreads : list Thread.t -> ThreadCollection.t -> ThreadCollection.t)
    (stderr_write : string -> M unit)
    (answer_setExceptionBreakpoints answer_configurationDone :
       VsDebugSession -> list Effect -> Response unit)
    (answer_threads :
       VsDebugSession -> list Effect -> Response (option (list (Z * string))))
    (d : Debugger) (session : VsDebugSession) path line once body :
  let pending := setSourceBreakpoint path line once d in
  let r := run relaunch updateThreads stderr_write
             answer_setExceptionBreakpoints answer_configurationDone
             answer_threads pending.2 in
  let lines :=
    BreakpointCollection.s_line
    <$> BreakpointCollection.getAllEnabledBreakpointsForSource path
          (_breakpoints pending.2) in
  _attachMode d = false ->
  _state d = CONFIGURING ->
  _debugSession d = Some session ->
  (once = true ->
   BreakpointCollection.supportsOnceState (_breakpoints d) = true) ->
  (forall l, answer_configurationDone session l = inr tt) ->
  log pending.2 = log d
  /\ _state r.2 = RUNNING
  /\ line ∈ lines
  /\ (exists before after,
        log r.2
        = log d ++ before ++ session_setBreakpoints path lines :: after)
  /\ (r.1 = Return tt -> last (log r.2) = Some console_stopInput)
  /\ (answersAll session ->
      (forall l, answer_setExceptionBreakpoints session l = inr tt) ->
      (forall l, answer_threads session l = inr body) ->
      r.1 = Return tt).
Proof.
  intros pending r lines Hlaunch Hstate Hs Honce Hdone.
  assert (once && negb (BreakpointCollection.supportsOnceState (_breakpoints d))
          = false) as Hguard.
  { destruct once; [|done]. by rewrite Honce. }
  set (added := BreakpointCollection.addSourceBreakpoint path line once
                  (_breakpoints d)).
  assert (pending.2 = with_breakpoints added.2 d) as Hpending.
  { unfold pending.
    rewrite (setSourceBreakpoint_run d session path line once Hs Hguard).
    rewrite Hstate. by rewrite bool_decide_eq_false_2 by by intros []. }
  set (d1 := with_stoppedAtBreakpoint None (with_breakpoints added.2 d)).
  assert (r = _configurationDone updateThreads stderr_write
                answer_setExceptionBreakpoints answer_configurationDone
                answer_threads d1) as Hr.
  { unfold r, run. rewrite Hpending. step. simpl. rewrite Hlaunch.
    do 2 step. simpl. by rewrite Hstate. }
  destruct (_configurationDone_launch updateThreads stderr_write
              answer_setExceptionBreakpoints answer_configurationDone
              answer_threads d1 session Hs Hlaunch Hdone)
    as (Hrun & _ & Hlog & _).
  rewrite <- Hr in Hrun, Hlog.
  change (log d1) with (log d) in Hlog.
  change (_breakpoints d1) with added.2 in Hlog.
  unfold lines. rewrite Hpending.
  change (_breakpoints (with_breakpoints added.2 d)) with added.2.
  destruct (sourceRequests_enabled added.2
              (Breakpoint.mk (BreakpointCollection.nextIndex (_breakpoints d))
                 None false
                 (BreakpointCollection.initialState once (_breakpoints d))
                 None (Breakpoint.Source path line)) path line)
    as [Hrequest Hline]; [|done| |].
  { simpl. apply elem_of_app. right. apply list_elem_of_here. }
  { unfold Breakpoint.isEnabled, BreakpointCollection.initialState. simpl.
    by destruct once,
         (BreakpointCollection.supportsOnceState (_breakpoints d)). }
  split_and!; [done|done|done| | |].
  - apply list_elem_of_split in Hrequest as (before & after & Hsplit).
    exists before,
      (after ++ functionRequests session added.2
       ++ match r.1 with Return _ => [console_stopInput] | _ => [] end).
    rewrite Hlog. unfold resetRequests. rewrite Hsplit.
    by rewrite <- !app_assoc.
  - intros Hreturn. rewrite Hlog, Hreturn, !app_assoc. apply last_snoc.
  - intros Hall Hexc Hthreads. rewrite Hr.
    rewrite (_configurationDone_accepted updateThreads stderr_write
               answer_setExceptionBreakpoints answer_configurationDone
               answer_threads d1 session body Hs Hall Hexc Hdone
               (Hthreads _)).
    change (_attachMode d1) with (_attachMode d). by rewrite Hlaunch.
Qed.

Lemma run_sends_pending_breakpoints_witness :
  let pending :=
    setSourceBreakpoint "/a.c" 7 false
      (engine CONFIGURING obligingSession BreakpointCollection.empty) in
  let r := run idle (fun _ c => c) (fun _ => mret tt) (fun _ _ => inr tt)
             (fun _ _ => inr tt) (fun _ _ => inr None) pending.2 in
  r.1 = Return tt
  /\ log r.2 = [session_setBreakpoints "/a.c" [7]; console_stopInput].
Proof.
  intros pending r.
  destruct (run_sends_pending_breakpoints idle (fun _ c => c)
              (fun _ => mret tt) (fun _ _ => inr tt) (fun _ _ => inr tt)
              (fun _ _ => inr None)
              (engine CONFIGURING obligingSession BreakpointCollection.empty)
              obligingSession "/a.c" 7 false None eq_refl eq_refl eq_refl
              ltac:(discriminate) ltac:(done))
    as (_ & _ & _ & _ & _ & Hreturn).
  split; [|reflexivity].
  apply Hreturn; [apply obligingSession_answersAll|done|done].
Defined.

(** ** After the first stop *)

Lemma _onContinued_state
    (markAllThreadsRunning : ThreadCollection.t -> ThreadCollection.t)
    (markThreadRunning : Z -> ThreadCollection.t -> ThreadCollection.t)
    (event : ContinuedEvent) (d : Debugger) :
  let r := _onContinued markAllThreadsRunning markThreadRunning event d in
  r.1 = Return tt /\ _state r.2 = _state d.
Proof.
  unfold _onContinued, onThreads.
  destruct (bool_decide _); [|destruct (ce_threadId event)];
    do 2 step; by destruct (ThreadCollection.allThreadsRunning _).
Qed.

(** X19: the state running is not entered again once the program has
    stopped.  From the state stopped, [continue] and the continued event
    that follows leave [_state] at stopped - the input is stopped, the
    threads are marked, the state is not touched - and so a terminated
    event that arrives afterwards, while the program runs, is ignored by
    [_onTerminatedDebugee]: the session is not taken to the state
    terminated, the input is not started, nothing is relaunched. *)
Theorem terminated_ignored_after_stop
    (relaunch : Async unit)
    (markAllThreadsRunning : ThreadCollection.t -> ThreadCollection.t)
    (markThreadRunning : Z -> ThreadCollection.t -> ThreadCollection.t)
    (updateThreads : list Thread.t -> ThreadCollection.t -> ThreadCollection.t)
    (stderr_write : string -> M unit)
    (answer_setExceptionBreakpoints answer_configurationDone :
       VsDebugSession -> list Effect -> Response unit)
    (answer_threads :
       VsDebugSession -> list Effect -> Response (option (list (Z * string))))
    (answer_continue : VsDebugSession -> Z -> list Effect -> Response unit)
    (event : ContinuedEvent) (d : Debugger) :
  let d1 := (continue updateThreads stderr_write answer_setExceptionBreakpoints
               answer_configurationDone answer_threads answer_continue d).2 in
  let d2 := (_onContinued markAllThreadsRunning markThreadRunning event d1).2 in
  _state d = STOPPED ->
  _state d2 = STOPPED
  /\ _onTerminatedDebugee relaunch d2 = (Return tt, d2).
Proof.
  intros d1 d2 Hstate.
  assert (_state d1 = STOPPED) as Hd1.
  { unfold d1.
    destruct (continue_outcome updateThreads stderr_write
                answer_setExceptionBreakpoints answer_configurationDone
                answer_threads answer_continue d)
      as [[_ ->]|(e & _ & [->| ->])]; try done.
    rewrite Hstate. by intros [? _]. }
  assert (_state d2 = STOPPED) as Hd2.
  { unfold d2.
    by destruct (_onContinued_state markAllThreadsRunning markThreadRunning
                   event d1) as [_ ->]. }
  split; [done|]. unfold _onTerminatedDebugee. step. by rewrite Hd2.
Qed.

Lemma terminated_ignored_after_stop_witness :
  let d := with_threads
             (ThreadCollection.mk [Thread.mk 1 "main" true 0] (Some 1))
             (engine STOPPED quietSession BreakpointCollection.empty) in
  let d1 := (continue (fun _ c => c) (fun _ => mret tt) (fun _ _ => inr tt)
               (fun _ _ => inr tt) (fun _ _ => inr None)
               (fun _ _ _ => inr tt) d).2 in
  let d2 := (_onContinued (fun c => c) (fun _ c => c)
               (mkContinuedEvent (Some 1) None) d1).2 in
  _onTerminatedDebugee idle d2 = (Return tt, d2).
Proof.
  intros d d1 d2.
  exact (proj2 (terminated_ignored_after_stop idle (fun c => c) (fun _ c => c)
                  (fun _ c => c) (fun _ => mret tt) (fun _ _ => inr tt)
                  (fun _ _ => inr tt) (fun _ _ => inr None)
                  (fun _ _ _ => inr tt) (mkContinuedEvent (Some 1) None) d
                  eq_refl)).
Defined.

(** ** The variables of the scopes *)

Lemma mapM_ask {A B C} (answer : A -> list Effect -> Response B)
    (k : A -> Response B -> C) (l : list A) (d : Debugger) :
  mapM (M:=M) (fun a => response ← ask (answer a); mret (k a response)) l d
  = (Return ((fun a => k a (answer a (log d))) <$> l), d).
Proof.
  unfold ask. induction l as [|a l IH]; [done|].
  rewrite mapM_cons, bind_assoc. do 2 step.
  by rewrite (bind_Return _ _ _ _ _ IH).
Qed.

Lemma Promise_all_values_cons_Return {A} (p : M A) (ps : list (M A))
    (d d' d'' : Debugger) (a : A) (l : list A) :
  p d = (Return a, d') ->
  Promise_all_values ps d' = (Return l, d'') ->
  Promise_all_values (p :: ps) d = (Return (a :: l), d'').
Proof. intros Hp Hps. simpl. by rewrite Hp, Hps. Qed.

Lemma Promise_all_values_settled {A B C} (answer : A -> Response B)
    (f : A -> B) (g : A -> B -> C) (l : list A) (d : Debugger) :
  Forall (fun a => answer a = inr (f a)) l ->
  Promise_all_values ((fun a => b ← settle (answer a); mret (g a b)) <$> l) d
  = (Return ((fun a => g a (f a)) <$> l), d).
Proof.
  induction 1 as [|a l Ha _ IH]; [done|].
  rewrite !fmap_cons.
  apply (Promise_all_values_cons_Return _ _ d d d); [|done].
  by rewrite Ha.
Qed.

(** What [new Map(results).get(ref)] gives when the results are those
    of a function of the reference. *)
Lemma resultsByVarRef_lookup {B} (f : Z -> B) (refs : list Z) (ref : Z) :
  (list_to_map (reverse ((fun r => (r, f r)) <$> refs)) : gmap Z B) !! ref
  = if bool_decide (ref ∈ refs) then Some (f ref) else None.
Proof.
  assert (((fun r => (r, f r)) <$> refs).*1 = refs) as Hrefs.
  { rewrite <- list_fmap_compose.
    etrans; [apply list_fmap_ext|apply list_fmap_id]. by intros. }
  case_bool_decide as Hin.
  - destruct (list_to_map _ !! ref) as [b|] eqn:Hb.
    + apply elem_of_list_to_map_2 in Hb.
      apply elem_of_reverse, list_elem_of_fmap in Hb as (r & [= -> ->] & _).
      done.
    + apply not_elem_of_list_to_map_2 in Hb. destruct Hb.
      by rewrite fmap_reverse, elem_of_reverse, Hrefs.
  - apply not_elem_of_list_to_map_1.
    by rewrite fmap_reverse, elem_of_reverse, Hrefs.
Qed.

Lemma focusThread_getThreadById (c : ThreadCollection.t) (thread : Thread.t) :
  focusThread c = Some thread ->
  ThreadCollection.getThreadById (Thread.id thread) c = Some thread.
Proof.
  unfold focusThread. destruct (ThreadCollection.focusThreadId c) as [n|];
    [|done].
  simpl. intros Hfind. pose proof Hfind as Hid.
  apply find_some in Hid as [_ Hid].
  unfold ThreadCollection.hasId in Hid. apply bool_decide_eq_true in Hid.
  by rewrite Hid.
Qed.

(** X20: [getVariablesByScope] lists every scope of the selected frame,
    in the order of the adapter, with its name and its [expensive] flag,
    but asks for the variables only of the scopes that are selected: the
    ones with the given name or, without a name, the ones that are not
    expensive.  A scope that was not asked for has no variables, unless
    it shares its [variablesReference] with one that was.  A name that
    no scope has is an error.  The engine itself is left as it was. *)
Theorem getVariablesByScope_scopes {V : Type}
    (answer_stackTrace :
       VsDebugSession -> Z -> Z -> list Effect -> Response (list StackFrame))
    (answer_scopes :
       VsDebugSession -> Z -> list Effect -> Response (list Scope))
    (answer_variables :
       VsDebugSession -> Z -> list Effect -> Response (list V))
    (selectedScope : option string) (d : Debugger) (session : VsDebugSession)
    (thread : Thread.t) (stack : list StackFrame) (frame : StackFrame)
    (scopes : list Scope) (vars : Z -> list V) :
  let selected := fun scope =>
    match selectedScope with
    | Some name => bool_decide (scope_name scope = name)
    | None => negb (scope_expensive scope)
    end in
  let asked := scope_variablesReference <$> List.filter selected scopes in
  let r := getVariablesByScope answer_stackTrace answer_scopes
             answer_variables selectedScope d in
  _ensureDebugSession false d = (Return session, d) ->
  focusThread (_threads d) = Some thread ->
  Thread.isStopped thread = true ->
  answer_stackTrace session (Thread.id thread)
    (Z.of_nat (Thread.selectedStackFrame thread) + 1) (log d) = inr stack ->
  stack !! Thread.selectedStackFrame thread = Some frame ->
  answer_scopes session (frame_id frame) (log d) = inr scopes ->
  (forall name,
     selectedScope = Some name -> asked = [] ->
     r = (Throw (Error ("There is no scope named '" +:+ name
                        +:+ "' in the current context.")), d))
  /\ ((selectedScope = None \/ asked <> []) ->
      (forall ref, ref ∈ asked ->
         answer_variables session ref (log d) = inr (vars ref)) ->
      r = (Return
             ((fun scope =>
                 mkVariablesInScope (scope_expensive scope) (scope_name scope)
                   (if bool_decide (scope_variablesReference scope ∈ asked)
                    then Some (vars (scope_variablesReference scope))
                    else None))
              <$> scopes), d)).
Proof.
  intros selected asked r Hs Hfocus Hstopped Hstack Hframe Hscopes.
  assert (getActiveThread d = (Return thread, d)) as Hactive.
  { by rewrite getActiveThread_eq, Hs, Hfocus. }
  assert (getStackTrace answer_stackTrace (Thread.id thread)
            (Z.of_nat (Thread.selectedStackFrame thread) + 1) d
          = (Return stack, d)) as Htrace.
  { unfold getStackTrace. step.
    rewrite (focusThread_getThreadById _ _ Hfocus), Hstopped. simpl.
    rewrite (bind_Return _ _ _ _ _ Hs). by rewrite answered_eq, Hstack. }
  assert (r = (queries ←
                 match selectedScope with
                 | Some selectedScope =>
                     let queries :=
                       List.filter
                         (fun scope =>
                            bool_decide (scope_name scope = selectedScope))
                         scopes in
                     if bool_decide (length queries = 0%nat)
                     then throw (Error ("There is no scope named '"
                                        +:+ selectedScope
                                        +:+ "' in the current context."))
                     else mret queries
                 | None =>
                     mret (List.filter
                             (fun scope => negb (scope_expensive scope)) scopes)
                 end;
               executers ←
                 mapM (M:=M)
                   (fun scope =>
                      response ←
                        ask (answer_variables session
                               (scope_variablesReference scope));
                      mret (variables ← settle response;
                            mret (scope_variablesReference scope, variables)))
                   queries;
               results ← Promise_all_values executers;
               let resultsByVarRef : gmap Z (list V) :=
                 list_to_map (reverse results) in
               mret ((fun scope =>
                        mkVariablesInScope (scope_expensive scope)
                          (scope_name scope)
                          (resultsByVarRef !! scope_variablesReference scope))
                     <$> scopes)) d) as Hr.
  { unfold r, getVariablesByScope.
    rewrite (bind_Return _ _ _ _ _ Hs), (bind_Return _ _ _ _ _ Hactive).
    rewrite (bind_Return _ _ _ _ _ Htrace). unfold _stackFrameId.
    rewrite Hframe. simpl. by rewrite bind_answered, Hscopes. }
  split.
  - intros name -> Hnone. rewrite Hr. unfold asked, selected in Hnone.
    apply fmap_nil_inv in Hnone. rewrite Hnone. simpl. by step.
  - intros Hsome Hvars.
    assert ((match selectedScope with
             | Some selectedScope =>
                 let queries :=
                   List.filter
                     (fun scope =>
                        bool_decide (scope_name scope = selectedScope))
                     scopes in
                 if bool_decide (length queries = 0%nat)
                 then throw (Error ("There is no scope named '"
                                    +:+ selectedScope
                                    +:+ "' in the current context."))
                 else mret queries
             | None =>
                 mret (List.filter
                         (fun scope => negb (scope_expensive scope)) scopes)
             end : M (list Scope)) d
            = (Return (List.filter selected scopes), d)) as Hqueries.
    { unfold asked, selected in *. destruct selectedScope as [name|]; [|done].
      simpl. rewrite bool_decide_eq_false_2; [done|].
      destruct Hsome as [|Hsome]; [done|]. intros Hlen. apply Hsome.
      by destruct (List.filter _ scopes). }
    rewrite Hr, (bind_Return _ _ _ _ _ Hqueries).
    rewrite (bind_Return _ _ _ _ _
               (mapM_ask
                  (fun scope =>
                     answer_variables session (scope_variablesReference scope))
                  (fun scope response =>
                     variables ← settle response;
                     mret (scope_variablesReference scope, variables))
                  _ d)).
    erewrite bind_Return; cycle 1.
    { apply (Promise_all_values_settled
               (fun scope =>
                  answer_variables session (scope_variablesReference scope)
                    (log d))
               (fun scope => vars (scope_variablesReference scope))
               (fun scope variables =>
                  (scope_variablesReference scope, variables))).
      apply Forall_forall. intros scope Hin.
      apply Hvars. unfold asked. by apply list_elem_of_fmap_2. }
    cbv zeta. unfold mret, M_ret. f_equal. f_equal.
    apply list_fmap_ext. intros i scope _. f_equal.
    rewrite (list_fmap_compose scope_variablesReference
               (fun ref => (ref, vars ref))).
    apply resultsByVarRef_lookup.
Qed.

Lemma getVariablesByScope_scopes_witness :
  let d := with_threads
             (ThreadCollection.mk [Thread.mk 1 "main" true 0] (Some 1))
             (engine STOPPED quietSession BreakpointCollection.empty) in
  getVariablesByScope
    (fun _ _ _ _ => inr [mkStackFrame 10])
    (fun _ _ _ => inr [mkScope "Locals" false 1; mkScope "Globals" true 2])
    (fun _ ref _ => inr [ref]) None d
  = (Return [mkVariablesInScope false "Locals" (Some [1]);
             mkVariablesInScope true "Globals" None], d).
Proof.
  intros d.
  exact (proj2 (getVariablesByScope_scopes
                  (fun _ _ _ _ => inr [mkStackFrame 10])
                  (fun _ _ _ => inr [mkScope "Locals" false 1;
                                     mkScope "Globals" true 2])
                  (fun _ ref _ => inr [ref]) None d quietSession
                  (Thread.mk 1 "main" true 0) [mkStackFrame 10]
                  (mkStackFrame 10)
                  [mkScope "Locals" false 1; mkScope "Globals" true 2]
                  (fun ref => [ref])
                  eq_refl eq_refl eq_refl eq_refl eq_refl eq_refl)
           (or_introl eq_refl) (fun ref _ => eq_refl)).
Defined.

(** ** The selected frame *)

Lemma getThreadById_update (n m : Z) (g : Thread.t -> Thread.t)
    (c : ThreadCollection.t) :
  (forall th, Thread.id (g th) = Thread.id th) ->
  ThreadCollection.getThreadById m (ThreadCollection.update n g c)
  = (fun th => if bool_decide (Thread.id th = n) then g th else th)
    <$> ThreadCollection.getThreadById m c.
Proof.
  intros Hg. unfold ThreadCollection.getThreadById, ThreadCollection.update.
  simpl. induction (ThreadCollection.threads c) as [|th l IH]; [done|].
  simpl. unfold ThreadCollection.hasId in *.
  destruct (bool_decide (Thread.id th = n)) eqn:Hn.
  - rewrite Hg. destruct (bool_decide (Thread.id th = m)); [|done].
    simpl. by rewrite Hn.
  - destruct (bool_decide (Thread.id th = m)); [|done]. simpl. by rewrite Hn.
Qed.

(** X21: the frame that [setSelectedStackFrame] selects for the active
    thread is the frame that [getCurrentStackFrame] returns afterwards.
    The selection is made only if the adapter has reported a frame at
    that depth; if the stack is shorter, the call throws with the number
    of frames and leaves the selection as it was. *)
Theorem selected_frame_round_trip
    (answer_stackTrace :
       VsDebugSession -> Z -> Z -> list Effect -> Response (list StackFrame))
    (d : Debugger) (session : VsDebugSession) (thread : Thread.t)
    (frameIndex : nat) (frames : list StackFrame) :
  let r := setSelectedStackFrame answer_stackTrace (Thread.id thread)
             frameIndex d in
  _ensureDebugSession false d = (Return session, d) ->
  focusThread (_threads d) = Some thread ->
  Thread.isStopped thread = true ->
  answer_stackTrace session (Thread.id thread) (Z.of_nat frameIndex + 1) (log d)
  = inr frames ->
  match frames !! frameIndex with
  | Some frame =>
      r.1 = Return tt
      /\ getCurrentStackFrame answer_stackTrace r.2 = (Return (Some frame), r.2)
  | None =>
      r = (Throw (Error ("There are only " +:+ pretty (length frames) +:+
                         " frames in the thread's stack trace.")), d)
  end.
Proof.
  intros r Hs Hfocus Hstopped Hframes.
  pose proof (focusThread_getThreadById _ _ Hfocus) as Hfind.
  assert (getStackTrace answer_stackTrace (Thread.id thread)
            (Z.of_nat frameIndex + 1) d = (Return frames, d)) as Htrace.
  { unfold getStackTrace. step. rewrite Hfind, Hstopped. simpl.
    rewrite (bind_Return _ _ _ _ _ Hs). by rewrite answered_eq, Hframes. }
  unfold r, setSelectedStackFrame. rewrite (bind_Return _ _ _ _ _ Htrace).
  destruct (frames !! frameIndex) as [frame|] eqn:Hframe; [|done].
  unfold onThreads. simpl. split; [done|].
  set (d' := with_threads _ d).
  assert (_ensureDebugSession false d' = (Return session, d')) as Hs'.
  { revert Hs. rewrite !_ensureDebugSession_eq. simpl. by intros [= ->]. }
  assert (focusThread (_threads d')
          = Some (selectStackFrame frameIndex thread)) as Hfocus'.
  { unfold focusThread in *. simpl.
    destruct (ThreadCollection.focusThreadId (_threads d)) as [n|]; [|done].
    simpl in *. rewrite getThreadById_update by done. rewrite Hfocus. simpl.
    by rewrite bool_decide_eq_true_2. }
  unfold getCurrentStackFrame.
  rewrite (bind_Return _ _ _ _ _ Hs').
  erewrite bind_Return; cycle 1.
  { by rewrite getActiveThread_eq, Hs', Hfocus'. }
  simpl. erewrite bind_Return; cycle 1.
  { pose proof (focusThread_getThreadById _ _ Hfocus') as Hfind'.
    change (Thread.id (selectStackFrame frameIndex thread))
      with (Thread.id thread) in Hfind'.
    unfold getStackTrace. step. rewrite Hfind'. simpl.
    rewrite Hstopped. simpl. rewrite (bind_Return _ _ _ _ _ Hs').
    rewrite answered_eq. change (log d') with (log d). by rewrite Hframes. }
  by rewrite Hframe.
Qed.

Lemma selected_frame_round_trip_witness :
  let d := with_threads
             (ThreadCollection.mk [Thread.mk 1 "main" true 0] (Some 1))
             (engine STOPPED quietSession BreakpointCollection.empty) in
  let answer_stackTrace := fun (_ : VsDebugSession) (_ _ : Z) (_ : list Effect) =>
    inr [mkStackFrame 10; mkStackFrame 11] : Response (list StackFrame) in
  let r := setSelectedStackFrame answer_stackTrace 1 1 d in
  getCurrentStackFrame answer_stackTrace r.2
  = (Return (Some (mkStackFrame 11)), r.2).
Proof.
  intros d answer_stackTrace r.
  exact (proj2 (selected_frame_round_trip answer_stackTrace d quietSession
                  (Thread.mk 1 "main" true 0) 1
                  [mkStackFrame 10; mkStackFrame 11]
                  eq_refl eq_refl eq_refl eq_refl)).
Defined.
